(** * Snapshot span engine of [src/tab.ts]

    A shallow embedding of the span management and navigation code of the
    [Tab] class: [_splitSnapshotIntoSpans], [setSnapshotSpanSize], the span
    navigation methods, [searchInSnapshot], [navigateToLine], the cursor
    reconciliation of [captureSnapshot] and the modal state queue; then
    the dialog and file chooser listeners, the console messages and the
    requests, [refLocators], and the handlers of the tools of
    [tools/snapshotNavigation.ts].  A method that assigns fields of the
    tab takes the tab and returns the new one, with its result when it has
    one.  The markdown that [captureSnapshot] renders, the downloads, the
    page operations and the asynchronous race of
    [_raceAgainstModalStates] after its first statement are not modelled.

    JavaScript strings are sequences of UTF-16 code units; they are modelled
    as lists of code units ([N]).  JavaScript numbers that hold array indices
    or line numbers are modelled as [Z] where the code computes with them
    ([Math.min], [Math.max], subtraction) and as [nat] where they only index
    an array. *)

From Stdlib Require Import Strings.String Strings.Ascii Numbers.DecimalString.
From Stdlib Require Import List ZArith NArith Lia Bool Arith Sorted.
Import ListNotations.

Open Scope Z_scope.

(* ================================================================== *)
(** ** JavaScript strings *)
(* ================================================================== *)

Definition jsstring := list N.

(** A string literal of the source, as code units. *)
Definition js (s : string) : jsstring :=
  map N_of_ascii (list_ascii_of_string s).

Definition LF : N := 10%N.

(** [String(n)] / template substitution of an integer. *)
Definition string_of_Z (z : Z) : jsstring :=
  js (NilZero.string_of_int (Z.to_int z)).

Definition string_of_nat (n : nat) : jsstring :=
  js (NilZero.string_of_uint (Nat.to_uint n)).

(** ECMAScript [WhiteSpace] and [LineTerminator] code points, the set that
    [trim], [trimStart] and [trimEnd] strip. *)
Definition isWhiteSpace (c : N) : bool :=
  ((c =? 9) || (c =? 10) || (c =? 11) || (c =? 12) || (c =? 13)
   || (c =? 32) || (c =? 160) || (c =? 5760)
   || ((8192 <=? c) && (c <=? 8202))
   || (c =? 8232) || (c =? 8233) || (c =? 8239) || (c =? 8287)
   || (c =? 12288) || (c =? 65279))%N.

(** [s.split('\n')]: never empty, one more element than there are line
    feeds. *)
Fixpoint split_newline (s : jsstring) : list jsstring :=
  match s with
  | [] => [[]]
  | c :: s' =>
      if (c =? LF)%N then [] :: split_newline s'
      else match split_newline s' with
           | [] => [[c]]
           | l :: ls => (c :: l) :: ls
           end
  end.

(** [s.trimStart()] *)
Fixpoint trimStart (s : jsstring) : jsstring :=
  match s with
  | [] => []
  | c :: s' => if isWhiteSpace c then trimStart s' else s
  end.

(** [s.trimEnd()] *)
Fixpoint trimEnd (s : jsstring) : jsstring :=
  match s with
  | [] => []
  | c :: s' =>
      match trimEnd s' with
      | [] => if isWhiteSpace c then [] else [c]
      | r => c :: r
      end
  end.

(** [s.trim()] *)
Definition trim (s : jsstring) : jsstring := trimEnd (trimStart s).

(** [s.substring(0, n)] for a number [n]: a negative end is taken as 0
    and an end beyond the length as the length. *)
Definition substring0 (n : Z) (s : jsstring) : jsstring :=
  firstn (Z.to_nat n) s.

(** [a.join(sep)] *)
Fixpoint join (sep : jsstring) (l : list jsstring) : jsstring :=
  match l with
  | [] => []
  | [x] => x
  | x :: rest => x ++ sep ++ join sep rest
  end.

Definition jslength (s : jsstring) : Z := Z.of_nat (length s).

Definition jsstring_eqb (a b : jsstring) : bool :=
  if list_eq_dec N.eq_dec a b then true else false.

(* ================================================================== *)
(** ** The tab state *)
(* ================================================================== *)

Inductive ModalType := dialog | fileChooser.

(** A modal state object.  [ms_ref] is the identity of the JavaScript
    object: [!==] on objects compares references, not contents. *)
Record ModalState := mkModalState {
  ms_ref : nat;
  ms_type : ModalType;
  ms_description : jsstring
}.

Record LineRange := mkLineRange {
  startLine : Z;
  endLine : Z
}.

Record Tab := mkTab {
  _modalStates : list ModalState;
  _fullSnapshot : jsstring;
  _snapshotSpans : list jsstring;
  _currentSpanIndex : Z;
  _snapshotSpanSize : Z;
  _globalLines : list jsstring;
  _spanToGlobalLineMap : list LineRange
}.

(** The fields as the constructor leaves them; [spanSize] is
    [context.config.spanSize], and [spanSize || 2000] replaces 0 (and
    an absent value, given as 0 here) by 2000. *)
Definition new_Tab (spanSize : Z) : Tab :=
  {| _modalStates := [];
     _fullSnapshot := [];
     _snapshotSpans := [];
     _currentSpanIndex := 0;
     _snapshotSpanSize := if spanSize =? 0 then 2000 else spanSize;
     _globalLines := [];
     _spanToGlobalLineMap := [] |}.

Definition _resetSnapshot (t : Tab) : Tab :=
  {| _modalStates := _modalStates t;
     _fullSnapshot := [];
     _snapshotSpans := [];
     _currentSpanIndex := 0;
     _snapshotSpanSize := _snapshotSpanSize t;
     _globalLines := [];
     _spanToGlobalLineMap := [] |}.

(* ================================================================== *)
(** ** The Spanner: [_splitSnapshotIntoSpans] *)
(* ================================================================== *)

(** The indicator appended to a truncated line (with its line feed). *)
Definition truncation_marker (originalLength : nat) : jsstring :=
  js "... [line truncated, originally with " ++ string_of_nat originalLength
     ++ js " chars]" ++ [LF].

(** The text a line contributes to its span: [line + '\n'], or the
    truncated line when that is longer than the span size. *)
Definition lineToAdd (size : Z) (line : jsstring) : jsstring :=
  if jslength (line ++ [LF]) >? size
  then substring0 (size - 50) line ++ truncation_marker (length line)
  else line ++ [LF].

(** The local variables of the loop. *)
Record SplitAcc := mkSplitAcc {
  spans : list jsstring;
  lineMap : list LineRange;
  currentSpan : jsstring;
  currentLength : Z;
  spanStartLineIndex : nat
}.

Definition split_init : SplitAcc :=
  {| spans := []; lineMap := []; currentSpan := []; currentLength := 0;
     spanStartLineIndex := 0 |}.

(** One iteration of the loop, at index [i] with [lines[i] = line]. *)
Definition split_step (size : Z) (i : nat) (line : jsstring) (a : SplitAcc)
  : SplitAcc :=
  let l := lineToAdd size line in
  if (currentLength a + jslength l >? size) && (0 <? jslength (currentSpan a))
  then {| spans := spans a ++ [trimEnd (currentSpan a)];
          lineMap := lineMap a ++
            [{| startLine := Z.of_nat (spanStartLineIndex a) + 1;
                endLine := Z.of_nat i |}];
          currentSpan := l;
          currentLength := jslength l;
          spanStartLineIndex := i |}
  else {| spans := spans a;
          lineMap := lineMap a;
          currentSpan := currentSpan a ++ l;
          currentLength := currentLength a + jslength l;
          spanStartLineIndex := spanStartLineIndex a |}.

(** The loop from index [i] over the remaining lines. *)
Fixpoint split_loop (size : Z) (i : nat) (lines : list jsstring)
  (a : SplitAcc) : SplitAcc :=
  match lines with
  | [] => a
  | line :: rest => split_loop size (S i) rest (split_step size i line a)
  end.

(** The code after the loop: the pending span is recorded when it has
    content other than white space. *)
Definition split_finish (lineCount : nat) (a : SplitAcc) : SplitAcc :=
  if 0 <? jslength (trim (currentSpan a))
  then {| spans := spans a ++ [trimEnd (currentSpan a)];
          lineMap := lineMap a ++
            [{| startLine := Z.of_nat (spanStartLineIndex a) + 1;
                endLine := Z.of_nat lineCount |}];
          currentSpan := currentSpan a;
          currentLength := currentLength a;
          spanStartLineIndex := spanStartLineIndex a |}
  else a.

(** The spans returned and the line map stored for a snapshot text. *)
Definition split_spans (size : Z) (snapshot : jsstring)
  : list jsstring * list LineRange :=
  let lines := split_newline snapshot in
  if size =? -1
  then ([snapshot],
        [{| startLine := 1; endLine := Z.of_nat (length lines) |}])
  else
    let a := split_finish (length lines)
               (split_loop size 0 lines split_init) in
    (match spans a with [] => [[]] | _ => spans a end, lineMap a).

(** The method: stores the lines and the line map in the tab, returns the
    spans. *)
Definition _splitSnapshotIntoSpans (snapshot : jsstring) (t : Tab)
  : list jsstring * Tab :=
  let r := split_spans (_snapshotSpanSize t) snapshot in
  (fst r,
   {| _modalStates := _modalStates t;
      _fullSnapshot := _fullSnapshot t;
      _snapshotSpans := _snapshotSpans t;
      _currentSpanIndex := _currentSpanIndex t;
      _snapshotSpanSize := _snapshotSpanSize t;
      _globalLines := split_newline snapshot;
      _spanToGlobalLineMap := snd r |}).

(** [if (this._fullSnapshot)]: the empty string is falsy. *)
Definition truthy (s : jsstring) : bool :=
  match s with [] => false | _ => true end.

Definition setSnapshotSpanSize (size : Z) (t : Tab) : Tab :=
  let size' := if size =? -1 then -1 else Z.max 100 size in
  let t1 := {| _modalStates := _modalStates t;
               _fullSnapshot := _fullSnapshot t;
               _snapshotSpans := _snapshotSpans t;
               _currentSpanIndex := _currentSpanIndex t;
               _snapshotSpanSize := size';
               _globalLines := _globalLines t;
               _spanToGlobalLineMap := _spanToGlobalLineMap t |} in
  if truthy (_fullSnapshot t1) then
    let (sp, t2) := _splitSnapshotIntoSpans (_fullSnapshot t1) t1 in
    {| _modalStates := _modalStates t2;
       _fullSnapshot := _fullSnapshot t2;
       _snapshotSpans := sp;
       _currentSpanIndex :=
         Z.min (_currentSpanIndex t2) (Z.of_nat (length sp) - 1);
       _snapshotSpanSize := _snapshotSpanSize t2;
       _globalLines := _globalLines t2;
       _spanToGlobalLineMap := _spanToGlobalLineMap t2 |}
  else t1.

Definition getSnapshotSpanSize (t : Tab) : Z := _snapshotSpanSize t.
Definition getCurrentSpanIndex (t : Tab) : Z := _currentSpanIndex t.
Definition getTotalSpans (t : Tab) : Z := Z.of_nat (length (_snapshotSpans t)).

(* ================================================================== *)
(** ** Span navigation *)
(* ================================================================== *)

Record SpanResult := mkSpanResult {
  success : bool;
  span : jsstring;
  spanIndex : Z;
  totalSpans : Z
}.

Definition set_currentSpanIndex (i : Z) (t : Tab) : Tab :=
  {| _modalStates := _modalStates t;
     _fullSnapshot := _fullSnapshot t;
     _snapshotSpans := _snapshotSpans t;
     _currentSpanIndex := i;
     _snapshotSpanSize := _snapshotSpanSize t;
     _globalLines := _globalLines t;
     _spanToGlobalLineMap := _spanToGlobalLineMap t |}.

(** [this._snapshotSpans[clampedIndex]]; the index is always in range
    there, the default is never returned. *)
Definition navigateToSpan (index : Z) (t : Tab) : SpanResult * Tab :=
  if Z.of_nat (length (_snapshotSpans t)) =? 0
  then ({| success := false; span := []; spanIndex := 0; totalSpans := 0 |},
        t)
  else
    let clampedIndex :=
      Z.max 0 (Z.min index (Z.of_nat (length (_snapshotSpans t)) - 1)) in
    ({| success := true;
        span := nth (Z.to_nat clampedIndex) (_snapshotSpans t) [];
        spanIndex := clampedIndex;
        totalSpans := Z.of_nat (length (_snapshotSpans t)) |},
     set_currentSpanIndex clampedIndex t).

Definition navigateToFirstSpan (t : Tab) : SpanResult * Tab :=
  navigateToSpan 0 t.

Definition navigateToLastSpan (t : Tab) : SpanResult * Tab :=
  navigateToSpan (Z.of_nat (length (_snapshotSpans t)) - 1) t.

Definition navigateToNextSpan (t : Tab) : SpanResult * Tab :=
  navigateToSpan (_currentSpanIndex t + 1) t.

Definition navigateToPrevSpan (t : Tab) : SpanResult * Tab :=
  navigateToSpan (_currentSpanIndex t - 1) t.

(* ================================================================== *)
(** ** Regular expressions, as [searchInSnapshot] uses them *)
(* ================================================================== *)

(** The flags of a regular expression. *)
Record Flags := mkFlags {
  hasIndices : bool;  (* d *)
  global : bool;      (* g *)
  ignoreCase : bool;  (* i *)
  multiline : bool;   (* m *)
  dotAll : bool;      (* s *)
  unicode : bool;     (* u *)
  unicodeSets : bool; (* v *)
  sticky : bool       (* y *)
}.

Definition no_flags : Flags :=
  mkFlags false false false false false false false false.

(** Adds the flag of one code unit; [None] for a code unit that is no flag
    or a flag given twice (a [SyntaxError] of the constructor). *)
Definition add_flag (c : N) (f : Flags) : option Flags :=
  match c, f with
  | 100%N, mkFlags false g i m s u v y => Some (mkFlags true g i m s u v y)
  | 103%N, mkFlags d false i m s u v y => Some (mkFlags d true i m s u v y)
  | 105%N, mkFlags d g false m s u v y => Some (mkFlags d g true m s u v y)
  | 109%N, mkFlags d g i false s u v y => Some (mkFlags d g i true s u v y)
  | 115%N, mkFlags d g i m false u v y => Some (mkFlags d g i m true u v y)
  | 117%N, mkFlags d g i m s false false y =>
      Some (mkFlags d g i m s true false y)
  | 118%N, mkFlags d g i m s false false y =>
      Some (mkFlags d g i m s false true y)
  | 121%N, mkFlags d g i m s u v false => Some (mkFlags d g i m s u v true)
  | _, _ => None
  end.

Fixpoint parse_flags_from (f : Flags) (s : jsstring) : option Flags :=
  match s with
  | [] => Some f
  | c :: s' =>
      match add_flag c f with
      | Some f' => parse_flags_from f' s'
      | None => None
      end
  end.

Definition parse_flags (s : jsstring) : option Flags :=
  parse_flags_from no_flags s.

(** A compiled pattern: the matcher tried at one index of a string, giving
    the end index of the match when there is one. *)
Definition Matcher := jsstring -> nat -> option nat.

(** A [RegExp] object: its matcher, the two flags that make [test] use
    [lastIndex], and the mutable [lastIndex]. *)
Record RegExp := mkRegExp {
  rx_matcher : Matcher;
  rx_global : bool;
  rx_sticky : bool;
  lastIndex : nat
}.

Definition set_lastIndex (i : nat) (R : RegExp) : RegExp :=
  {| rx_matcher := rx_matcher R; rx_global := rx_global R;
     rx_sticky := rx_sticky R; lastIndex := i |}.

(** The scan of [RegExpBuiltinExec]: the matcher is tried at [i], then at
    the following indices, [fuel] more times. *)
Fixpoint scan (m : Matcher) (str : jsstring) (fuel : nat) (i : nat)
  : option nat :=
  match m str i with
  | Some e => Some e
  | None =>
      match fuel with
      | O => None
      | S fuel' => scan m str fuel' (S i)
      end
  end.

(** [regex.test(str)]: [RegExpBuiltinExec] of the language specification.
    With the [g] or [y] flag the search starts at [lastIndex], which is
    then set to the end of the match, or to 0 when there is none. *)
Definition RegExp_test (R : RegExp) (str : jsstring) : bool * RegExp :=
  let uses := rx_global R || rx_sticky R in
  let start := if uses then lastIndex R else O in
  if (length str <? start)%nat
  then (false, if uses then set_lastIndex 0 R else R)
  else
    let r := if rx_sticky R then rx_matcher R str start
             else scan (rx_matcher R) str (length str - start) start in
    match r with
    | Some e => (true, if uses then set_lastIndex e R else R)
    | None => (false, if uses then set_lastIndex 0 R else R)
    end.

(** The pattern matches the string: there is a match somewhere in it. *)
Definition pattern_matches (m : Matcher) (str : jsstring) : bool :=
  match scan m str (length str) 0 with Some _ => true | None => false end.

Record SearchMatch := mkSearchMatch {
  m_spanIndex : Z;
  m_line : jsstring;
  m_inSpanLineNumber : Z;
  m_globalLineNumber : Z
}.

Record SearchResult := mkSearchResult {
  spanIndices : list Z;
  matches : list SearchMatch
}.

(** What the two nested callbacks of [searchInSnapshot] read and write:
    the regular expression and the two result arrays. *)
Record SearchAcc := mkSearchAcc {
  sa_regex : RegExp;
  sa_spanIndices : list Z;
  sa_matches : list SearchMatch
}.

(** [lines.forEach((line, lineIndex) => ...)] from [lineIndex] on;
    [hasMatch] is threaded with the accumulator. *)
Fixpoint search_lines (spanIndex : nat) (spanLineRange : option LineRange)
  (lineIndex : nat) (lines : list jsstring) (hasMatch : bool)
  (a : SearchAcc) : bool * SearchAcc :=
  match lines with
  | [] => (hasMatch, a)
  | line :: rest =>
      let (found, R) := RegExp_test (sa_regex a) line in
      if found then
        let globalLineNumber :=
          match spanLineRange with
          | Some r => startLine r + Z.of_nat lineIndex
          | None => Z.of_nat lineIndex + 1
          end in
        search_lines spanIndex spanLineRange (S lineIndex) rest true
          {| sa_regex := R;
             sa_spanIndices := sa_spanIndices a;
             sa_matches := sa_matches a ++
               [{| m_spanIndex := Z.of_nat spanIndex;
                   m_line := trim line;
                   m_inSpanLineNumber := Z.of_nat lineIndex + 1;
                   m_globalLineNumber := globalLineNumber |}] |}
      else
        search_lines spanIndex spanLineRange (S lineIndex) rest hasMatch
          {| sa_regex := R;
             sa_spanIndices := sa_spanIndices a;
             sa_matches := sa_matches a |}
  end.

(** [this._snapshotSpans.forEach((span, spanIndex) => ...)] from
    [spanIndex] on. *)
Fixpoint search_spans (lineMap : list LineRange) (spanIndex : nat)
  (spans : list jsstring) (a : SearchAcc) : SearchAcc :=
  match spans with
  | [] => a
  | span :: rest =>
      let (hasMatch, a1) :=
        search_lines spanIndex (nth_error lineMap spanIndex) 0
          (split_newline span) false a in
      search_spans lineMap (S spanIndex) rest
        (if hasMatch
         then {| sa_regex := sa_regex a1;
                 sa_spanIndices := sa_spanIndices a1 ++ [Z.of_nat spanIndex];
                 sa_matches := sa_matches a1 |}
         else a1)
  end.

(** The search with the regular expression object already built. *)
Definition search_with (R : RegExp) (t : Tab) : SearchResult :=
  let a := search_spans (_spanToGlobalLineMap t) 0 (_snapshotSpans t)
             {| sa_regex := R; sa_spanIndices := []; sa_matches := [] |} in
  {| spanIndices := sa_spanIndices a; matches := sa_matches a |}.

Section Search.

(** The pattern compiler of the JavaScript engine: [None] when the
    pattern is not a regular expression. *)
Variable compilePattern : jsstring -> Flags -> option Matcher.

(** [new RegExp(pattern, flags)]; [None] for a [SyntaxError]. *)
Definition new_RegExp (pattern flags : jsstring) : option RegExp :=
  match parse_flags flags with
  | None => None
  | Some f =>
      match compilePattern pattern f with
      | None => None
      | Some m =>
          Some {| rx_matcher := m; rx_global := global f;
                  rx_sticky := sticky f; lastIndex := 0 |}
      end
  end.

(** [flags] is the optional argument; [flags || 'gi'] replaces an absent
    or empty one.  The result is [None] when the constructor throws. *)
Definition searchInSnapshot (pattern : jsstring) (flags : option jsstring)
  (t : Tab) : option SearchResult :=
  let flags' := match flags with
                | Some (c :: f) => c :: f
                | _ => js "gi"
                end in
  match new_RegExp pattern flags' with
  | None => None
  | Some R => Some (search_with R t)
  end.

End Search.

(* ================================================================== *)
(** ** The line locator: [navigateToLine] *)
(* ================================================================== *)

Record LineResult := mkLineResult {
  l_success : bool;
  content : jsstring;
  lineInfo : jsstring
}.

(** The integers [lo], [lo + 1], ... ([n] of them): the values of a
    counting [for] loop. *)
Definition Zrange (lo : Z) (n : nat) : list Z :=
  map (fun k => lo + Z.of_nat k) (seq 0 n).

(** The first loop of [navigateToLine] from [spanIndex] on: the indices of
    the spans whose line range overlaps [startLine .. endLine]
    (0-based). *)
Fixpoint involvedSpans (spanIndex : nat) (m : list LineRange)
  (startLn endLn : Z) : list Z :=
  match m with
  | [] => []
  | spanRange :: rest =>
      if (startLine spanRange - 1 <=? endLn)
         && (endLine spanRange - 1 >=? startLn)
      then Z.of_nat spanIndex :: involvedSpans (S spanIndex) rest startLn endLn
      else involvedSpans (S spanIndex) rest startLn endLn
  end.

(** One entry of [contextContent]; a read beyond the array would give
    [undefined]. *)
Definition context_entry (lines : list jsstring) (targetLineIndex i : Z)
  : jsstring :=
  (if i =? targetLineIndex then js ">>> " else js "    ")
    ++ string_of_Z (i + 1) ++ js ": "
    ++ nth (Z.to_nat i) lines (js "undefined").

(** The second loop: [contextContent]. *)
Definition contextContent (lines : list jsstring)
  (startLn endLn targetLineIndex : Z) : list jsstring :=
  map (context_entry lines targetLineIndex)
      (Zrange startLn (Z.to_nat (endLn - startLn + 1))).

Definition spanInfo (involved : list Z) : jsstring :=
  match involved with
  | [] => js "Span information unavailable"
  | _ => js "Lines from spans: "
           ++ join (js ", ") (map (fun s => string_of_Z (s + 1)) involved)
  end.

Definition no_snapshot_message : jsstring :=
  js "No snapshot available. Take a snapshot first.".

Definition out_of_range_message (globalLineNumber : Z) (lineCount : nat)
  : jsstring :=
  js "Line " ++ string_of_Z globalLineNumber
    ++ js " is out of range. Snapshot has " ++ string_of_nat lineCount
    ++ js " lines.".

(** The two code units before [contextLines] in [lineInfo], as the source
    file has them. *)
Definition plus_minus : jsstring := [194%N; 177%N].

(** [navigateToLine(globalLineNumber, contextLines)]; the caller's default
    for [contextLines] is 3.  The method assigns no field: the tab is
    returned as it was given. *)
Definition navigateToLine (globalLineNumber contextLines : Z) (t : Tab)
  : LineResult * Tab :=
  if Z.of_nat (length (_globalLines t)) =? 0
  then ({| l_success := false; content := [];
           lineInfo := no_snapshot_message |}, t)
  else
    let targetLineIndex := globalLineNumber - 1 in
    if (targetLineIndex <? 0)
       || (targetLineIndex >=? Z.of_nat (length (_globalLines t)))
    then ({| l_success := false; content := [];
             lineInfo := out_of_range_message globalLineNumber
                           (length (_globalLines t)) |}, t)
    else
      let startLn := Z.max 0 (targetLineIndex - contextLines) in
      let endLn := Z.min (Z.of_nat (length (_globalLines t)) - 1)
                         (targetLineIndex + contextLines) in
      let involved :=
        involvedSpans 0 (_spanToGlobalLineMap t) startLn endLn in
      ({| l_success := true;
          content := join [LF]
            (contextContent (_globalLines t) startLn endLn targetLineIndex);
          lineInfo :=
            js "Showing lines " ++ string_of_Z (startLn + 1) ++ js "-"
              ++ string_of_Z (endLn + 1) ++ js " (" ++ plus_minus
              ++ string_of_Z contextLines ++ js " context around line "
              ++ string_of_Z globalLineNumber ++ js ")" ++ [LF]
              ++ spanInfo involved |}, t).

(* ================================================================== *)
(** ** Cursor reconciliation: the snapshot update of [captureSnapshot] *)
(* ================================================================== *)

(** The loop that computes [onlyCurrentSpanChanged]: no index other than
    [previousCurrentSpanIndex] has different spans. *)
Definition onlyCurrentSpanChanged (newSpans previousSpans : list jsstring)
  (previousCurrentSpanIndex : Z) : bool :=
  forallb
    (fun i =>
       negb (negb (Z.of_nat i =? previousCurrentSpanIndex)
             && negb (jsstring_eqb (nth i newSpans []) (nth i previousSpans []))))
    (seq 0 (length newSpans)).

(** The cursor chosen by the [if] cascade, before the final [Math.min]. *)
Definition reconciled_cursor (newSpans previousSpans : list jsstring)
  (previousCurrentSpanIndex : Z) : Z :=
  if Z.of_nat (length previousSpans) =? 0 then 0
  else if (Z.of_nat (length newSpans) =? Z.of_nat (length previousSpans))
          && (previousCurrentSpanIndex <? Z.of_nat (length newSpans))
  then
    if onlyCurrentSpanChanged newSpans previousSpans previousCurrentSpanIndex
    then previousCurrentSpanIndex
    else 0
  else 0.

(** The state update made by the action of [captureSnapshot] when the
    snapshot producer returns [fullSnapshot]. *)
Definition update_snapshot (fullSnapshot : jsstring) (t : Tab) : Tab :=
  if jsstring_eqb (_fullSnapshot t) fullSnapshot then t
  else
    let previousSpans := _snapshotSpans t in
    let previousCurrentSpanIndex := _currentSpanIndex t in
    let t1 := {| _modalStates := _modalStates t;
                 _fullSnapshot := fullSnapshot;
                 _snapshotSpans := _snapshotSpans t;
                 _currentSpanIndex := _currentSpanIndex t;
                 _snapshotSpanSize := _snapshotSpanSize t;
                 _globalLines := _globalLines t;
                 _spanToGlobalLineMap := _spanToGlobalLineMap t |} in
    let (sp, t2) := _splitSnapshotIntoSpans fullSnapshot t1 in
    {| _modalStates := _modalStates t2;
       _fullSnapshot := _fullSnapshot t2;
       _snapshotSpans := sp;
       _currentSpanIndex :=
         Z.min (reconciled_cursor sp previousSpans previousCurrentSpanIndex)
               (Z.of_nat (length sp) - 1);
       _snapshotSpanSize := _snapshotSpanSize t2;
       _globalLines := _globalLines t2;
       _spanToGlobalLineMap := _spanToGlobalLineMap t2 |}.

(** [captureSnapshot], as far as the tab state goes: with a modal state
    present it returns before the snapshot is taken. *)
Definition captureSnapshot (fullSnapshot : jsstring) (t : Tab) : Tab :=
  match _modalStates t with
  | [] => update_snapshot fullSnapshot t
  | _ :: _ => t
  end.

(* ================================================================== *)
(** ** The modal state queue *)
(* ================================================================== *)

Definition set_modalStates (q : list ModalState) (t : Tab) : Tab :=
  {| _modalStates := q;
     _fullSnapshot := _fullSnapshot t;
     _snapshotSpans := _snapshotSpans t;
     _currentSpanIndex := _currentSpanIndex t;
     _snapshotSpanSize := _snapshotSpanSize t;
     _globalLines := _globalLines t;
     _spanToGlobalLineMap := _spanToGlobalLineMap t |}.

Definition modalStates (t : Tab) : list ModalState := _modalStates t.

(** [state !== modalState] on two objects. *)
Definition same_object (a b : ModalState) : bool :=
  (ms_ref a =? ms_ref b)%nat.

(** [setModalState]: the [push]; the event emitted afterwards changes no
    field of the tab. *)
Definition setModalState (modalState : ModalState) (t : Tab) : Tab :=
  set_modalStates (_modalStates t ++ [modalState]) t.

Definition clearModalState (modalState : ModalState) (t : Tab) : Tab :=
  set_modalStates
    (filter (fun state => negb (same_object state modalState))
            (_modalStates t)) t.

(** The first statement of [_raceAgainstModalStates]: the modal state
    returned at once, or [None] when the action is started. *)
Definition _raceAgainstModalStates_early (t : Tab) : option ModalState :=
  match modalStates t with
  | [] => None
  | m :: _ => Some m
  end.

(* ================================================================== *)
(** ** The pattern engine used on concrete inputs *)
(* ================================================================== *)

(** [Canonicalize] for the letters a to z: with [ignoreCase] they compare
    as their upper case. *)
Definition canonicalize (ic : bool) (c : N) : N :=
  if (ic && (97 <=? c) && (c <=? 122))%N then (c - 32)%N else c.

Fixpoint literal_prefix (ic : bool) (pat str : jsstring) : bool :=
  match pat, str with
  | [], _ => true
  | _ :: _, [] => false
  | p :: pat', c :: str' =>
      (canonicalize ic p =? canonicalize ic c)%N && literal_prefix ic pat' str'
  end.

(** The matcher of a pattern made of literal characters only: it matches
    at [i] when the pattern is read there. *)
Definition literal_matcher (ic : bool) (pat : jsstring) : Matcher :=
  fun str i =>
    if literal_prefix ic pat (skipn i str)
    then Some (i + length pat)%nat
    else None.

(** The pattern compiler restricted to patterns without syntax
    characters. *)
Definition literal_compile (pattern : jsstring) (f : Flags)
  : option Matcher :=
  Some (literal_matcher (ignoreCase f) pattern).

(* ================================================================== *)
(** ** Specification vocabulary *)
(* ================================================================== *)

(** The line ranges [m] follow each other without gap from line [a + 1]
    to line [b], each with at least one line. *)
Fixpoint contiguous (a : Z) (m : list LineRange) (b : Z) : Prop :=
  match m with
  | [] => a = b
  | r :: m' =>
      startLine r = a + 1 /\ startLine r <= endLine r
      /\ contiguous (endLine r) m' b
  end.

(** The elements of [lines] at the indices [a], ..., [b - 1]. *)
Definition lines_between (a b : nat) (lines : list jsstring)
  : list jsstring :=
  firstn (b - a) (skipn a lines).

(** The text of the span that holds the lines of range [r]: what each line
    contributes, put together and trimmed at the end. *)
Definition span_text (size : Z) (lines : list jsstring) (r : LineRange)
  : jsstring :=
  trimEnd (concat (map (lineToAdd size)
    (lines_between (Z.to_nat (startLine r) - 1) (Z.to_nat (endLine r)) lines))).

(** The string has white space only (or is empty): [trim] leaves
    nothing of it. *)
Definition blank (s : jsstring) : bool := forallb isWhiteSpace s.

(** The number of line feeds of a string. *)
Definition count_LF (s : jsstring) : nat :=
  length (filter (fun c => (c =? LF)%N) s).

(** The invariant of the loop before the iteration at index [i]. *)
Definition split_inv (size : Z) (lines : list jsstring) (i : nat)
  (a : SplitAcc) : Prop :=
  contiguous 0 (lineMap a) (Z.of_nat (spanStartLineIndex a))
  /\ (spanStartLineIndex a <= i)%nat
  /\ (i <> 0%nat -> (spanStartLineIndex a < i)%nat)
  /\ currentSpan a = concat (map (lineToAdd size)
                        (lines_between (spanStartLineIndex a) i lines))
  /\ currentLength a = jslength (currentSpan a)
  /\ spans a = map (span_text size lines) (lineMap a).

(** The state of the loop when it ends, for the lines of [text]. *)
Definition loop_end (size : Z) (text : jsstring) : SplitAcc :=
  split_loop size 0 (split_newline text) split_init.


(** The indicator of a truncated line as its span shows it: the text that
    [truncation_marker] puts before its line feed. *)
Definition truncation_indicator (originalLength : nat) : jsstring :=
  js "... [line truncated, originally with " ++ string_of_nat originalLength
     ++ js " chars]".

(** The bound on lengths: the span size, or for a line of the text that is
    truncated the span size less 50 plus the length of its indicator. *)
Definition within (size : Z) (lines : list jsstring) (x : Z) : Prop :=
  x <= size
  \/ exists line, In line lines /\ size <= jslength line
       /\ x <= size - 50 + jslength (truncation_indicator (length line)).

(** The pending span is empty, or it is a text within the bound followed
    by a line feed. *)
Definition pending_within (size : Z) (lines : list jsstring) (s : jsstring)
  : Prop :=
  s = [] \/ exists body, s = body ++ [LF] /\ within size lines (jslength body).

(** The invariant of the loop for the lengths: the recorded spans are
    within the bound, and so is the pending span without its last line
    feed. *)
Definition bound_inv (size : Z) (lines : list jsstring) (a : SplitAcc)
  : Prop :=
  Forall (fun s => within size lines (jslength s)) (spans a)
  /\ pending_within size lines (currentSpan a)
  /\ currentLength a = jslength (currentSpan a).

(** C4 as the specification words it: a line longer than the budget is in
    a span of its own. *)
Definition long_lines_have_own_span (size : Z) (text : jsstring) : Prop :=
  forall (i : nat) (line : jsstring),
    nth_error (split_newline text) i = Some line ->
    size < jslength line ->
    In {| startLine := Z.of_nat i + 1; endLine := Z.of_nat i + 1 |}
       (snd (split_spans size text)).

(** The text [a], line feed, 101 times [x], line feed, [b]. *)
Definition text_with_long_line : jsstring :=
  [97%N; LF] ++ repeat 120%N 101 ++ [LF; 98%N].

(** The result of a navigation that asks for index [i]: a failure when
    there is no span, otherwise the span at [i] clamped into
    [0 .. spanCount - 1], which becomes the current one. *)
Definition lands_on (t : Tab) (i : Z) (rt : SpanResult * Tab) : Prop :=
  let n := Z.of_nat (length (_snapshotSpans t)) in
  let clamped := Z.max 0 (Z.min i (n - 1)) in
  (n = 0 ->
     rt = ({| success := false; span := []; spanIndex := 0;
              totalSpans := 0 |}, t))
  /\ (n <> 0 ->
      0 <= clamped <= n - 1
      /\ success (fst rt) = true
      /\ spanIndex (fst rt) = clamped
      /\ nth_error (_snapshotSpans t) (Z.to_nat clamped) = Some (span (fst rt))
      /\ totalSpans (fst rt) = n
      /\ snd rt = set_currentSpanIndex clamped t).

(** A line of the rendered block, by its 1-based line number [ln]: the
    marker (the target line [g] has its own), the number, the line. *)
Definition rendered_line (lines : list jsstring) (g ln : Z) : jsstring :=
  (if ln =? g then js ">>> " else js "    ")
    ++ string_of_Z ln ++ js ": "
    ++ nth (Z.to_nat (ln - 1)) lines (js "undefined").

(** Three lines of four characters; with span size 6 each line is a span
    of its own. *)
Definition text_abc : jsstring :=
  js "aaaa" ++ [LF] ++ js "bbbb" ++ [LF] ++ js "cccc".

(** The same with another second line. *)
Definition text_adc : jsstring :=
  js "aaaa" ++ [LF] ++ js "dddd" ++ [LF] ++ js "cccc".

(** A tab that shows the second of three spans. *)
Definition three_span_tab : Tab :=
  snd (navigateToSpan 1 (update_snapshot text_abc (new_Tab 6))).

(** The matches the specification asks for, written from its words: one
    for every line of the span that the pattern matches, in line order. *)
Fixpoint matching_lines (m : Matcher) (spanIndex : nat)
  (spanLineRange : option LineRange) (lineIndex : nat)
  (lines : list jsstring) : list SearchMatch :=
  match lines with
  | [] => []
  | line :: rest =>
      (if pattern_matches m line
       then [{| m_spanIndex := Z.of_nat spanIndex;
                m_line := trim line;
                m_inSpanLineNumber := Z.of_nat lineIndex + 1;
                m_globalLineNumber :=
                  match spanLineRange with
                  | Some r => startLine r + Z.of_nat lineIndex
                  | None => Z.of_nat lineIndex + 1
                  end |}]
       else [])
      ++ matching_lines m spanIndex spanLineRange (S lineIndex) rest
  end.

(** The specification's result for the spans from [spanIndex] on: the
    matches of every span in span order, and the indices of the spans that
    have one. *)
Fixpoint search_spec (m : Matcher) (lineMap : list LineRange)
  (spanIndex : nat) (spans : list jsstring) : list Z * list SearchMatch :=
  match spans with
  | [] => ([], [])
  | span :: rest =>
      let here := matching_lines m spanIndex (nth_error lineMap spanIndex) 0
                    (split_newline span) in
      let (idx, ms) := search_spec m lineMap (S spanIndex) rest in
      (match here with [] => idx | _ => Z.of_nat spanIndex :: idx end,
       here ++ ms)
  end.

(** The tab after a first snapshot of two lines [ab]. *)
Definition two_ab_tab : Tab :=
  update_snapshot (js "ab" ++ [LF] ++ js "ab") (new_Tab 2000).

(** The tabs the methods can produce from a new tab. *)
Inductive reachable : Tab -> Prop :=
| reach_new (spanSize : Z) : reachable (new_Tab spanSize)
| reach_reset (t : Tab) : reachable t -> reachable (_resetSnapshot t)
| reach_setSize (size : Z) (t : Tab) :
    reachable t -> reachable (setSnapshotSpanSize size t)
| reach_capture (text : jsstring) (t : Tab) :
    reachable t -> reachable (captureSnapshot text t)
| reach_navigate (i : Z) (t : Tab) :
    reachable t -> reachable (snd (navigateToSpan i t))
| reach_setModal (m : ModalState) (t : Tab) :
    reachable t -> reachable (setModalState m t)
| reach_clearModal (m : ModalState) (t : Tab) :
    reachable t -> reachable (clearModalState m t).

(** The spans, the lines and the line map of the tab belong together:
    there are none, or they come from one split of the stored text. *)
Definition consistent (t : Tab) : Prop :=
  (_snapshotSpans t = [] /\ _globalLines t = []
   /\ _spanToGlobalLineMap t = [])
  \/ exists size,
       _snapshotSpans t = fst (split_spans size (_fullSnapshot t))
       /\ _globalLines t = split_newline (_fullSnapshot t)
       /\ _spanToGlobalLineMap t = snd (split_spans size (_fullSnapshot t)).

(** The global line number [searchInSnapshot] gives to line [lineIndex]
    of span [spanIndex]. *)
Definition global_line_of (lineMap : list LineRange)
  (spanIndex lineIndex : nat) : Z :=
  match nth_error lineMap spanIndex with
  | Some r => startLine r + Z.of_nat lineIndex
  | None => Z.of_nat lineIndex + 1
  end.

(** The line as its span shows it: what the line contributes, without the
    line feed; in whole-text mode the line itself. *)
Definition shown_line (size : Z) (line : jsstring) : jsstring :=
  if size =? -1 then line else removelast (lineToAdd size line).

(** The first line of [lineInfo] on success. *)
Definition lineInfo_header (lo hi c g : Z) : jsstring :=
  js "Showing lines " ++ string_of_Z lo ++ js "-" ++ string_of_Z hi
    ++ js " (" ++ plus_minus ++ string_of_Z c
    ++ js " context around line " ++ string_of_Z g ++ js ")" ++ [LF].

(** C10 as it is stated: [navigateToLine] on a line of a pending
    span that was dropped reports that span information is unavailable. *)
Definition dropped_line_reports_unavailable (size : Z) (text : jsstring)
  (t : Tab) (g c : Z) : Prop :=
  let n := Z.of_nat (length (split_newline text)) in
  let e := Z.of_nat (spanStartLineIndex (loop_end size text)) in
  size <> -1 ->
  blank (currentSpan (loop_end size text)) = true ->
  _globalLines t = split_newline text ->
  _spanToGlobalLineMap t = snd (split_spans size text) ->
  e < g <= n ->
  l_success (fst (navigateToLine g c t)) = true
  /\ lineInfo (fst (navigateToLine g c t))
     = lineInfo_header (Z.max 1 (g - c)) (Z.min n (g + c)) c g
         ++ js "Span information unavailable".

(** The cursor is never negative, and it is below the span count once
    there are spans. *)
Definition cursor_in_bounds (t : Tab) : Prop :=
  0 <= _currentSpanIndex t
  /\ (_snapshotSpans t <> [] ->
      _currentSpanIndex t < Z.of_nat (length (_snapshotSpans t))).

(* ================================================================== *)
(** ** Further vocabulary for the Spanner *)
(* ================================================================== *)

(** The text accumulated for the lines of range [r], before it is trimmed:
    [span_text] is [trimEnd] of it. *)
Definition span_raw (size : Z) (lines : list jsstring) (r : LineRange)
  : jsstring :=
  concat (map (lineToAdd size)
    (lines_between (Z.to_nat (startLine r) - 1) (Z.to_nat (endLine r)) lines)).

(** The line after range [r] did not fit: with what it contributes the
    accumulated text would be longer than the span size. *)
Definition next_line_overflows (size : Z) (lines : list jsstring)
  (r : LineRange) : Prop :=
  size < jslength (span_raw size lines r)
         + jslength (lineToAdd size (nth (Z.to_nat (endLine r)) lines [])).

(* ================================================================== *)
(** ** Further vocabulary for the search *)
(* ================================================================== *)

(** The order of the matches: by span index, then by line within the
    span. *)
Definition match_before (x y : SearchMatch) : Prop :=
  m_spanIndex x < m_spanIndex y
  \/ (m_spanIndex x = m_spanIndex y
      /\ m_inSpanLineNumber x < m_inSpanLineNumber y).

(** A tab with the lines [AB], [ab], [Ab], [ab]; with span size 6 the
    first two lines are span 0 and the last two are span 1. *)
Definition mixed_case_tab : Tab :=
  update_snapshot
    (js "AB" ++ [LF] ++ js "ab" ++ [LF] ++ js "Ab" ++ [LF] ++ js "ab")
    (new_Tab 6).

(* ================================================================== *)
(** ** More of [tab.ts]: dialogs, console messages, requests, locators *)
(* ================================================================== *)

(** The double quote character. *)
Definition dquote : jsstring := [34%N].

(** [_dialogShown]: a new modal state object, whose identity is [ref], for
    a dialog of type [dialogType] with the message [message]. *)
Definition _dialogShown (ref : nat) (dialogType message : jsstring)
  (t : Tab) : Tab :=
  setModalState
    {| ms_ref := ref; ms_type := dialog;
       ms_description :=
         dquote ++ dialogType ++ dquote ++ js " dialog with message "
           ++ dquote ++ message ++ dquote |} t.

(** The [filechooser] listener of the constructor. *)
Definition on_filechooser (ref : nat) (t : Tab) : Tab :=
  setModalState
    {| ms_ref := ref; ms_type := fileChooser;
       ms_description := js "File chooser" |} t.

(** [state.type === 'dialog'] *)
Definition is_dialog (s : ModalState) : bool :=
  match ms_type s with dialog => true | fileChooser => false end.

Definition _javaScriptBlocked (t : Tab) : bool :=
  existsb is_dialog (_modalStates t).

(** [text.slice(0, end)]: a negative end counts from the end of the
    string. *)
Definition slice0 (e : Z) (s : jsstring) : jsstring :=
  firstn (Z.to_nat (if e <? 0 then Z.max 0 (jslength s + e)
                    else Z.min e (jslength s))) s.

(** The function [trim(text, maxLength)] at the end of the file (the name
    [trim] is the one of the string method here). *)
Definition trim_text (text : jsstring) (maxLength : Z) : jsstring :=
  if jslength text <=? maxLength then text
  else slice0 maxLength text ++ js "...".

(** A console message; [cm_toString] is what its [toString] returns. *)
Record ConsoleMessage := mkConsoleMessage {
  cm_type : option jsstring;
  cm_text : jsstring;
  cm_toString : jsstring
}.

(** The fields of the tab that hold what was collected from the page:
    the console messages and the requests, a map from a request to its
    response, or to [null] ([None]) while there is none.  Requests and
    responses are objects, given by their identity.  The map keeps the
    order of first insertion. *)
Record Artifacts := mkArtifacts {
  _consoleMessages : list ConsoleMessage;
  _recentConsoleMessages : list ConsoleMessage;
  _requests : list (nat * option nat)
}.

Definition new_Artifacts : Artifacts :=
  {| _consoleMessages := []; _recentConsoleMessages := [];
     _requests := [] |}.

(** [map.set(key, value)] *)
Fixpoint Map_set (key : nat) (value : option nat)
  (m : list (nat * option nat)) : list (nat * option nat) :=
  match m with
  | [] => [(key, value)]
  | (k, v) :: rest =>
      if (k =? key)%nat then (k, value) :: rest
      else (k, v) :: Map_set key value rest
  end.

(** [map.get(key)]; the outer [None] is [undefined]. *)
Fixpoint Map_get (key : nat) (m : list (nat * option nat))
  : option (option nat) :=
  match m with
  | [] => None
  | (k, v) :: rest => if (k =? key)%nat then Some v else Map_get key rest
  end.

Definition _handleConsoleMessage (message : ConsoleMessage) (a : Artifacts)
  : Artifacts :=
  {| _consoleMessages := _consoleMessages a ++ [message];
     _recentConsoleMessages := _recentConsoleMessages a ++ [message];
     _requests := _requests a |}.

(** The [request] listener of the constructor. *)
Definition on_request (request : nat) (a : Artifacts) : Artifacts :=
  {| _consoleMessages := _consoleMessages a;
     _recentConsoleMessages := _recentConsoleMessages a;
     _requests := Map_set request None (_requests a) |}.

(** The [response] listener; [request] is [response.request()]. *)
Definition on_response (request response : nat) (a : Artifacts)
  : Artifacts :=
  {| _consoleMessages := _consoleMessages a;
     _recentConsoleMessages := _recentConsoleMessages a;
     _requests := Map_set request (Some response) (_requests a) |}.

Definition consoleMessages (a : Artifacts) : list ConsoleMessage :=
  _consoleMessages a.

Definition requests (a : Artifacts) : list (nat * option nat) := _requests a.

(** [_clearCollectedArtifacts], on the two parts of the tab object. *)
Definition _clearCollectedArtifacts (s : Artifacts * Tab) : Artifacts * Tab :=
  ({| _consoleMessages := []; _recentConsoleMessages := [];
      _requests := [] |},
   _resetSnapshot (snd s)).

(** [_takeRecentConsoleMarkdown]; it assigns no field. *)
Definition _takeRecentConsoleMarkdown (a : Artifacts) : list jsstring :=
  match _recentConsoleMessages a with
  | [] => []
  | _ =>
      [js "### New console messages"]
        ++ map (fun message => js "- " ++ trim_text (cm_toString message) 100)
               (_recentConsoleMessages a)
        ++ [[]]
  end.

(** [s.startsWith(p)] *)
Fixpoint startsWith (p s : jsstring) : bool :=
  match p, s with
  | [], _ => true
  | _ :: _, [] => false
  | a :: p', b :: s' => (a =? b)%N && startsWith p' s'
  end.

(** [s.includes(needle)] *)
Fixpoint includes (s needle : jsstring) : bool :=
  startsWith needle s
  || match s with
     | [] => false
     | _ :: s' => includes s' needle
     end.

(** What [page.locator(selector).describe(description)] is built from. *)
Record Locator := mkLocator {
  selector : jsstring;
  description : jsstring
}.

(** A parameter of [refLocators]. *)
Record RefParam := mkRefParam {
  element : jsstring;
  ref : jsstring
}.

(** The callback of [params.map] in [refLocators]: the locator, or the
    message of the error thrown. *)
Definition refLocator_of (snapshot : jsstring) (param : RefParam)
  : jsstring + Locator :=
  if negb (includes snapshot (js "[ref=" ++ ref param ++ js "]"))
  then inl (js "Ref " ++ ref param
              ++ js " not found in the current page snapshot. Try capturing new snapshot.")
  else inr {| selector := js "aria-ref=" ++ ref param;
              description := element param |}.

(** [refLocators] for the snapshot text the page returns: [params.map]
    calls the callback in order and the first error thrown ends it. *)
Fixpoint refLocators (snapshot : jsstring) (params : list RefParam)
  : jsstring + list Locator :=
  match params with
  | [] => inr []
  | param :: rest =>
      match refLocator_of snapshot param with
      | inl e => inl e
      | inr l =>
          match refLocators snapshot rest with
          | inl e => inl e
          | inr ls => inr (l :: ls)
          end
      end
  end.

(** [refLocator]: element 0 of [refLocators([params])]; the array has one
    element, the last case is never taken. *)
Definition refLocator (snapshot : jsstring) (param : RefParam)
  : jsstring + Locator :=
  match refLocators snapshot [param] with
  | inl e => inl e
  | inr ls => match ls with l :: _ => inr l | [] => inl (js "undefined") end
  end.

(* ================================================================== *)
(** ** The tools of [tools/snapshotNavigation.ts] *)
(* ================================================================== *)

(** A handler is given by the strings it passes to [response.addResult],
    in call order, and the tab it leaves. *)

Definition fenced (s : jsstring) : jsstring :=
  js "```yaml" ++ [LF] ++ s ++ [LF] ++ js "```".

Definition no_snapshot_result : list jsstring :=
  [js "No snapshot available. Take a snapshot first."].

(** [snapshotNavigateToSpan], [snapshotNavigateToNextSpan] and
    [snapshotNavigateToPrevSpan] report a result in the same way. *)
Definition report_span (result : SpanResult) : list jsstring :=
  if success result
  then [js "Navigated to span " ++ string_of_Z (spanIndex result + 1)
          ++ js " of " ++ string_of_Z (totalSpans result);
        fenced (span result)]
  else no_snapshot_result.

Definition snapshotNavigateToSpan_handle (spanIndex : Z) (t : Tab)
  : list jsstring * Tab :=
  let (result, t') := navigateToSpan spanIndex t in
  (report_span result, t').

Definition snapshotNavigateToFirstSpan_handle (t : Tab)
  : list jsstring * Tab :=
  let (result, t') := navigateToFirstSpan t in
  (if success result
   then [js "Navigated to first span (1 of "
           ++ string_of_Z (totalSpans result) ++ js ")";
         fenced (span result)]
   else no_snapshot_result, t').

Definition snapshotNavigateToLastSpan_handle (t : Tab)
  : list jsstring * Tab :=
  let (result, t') := navigateToLastSpan t in
  (if success result
   then [js "Navigated to last span ("
           ++ string_of_Z (spanIndex result + 1) ++ js " of "
           ++ string_of_Z (totalSpans result) ++ js ")";
         fenced (span result)]
   else no_snapshot_result, t').

Definition snapshotNavigateToNextSpan_handle (t : Tab)
  : list jsstring * Tab :=
  let (result, t') := navigateToNextSpan t in
  (report_span result, t').

Definition snapshotNavigateToPrevSpan_handle (t : Tab)
  : list jsstring * Tab :=
  let (result, t') := navigateToPrevSpan t in
  (report_span result, t').

(** The two results added for a match that is shown. *)
Definition report_match (x : SearchMatch) : list jsstring :=
  [[LF] ++ js "**Span " ++ string_of_Z (m_spanIndex x + 1)
     ++ js ", Global Line " ++ string_of_Z (m_globalLineNumber x)
     ++ js ", In-Span Line " ++ string_of_Z (m_inSpanLineNumber x)
     ++ js ":**";
   m_line x].

Definition maxMatches : nat := 10.

(** The results of [snapshotSearch] for a search that returned. *)
Definition report_search (pattern : jsstring) (searchResult : SearchResult)
  : list jsstring :=
  if (length (spanIndices searchResult) =? 0)%nat
  then [js "No matches found for pattern: " ++ pattern]
  else
    [js "Found " ++ string_of_nat (length (matches searchResult))
       ++ js " matches in "
       ++ string_of_nat (length (spanIndices searchResult)) ++ js " spans:";
     js "Spans with matches: "
       ++ join (js ", ")
            (map (fun i => string_of_Z (i + 1)) (spanIndices searchResult))]
    ++ flat_map report_match (firstn maxMatches (matches searchResult))
    ++ (if (maxMatches <? length (matches searchResult))%nat
        then [[LF] ++ js "... and "
                ++ string_of_nat (length (matches searchResult) - maxMatches)
                ++ js " more matches"]
        else [])
    ++ [[LF] ++ js "Use navigation tools to view specific spans with matches."].

(** [snapshotSearch]; [errorMessage] is the message of the error that the
    regular expression constructor throws for this pattern and these
    flags. *)
Definition snapshotSearch_handle
  (compilePattern : jsstring -> Flags -> option Matcher)
  (errorMessage : jsstring) (pattern : jsstring) (flags : option jsstring)
  (t : Tab) : list jsstring :=
  match searchInSnapshot compilePattern pattern flags t with
  | Some searchResult => report_search pattern searchResult
  | None => [js "Error searching: " ++ errorMessage]
  end.

(* ================================================================== *)
(** ** What [captureSnapshot] renders *)
(* ================================================================== *)

(** A tool of [context.tools], as [modalStatesMarkdown] reads it:
    [clearsModalState] is [None] when the tool has no such property. *)
Record Tool := mkTool {
  clearsModalState : option ModalType;
  schema_name : jsstring
}.

Definition ModalType_eqb (a b : ModalType) : bool :=
  match a, b with
  | dialog, dialog => true
  | fileChooser, fileChooser => true
  | _, _ => false
  end.

(** ['clearsModalState' in tool] *)
Definition has_clearsModalState (tool : Tool) : bool :=
  match clearsModalState tool with Some _ => true | None => false end.

(** [tool?.schema.name] for the first tool that clears the type, in a
    template: the string [undefined] when there is none. *)
Definition clearing_tool_name (tools : list Tool) (ty : ModalType)
  : jsstring :=
  match find (fun tool =>
                match clearsModalState tool with
                | Some c => ModalType_eqb c ty
                | None => false
                end)
             (filter has_clearsModalState tools) with
  | Some tool => schema_name tool
  | None => js "undefined"
  end.

Definition modal_state_line (tools : list Tool) (state : ModalState)
  : jsstring :=
  js "- [" ++ ms_description state ++ js "]: can be handled by the "
    ++ dquote ++ clearing_tool_name tools (ms_type state) ++ dquote
    ++ js " tool".

(** [modalStatesMarkdown]; the [for] loop pushes one line per state. *)
Definition modalStatesMarkdown (tools : list Tool) (t : Tab)
  : list jsstring :=
  let result := [js "### Modal state"] in
  let result :=
    if (length (_modalStates t) =? 0)%nat
    then result ++ [js "- There is no modal state present"]
    else result in
  fold_left (fun result state => result ++ [modal_state_line tools state])
            (_modalStates t) result.

(** An entry of [_downloads], with the file name its download suggests. *)
Record DownloadEntry := mkDownloadEntry {
  suggestedFilename : jsstring;
  finished : bool;
  outputFile : jsstring
}.

Definition download_line (entry : DownloadEntry) : jsstring :=
  if finished entry
  then js "- Downloaded file " ++ suggestedFilename entry ++ js " to "
         ++ outputFile entry
  else js "- Downloading file " ++ suggestedFilename entry ++ js " ...".

Definition _listDownloadsMarkdown (downloads : list DownloadEntry)
  : list jsstring :=
  match downloads with
  | [] => []
  | _ =>
      fold_left (fun result entry => result ++ [download_line entry])
                downloads [js "### Downloads"]
        ++ [[]]
  end.

(** [this._snapshotSpans[this._currentSpanIndex] || '']: an index outside
    the array gives [undefined], which [||] replaces by the empty
    string. *)
Definition current_span (t : Tab) : jsstring :=
  if _currentSpanIndex t <? 0 then []
  else nth (Z.to_nat (_currentSpanIndex t)) (_snapshotSpans t) [].

(** The lines pushed for the page state, for the tab after the update. *)
Definition page_state_lines (url title : jsstring) (t : Tab)
  : list jsstring :=
  if _snapshotSpanSize t =? -1
  then [js "### Page state";
        js "- Page URL: " ++ url;
        js "- Page Title: " ++ title;
        js "- Page Snapshot:";
        js "```yaml";
        current_span t;
        js "```"]
  else [js "### Page state";
        js "- Page URL: " ++ url;
        js "- Page Title: " ++ title;
        js "- Page Snapshot (Span " ++ string_of_Z (_currentSpanIndex t + 1)
          ++ js " of " ++ string_of_nat (length (_snapshotSpans t)) ++ js "):";
        js "```yaml";
        current_span t;
        js "```";
        [];
        js "*Use snapshot navigation tools to view other spans. Current span size: "
          ++ string_of_Z (_snapshotSpanSize t) ++ js " characters*"].

(** [captureSnapshot] with what it returns, when the action runs to its
    end: [url] and [title] are what the page answers, [fullSnapshot] the
    snapshot it produces; [a] and [downloads] are the collected
    artifacts. *)
Definition captureSnapshot_rendered (tools : list Tool)
  (url title : jsstring) (a : Artifacts) (downloads : list DownloadEntry)
  (fullSnapshot : jsstring) (t : Tab) : jsstring * Tab :=
  match _modalStates t with
  | _ :: _ => (join [LF] (modalStatesMarkdown tools t), t)
  | [] =>
      let t' := update_snapshot fullSnapshot t in
      (join [LF] (_takeRecentConsoleMarkdown a
                    ++ _listDownloadsMarkdown downloads
                    ++ page_state_lines url title t'),
       t')
  end.

(* ================================================================== *)
(** ** Strings: lemmas *)
(* ================================================================== *)

Lemma split_newline_length (s : jsstring) :
  length (split_newline s) = S (count_LF s).
Proof.
  unfold count_LF. induction s as [|c s IH]; simpl; [reflexivity|].
  destruct (c =? LF)%N; simpl.
  - now rewrite IH.
  - destruct (split_newline s); simpl in *; [discriminate|exact IH].
Qed.

Lemma split_newline_nonempty (s : jsstring) : split_newline s <> [].
Proof.
  intro H. pose proof (split_newline_length s) as L. rewrite H in L.
  discriminate.
Qed.

Lemma split_newline_no_LF (s : jsstring) :
  Forall (fun l => count_LF l = 0%nat) (split_newline s).
Proof.
  unfold count_LF. induction s as [|c s IH]; simpl.
  - constructor; [reflexivity|constructor].
  - destruct (c =? LF)%N eqn:E.
    + constructor; [reflexivity|exact IH].
    + destruct (split_newline s) as [|l ls]; simpl.
      * constructor; [simpl; now rewrite E|constructor].
      * inversion IH; subst. constructor; [simpl; now rewrite E|assumption].
Qed.

Lemma count_LF_app (a b : jsstring) :
  count_LF (a ++ b) = (count_LF a + count_LF b)%nat.
Proof. unfold count_LF. now rewrite filter_app, length_app. Qed.

Lemma count_LF_firstn (k : nat) (s : jsstring) :
  count_LF s = 0%nat -> count_LF (firstn k s) = 0%nat.
Proof.
  intro H. rewrite <- (firstn_skipn k s) in H. rewrite count_LF_app in H. lia.
Qed.

Lemma trimEnd_blank (s : jsstring) : blank s = true -> trimEnd s = [].
Proof.
  induction s as [|c s IH]; simpl; [reflexivity|].
  intro H. apply andb_true_iff in H as [Hc Hs]. now rewrite (IH Hs), Hc.
Qed.

Lemma trimEnd_nil_blank (s : jsstring) : trimEnd s = [] -> blank s = true.
Proof.
  induction s as [|c s IH]; simpl; [reflexivity|].
  destruct (trimEnd s); [|discriminate].
  destruct (isWhiteSpace c); [|discriminate]. intros _. now rewrite IH.
Qed.

(** [trimEnd] removes a blank suffix and nothing else. *)
Lemma trimEnd_decompose (s : jsstring) :
  exists w, s = trimEnd s ++ w /\ blank w = true.
Proof.
  induction s as [|c s IH]; simpl.
  - exists []. split; reflexivity.
  - destruct IH as (w & E & B).
    destruct (trimEnd s) as [|d r] eqn:T.
    + destruct (isWhiteSpace c) eqn:W.
      * exists (c :: s). split; [reflexivity|].
        simpl. rewrite W. simpl in E. subst w. exact B.
      * exists s. split; [reflexivity|]. simpl in E. now subst w.
    + exists w. split; [|exact B]. simpl. f_equal. exact E.
Qed.

Lemma trimEnd_app_blank (s w : jsstring) :
  blank w = true -> trimEnd (s ++ w) = trimEnd s.
Proof.
  intro B. induction s as [|c s IH]; simpl.
  - now apply trimEnd_blank.
  - now rewrite IH.
Qed.

Lemma trimEnd_length (s : jsstring) : (length (trimEnd s) <= length s)%nat.
Proof.
  destruct (trimEnd_decompose s) as (w & E & _).
  rewrite E at 2. rewrite length_app. lia.
Qed.

Lemma count_LF_trimEnd (s : jsstring) :
  (count_LF (trimEnd s) <= count_LF s)%nat.
Proof.
  destruct (trimEnd_decompose s) as (w & E & _).
  rewrite E at 2. rewrite count_LF_app. lia.
Qed.

Lemma trimStart_blank (s : jsstring) : blank s = true -> trimStart s = [].
Proof.
  induction s as [|c s IH]; simpl; [reflexivity|].
  intro H. apply andb_true_iff in H as [Hc Hs]. rewrite Hc. auto.
Qed.

Lemma trimStart_nil_blank (s : jsstring) : trimStart s = [] -> blank s = true.
Proof.
  induction s as [|c s IH]; simpl; [reflexivity|].
  destruct (isWhiteSpace c); [simpl; auto|discriminate].
Qed.

Lemma trimStart_suffix_blank (s : jsstring) :
  blank (trimStart s) = true -> blank s = true.
Proof.
  induction s as [|c s IH]; simpl; [reflexivity|].
  destruct (isWhiteSpace c) eqn:W; simpl; [auto|].
  now rewrite W.
Qed.

(** [s.trim().length > 0] fails exactly for the blank strings. *)
Lemma trim_nil_iff_blank (s : jsstring) : trim s = [] <-> blank s = true.
Proof.
  unfold trim. split.
  - intro H. apply trimStart_suffix_blank. now apply trimEnd_nil_blank.
  - intro H. now rewrite (trimStart_blank s H).
Qed.

Lemma blank_app (a b : jsstring) :
  blank (a ++ b) = blank a && blank b.
Proof. unfold blank. apply forallb_app. Qed.

(* ================================================================== *)
(** ** The Spanner: lemmas *)
(* ================================================================== *)

Lemma js_cons (a : ascii) (s : string) :
  js (String a s) = N_of_ascii a :: js s.
Proof. reflexivity. Qed.

Lemma count_LF_digits (d : Decimal.uint) :
  count_LF (js (NilEmpty.string_of_uint d)) = 0%nat.
Proof.
  induction d; simpl NilEmpty.string_of_uint;
    [reflexivity | rewrite js_cons; unfold count_LF in *; simpl; exact IHd ..].
Qed.

Lemma count_LF_string_of_nat (n : nat) : count_LF (string_of_nat n) = 0%nat.
Proof.
  unfold string_of_nat, NilZero.string_of_uint.
  destruct (Nat.to_uint n) eqn:E; try reflexivity;
    rewrite <- E; apply count_LF_digits.
Qed.

Lemma count_LF_truncation_marker (n : nat) :
  count_LF (truncation_marker n) = 1%nat.
Proof.
  unfold truncation_marker. rewrite !count_LF_app, count_LF_string_of_nat.
  reflexivity.
Qed.

Lemma truncation_marker_not_blank (n : nat) :
  blank (truncation_marker n) = false.
Proof. reflexivity. Qed.

Lemma lineToAdd_count_LF (size : Z) (line : jsstring) :
  count_LF line = 0%nat -> count_LF (lineToAdd size line) = 1%nat.
Proof.
  intro H. unfold lineToAdd.
  destruct (jslength (line ++ [LF]) >? size).
  - unfold substring0.
    rewrite count_LF_app, count_LF_truncation_marker, count_LF_firstn; auto.
  - rewrite count_LF_app, H. reflexivity.
Qed.

Lemma lineToAdd_nonempty (size : Z) (line : jsstring) :
  0 < jslength (lineToAdd size line).
Proof.
  unfold lineToAdd, jslength, truncation_marker.
  destruct (_ >? size); rewrite !length_app; simpl; lia.
Qed.

(** A blank contribution comes from a blank line that was not
    truncated. *)
Lemma lineToAdd_blank (size : Z) (line : jsstring) :
  blank (lineToAdd size line) = true -> blank line = true.
Proof.
  unfold lineToAdd. destruct (_ >? size); rewrite blank_app.
  - rewrite truncation_marker_not_blank, andb_false_r. discriminate.
  - intro H. now apply andb_true_iff in H as [H _].
Qed.

Lemma blank_concat_lineToAdd (size : Z) (ls : list jsstring) :
  blank (concat (map (lineToAdd size) ls)) = true ->
  Forall (fun l => blank l = true) ls.
Proof.
  induction ls as [|l ls IH]; simpl; [constructor|].
  rewrite blank_app. intro H. apply andb_true_iff in H as [H1 H2].
  constructor; [now apply lineToAdd_blank with size|auto].
Qed.

Lemma count_LF_concat_lineToAdd (size : Z) (ls : list jsstring) :
  Forall (fun l => count_LF l = 0%nat) ls ->
  count_LF (concat (map (lineToAdd size) ls)) = length ls.
Proof.
  induction 1 as [|l ls H _ IH]; simpl; [reflexivity|].
  now rewrite count_LF_app, lineToAdd_count_LF, IH.
Qed.

Lemma firstn_S_nth_error {A} (l : list A) (k : nat) (x : A) :
  nth_error l k = Some x -> firstn (S k) l = firstn k l ++ [x].
Proof.
  revert k. induction l as [|y l IH]; intros [|k] H; simpl in *;
    try discriminate.
  - now inversion H.
  - now rewrite (IH k H).
Qed.

Lemma nth_error_skipn {A} (l : list A) (a k : nat) :
  nth_error (skipn a l) k = nth_error l (a + k).
Proof.
  revert l. induction a as [|a IH]; intros [|y l]; simpl; auto.
  now destruct k.
Qed.

Lemma lines_between_same (a : nat) (lines : list jsstring) :
  lines_between a a lines = [].
Proof. unfold lines_between. now rewrite Nat.sub_diag. Qed.

Lemma lines_between_snoc (a i : nat) (lines : list jsstring) (line : jsstring) :
  (a <= i)%nat -> nth_error lines i = Some line ->
  lines_between a (S i) lines = lines_between a i lines ++ [line].
Proof.
  intros Le H. unfold lines_between.
  replace (S i - a)%nat with (S (i - a)) by lia.
  apply firstn_S_nth_error. rewrite nth_error_skipn.
  now replace (a + (i - a))%nat with i by lia.
Qed.

Lemma lines_between_length (a b : nat) (lines : list jsstring) :
  (b <= length lines)%nat -> length (lines_between a b lines) = (b - a)%nat.
Proof.
  intro H. unfold lines_between. rewrite length_firstn, length_skipn. lia.
Qed.

Lemma lines_between_all (a : nat) (lines : list jsstring) :
  lines_between a (length lines) lines = skipn a lines.
Proof.
  unfold lines_between. apply firstn_all2. rewrite length_skipn. lia.
Qed.

Lemma lines_between_Forall (P : jsstring -> Prop) (a b : nat)
  (lines : list jsstring) :
  Forall P lines -> Forall P (lines_between a b lines).
Proof.
  intro H. unfold lines_between.
  rewrite <- (firstn_skipn a lines) in H. apply Forall_app in H as [_ H].
  rewrite <- (firstn_skipn (b - a) (skipn a lines)) in H.
  now apply Forall_app in H as [H _].
Qed.

Lemma contiguous_le (m : list LineRange) (a b : Z) :
  contiguous a m b -> a <= b.
Proof.
  revert a. induction m as [|r m IH]; simpl; intros a H; [lia|].
  destruct H as (H1 & H2 & H3). specialize (IH _ H3). lia.
Qed.

Lemma contiguous_snoc (m : list LineRange) (a b e : Z) :
  contiguous a m b -> b + 1 <= e ->
  contiguous a (m ++ [{| startLine := b + 1; endLine := e |}]) e.
Proof.
  revert a. induction m as [|r m IH]; simpl; intros a H Le.
  - subst. auto.
  - destruct H as (H1 & H2 & H3). auto.
Qed.

Lemma contiguous_nth_error (m : list LineRange) (a b : Z) (k : nat)
  (r : LineRange) :
  contiguous a m b -> nth_error m k = Some r ->
  a < startLine r /\ startLine r <= endLine r /\ endLine r <= b.
Proof.
  revert a k. induction m as [|r0 m IH]; intros a [|k] H N; simpl in *;
    try discriminate; destruct H as (H1 & H2 & H3).
  - inversion N; subst. apply contiguous_le in H3. lia.
  - specialize (IH _ _ H3 N). lia.
Qed.

Lemma split_inv_init (size : Z) (lines : list jsstring) :
  split_inv size lines 0 split_init.
Proof. repeat split; simpl; auto. contradiction. Qed.

Lemma nonempty_pending (size : Z) (lines : list jsstring) (i : nat)
  (a : SplitAcc) :
  split_inv size lines i a -> currentSpan a <> [] ->
  (spanStartLineIndex a < i)%nat.
Proof.
  intros (_ & Le & _ & Cur & _) NE.
  destruct (Nat.eq_dec (spanStartLineIndex a) i) as [E|]; [|lia].
  rewrite E, lines_between_same in Cur. contradiction.
Qed.

Lemma span_text_range (size : Z) (lines : list jsstring) (s e : nat) :
  span_text size lines
    {| startLine := Z.of_nat s + 1; endLine := Z.of_nat e |}
  = trimEnd (concat (map (lineToAdd size) (lines_between s e lines))).
Proof.
  unfold span_text. simpl.
  replace (Z.to_nat (Z.of_nat s + 1) - 1)%nat with s by lia.
  now rewrite Nat2Z.id.
Qed.

Lemma split_step_inv (size : Z) (lines : list jsstring) (i : nat)
  (line : jsstring) (a : SplitAcc) :
  nth_error lines i = Some line ->
  split_inv size lines i a ->
  split_inv size lines (S i) (split_step size i line a).
Proof.
  intros N Inv. pose proof Inv as (C & Le & _ & Cur & Len & Sp).
  unfold split_step.
  destruct (_ && _) eqn:Cond.
  - apply andb_true_iff in Cond as [_ NE]. apply Z.ltb_lt in NE.
    assert (spanStartLineIndex a < i)%nat as Lt.
    { apply (nonempty_pending size lines i a Inv).
      intro E. rewrite E in NE. unfold jslength in NE. simpl in NE. lia. }
    repeat split; simpl.
    + apply contiguous_snoc; [assumption|lia].
    + lia.
    + lia.
    + rewrite (lines_between_snoc i i lines line), lines_between_same;
        auto. simpl. now rewrite app_nil_r.
    + rewrite map_app, Sp. simpl. now rewrite span_text_range, Cur.
  - repeat split; simpl; auto; try lia.
    + rewrite (lines_between_snoc _ i lines line); auto.
      rewrite map_app, concat_app, Cur. simpl. now rewrite app_nil_r.
    + rewrite Len. unfold jslength. rewrite length_app. lia.
Qed.

Lemma split_loop_inv (size : Z) (lines : list jsstring) :
  forall (rest done : list jsstring) (a : SplitAcc),
  lines = done ++ rest ->
  split_inv size lines (length done) a ->
  split_inv size lines (length lines) (split_loop size (length done) rest a).
Proof.
  induction rest as [|line rest IH]; intros done a E Inv; simpl.
  - rewrite app_nil_r in E. now subst done.
  - replace (S (length done)) with (length (done ++ [line]))
      by (rewrite length_app; simpl; lia).
    apply IH.
    + now rewrite <- app_assoc.
    + rewrite length_app. simpl. rewrite Nat.add_1_r.
      apply split_step_inv; [|assumption].
      subst lines. rewrite nth_error_app2, Nat.sub_diag; auto.
Qed.

Lemma split_loop_inv_all (size : Z) (lines : list jsstring) :
  split_inv size lines (length lines) (split_loop size 0 lines split_init).
Proof.
  apply (split_loop_inv size lines lines []); [reflexivity|].
  apply split_inv_init.
Qed.


Lemma split_spans_unfold (size : Z) (text : jsstring) :
  size <> -1 ->
  split_spans size text =
  (let a := split_finish (length (split_newline text)) (loop_end size text) in
   (match spans a with [] => [[]] | _ => spans a end, lineMap a)).
Proof.
  intro H. unfold split_spans. apply Z.eqb_neq in H. now rewrite H.
Qed.

(** The pending span is blank: nothing is recorded for it, and its lines,
    the last ones of the text, are blank lines. *)
Lemma split_finish_dropped (size : Z) (text : jsstring) :
  blank (currentSpan (loop_end size text)) = true ->
  split_finish (length (split_newline text)) (loop_end size text)
    = loop_end size text
  /\ (spanStartLineIndex (loop_end size text)
      < length (split_newline text))%nat
  /\ Forall (fun l => blank l = true)
       (skipn (spanStartLineIndex (loop_end size text)) (split_newline text)).
Proof.
  intro B. pose proof (split_loop_inv_all size (split_newline text)) as Inv.
  fold (loop_end size text) in Inv.
  destruct Inv as (_ & _ & Lt & Cur & _).
  split; [|split].
  - unfold split_finish. apply trim_nil_iff_blank in B. now rewrite B.
  - apply Lt. pose proof (split_newline_length text). lia.
  - rewrite lines_between_all in Cur. rewrite Cur in B.
    now apply blank_concat_lineToAdd in B.
Qed.

(** The pending span has content: it is recorded, up to the last line. *)
Lemma split_finish_recorded (size : Z) (text : jsstring) :
  blank (currentSpan (loop_end size text)) = false ->
  let a := loop_end size text in
  let n := length (split_newline text) in
  spans (split_finish n a) = spans a ++ [trimEnd (currentSpan a)]
  /\ lineMap (split_finish n a) = lineMap a ++
       [{| startLine := Z.of_nat (spanStartLineIndex a) + 1;
           endLine := Z.of_nat n |}]
  /\ (spanStartLineIndex a < n)%nat.
Proof.
  intros B a n.
  assert ((0 <? jslength (trim (currentSpan a))) = true) as T.
  { apply Z.ltb_lt. unfold jslength.
    destruct (trim (currentSpan a)) eqn:E; [|simpl; lia].
    apply trim_nil_iff_blank in E. fold a in B. congruence. }
  unfold split_finish. rewrite T. simpl. repeat split.
  pose proof (split_loop_inv_all size (split_newline text)) as Inv.
  destruct Inv as (_ & _ & Lt & _). apply Lt.
  pose proof (split_newline_length text). lia.
Qed.

(** What [split_spans] returns for a span size other than -1: ranges that
    follow each other from line 1 to some line [e], the lines after [e]
    being blank, and for each range the text of its lines. *)
Lemma split_spans_spec (size : Z) (text : jsstring) :
  size <> -1 ->
  let lines := split_newline text in
  let sp := fst (split_spans size text) in
  let m := snd (split_spans size text) in
  exists e : nat,
    contiguous 0 m (Z.of_nat e)
    /\ (e <= length lines)%nat
    /\ Forall (fun l => blank l = true) (skipn e lines)
    /\ (m <> [] -> sp = map (span_text size lines) m)
    /\ (m = [] -> sp = [[]]).
Proof.
  intros NE lines sp m. subst sp m lines.
  rewrite (split_spans_unfold _ _ NE). cbv zeta. cbn [fst snd].
  pose proof (split_loop_inv_all size (split_newline text)) as Inv.
  fold (loop_end size text) in Inv.
  destruct Inv as (C & Le & _ & Cur & _ & Sp).
  destruct (blank (currentSpan (loop_end size text))) eqn:B.
  - destruct (split_finish_dropped size text B) as (F & Lt & Bl).
    rewrite F.
    exists (spanStartLineIndex (loop_end size text)).
    repeat split; auto.
    + intro M. rewrite Sp.
      destruct (lineMap (loop_end size text)); [contradiction|reflexivity].
    + intro M. rewrite Sp, M. reflexivity.
  - destruct (split_finish_recorded size text B) as (F1 & F2 & Lt).
    cbv zeta in F1, F2, Lt. rewrite F1, F2.
    exists (length (split_newline text)). repeat split.
    + apply contiguous_snoc; [assumption|lia].
    + lia.
    + rewrite skipn_all. constructor.
    + intros _. rewrite Sp, map_app. simpl.
      rewrite span_text_range, <- Cur.
      destruct (map (span_text _ _) _); reflexivity.
    + intro M. now apply app_eq_nil in M as [_ M].
Qed.



(** *** The length of a span *)

Lemma within_le (size : Z) (lines : list jsstring) (x y : Z) :
  y <= x -> within size lines x -> within size lines y.
Proof.
  intros Le [H|(line & I & L & H)]; [left; lia|].
  right. exists line. repeat split; auto. lia.
Qed.

Lemma lineToAdd_truncated (size : Z) (line : jsstring) :
  50 <= size -> size <= jslength line ->
  lineToAdd size line
    = firstn (Z.to_nat (size - 50)) line ++ truncation_marker (length line)
  /\ jslength (firstn (Z.to_nat (size - 50)) line) = size - 50.
Proof.
  intros S50 L. unfold lineToAdd, substring0, jslength in *.
  rewrite length_app. simpl length.
  destruct (_ >? size) eqn:C; [|rewrite Z.gtb_ltb in C; apply Z.ltb_ge in C; lia].
  split; [reflexivity|]. rewrite length_firstn. lia.
Qed.

Lemma lineToAdd_short (size : Z) (line : jsstring) :
  jslength line < size -> lineToAdd size line = line ++ [LF].
Proof.
  intros L. unfold lineToAdd, jslength in *. rewrite length_app. simpl length.
  destruct (_ >? size) eqn:C; [|reflexivity].
  rewrite Z.gtb_ltb in C; apply Z.ltb_lt in C. lia.
Qed.

Lemma truncation_marker_indicator (n : nat) :
  truncation_marker n = truncation_indicator n ++ [LF].
Proof.
  unfold truncation_marker, truncation_indicator.
  now rewrite <- !app_assoc.
Qed.

(** What a line contributes is a text within the bound and a line feed. *)
Lemma lineToAdd_within (size : Z) (lines : list jsstring) (line : jsstring) :
  50 <= size -> In line lines ->
  exists body, lineToAdd size line = body ++ [LF]
               /\ within size lines (jslength body).
Proof.
  intros S50 I.
  destruct (Z_lt_le_dec (jslength line) size) as [L|L].
  - exists line. split; [now apply lineToAdd_short|]. left. lia.
  - destruct (lineToAdd_truncated size line S50 L) as [E F].
    exists (firstn (Z.to_nat (size - 50)) line
              ++ truncation_indicator (length line)).
    split.
    + rewrite E, truncation_marker_indicator. now rewrite app_assoc.
    + right. exists line. repeat split; auto.
      unfold jslength in *. rewrite length_app. lia.
Qed.

(** The span recorded for a pending span is within the bound: [trimEnd]
    takes at least the last line feed. *)
Lemma trimEnd_pending (size : Z) (lines : list jsstring) (s : jsstring) :
  0 <= size -> pending_within size lines s ->
  within size lines (jslength (trimEnd s)).
Proof.
  intros S [->|(body & -> & W)].
  - left. simpl. exact S.
  - rewrite trimEnd_app_blank by reflexivity.
    apply (within_le _ _ (jslength body)); [|assumption].
    unfold jslength. pose proof (trimEnd_length body). lia.
Qed.

Lemma split_step_bound (size : Z) (lines : list jsstring) (i : nat)
  (line : jsstring) (a : SplitAcc) :
  50 <= size -> In line lines ->
  bound_inv size lines a -> bound_inv size lines (split_step size i line a).
Proof.
  intros S50 I (Sp & Cur & Len).
  destruct (lineToAdd_within size lines line S50 I) as (body & E & W).
  unfold split_step. destruct (_ && _) eqn:Cond; repeat split; simpl; auto.
  - apply Forall_app. split; [assumption|]. constructor; [|constructor].
    apply trimEnd_pending; [lia|assumption].
  - right. exists body. split; assumption.
  - right. exists (currentSpan a ++ body). split.
    + rewrite E. now rewrite app_assoc.
    + apply andb_false_iff in Cond as [C|C].
      * left. rewrite Z.gtb_ltb in C; apply Z.ltb_ge in C. rewrite Len, E in C.
        unfold jslength in *. rewrite !length_app in *. simpl length in C. lia.
      * apply Z.ltb_ge in C. unfold jslength in C.
        destruct (currentSpan a); [exact W|simpl in C; lia].
  - rewrite Len. unfold jslength. rewrite length_app. lia.
Qed.

Lemma split_loop_bound (size : Z) (lines : list jsstring) :
  50 <= size ->
  forall (rest : list jsstring) (i : nat) (a : SplitAcc),
  incl rest lines -> bound_inv size lines a ->
  bound_inv size lines (split_loop size i rest a).
Proof.
  intros S50. induction rest as [|line rest IH]; intros i a Inc B; simpl;
    [assumption|].
  apply IH.
  - intros x Hx. apply Inc. now right.
  - apply split_step_bound; auto. apply Inc. now left.
Qed.

Lemma split_spans_bound (size : Z) (text : jsstring) (s : jsstring) :
  50 <= size -> In s (fst (split_spans size text)) ->
  within size (split_newline text) (jslength s).
Proof.
  intros S50 I.
  rewrite split_spans_unfold in I by lia. cbv zeta in I. cbn [fst] in I.
  assert (bound_inv size (split_newline text) (loop_end size text))
    as (Sp & Cur & _).
  { apply split_loop_bound; auto using incl_refl.
    repeat split; simpl; auto. now left. }
  assert (Forall (fun s => within size (split_newline text) (jslength s))
            (spans (split_finish (length (split_newline text))
                      (loop_end size text)))) as F.
  { unfold split_finish. destruct (_ <? _); [|assumption]. simpl.
    apply Forall_app. split; [assumption|]. constructor; [|constructor].
    apply trimEnd_pending; [lia|assumption]. }
  destruct (spans (split_finish _ _)).
  - destruct I as [<-|[]]. left. unfold jslength. simpl. lia.
  - rewrite Forall_forall in F. auto.
Qed.

(** C4, counterexample: with budget 100, the line of 101 characters is
    truncated to 98 code units with its line feed; they fit after the 2 of
    the first line, so both lines are in the first span, range 1..2. *)
Lemma long_lines_have_own_span_fails :
  snd (split_spans 100 text_with_long_line)
    = [{| startLine := 1; endLine := 2 |};
       {| startLine := 3; endLine := 3 |}]
  /\ nth 0 (fst (split_spans 100 text_with_long_line)) []
     = [97%N; LF] ++ repeat 120%N 50
         ++ js "... [line truncated, originally with 101 chars]"
  /\ ~ long_lines_have_own_span 100 text_with_long_line.
Proof.
  assert (snd (split_spans 100 text_with_long_line)
    = [{| startLine := 1; endLine := 2 |};
       {| startLine := 3; endLine := 3 |}]) as E by (vm_compute; reflexivity).
  split; [exact E|]. split; [vm_compute; reflexivity|].
  intro H. specialize (H 1%nat (repeat 120%N 101)). rewrite E in H.
  assert (In {| startLine := Z.of_nat 1 + 1; endLine := Z.of_nat 1 + 1 |}
            [{| startLine := 1; endLine := 2 |};
             {| startLine := 3; endLine := 3 |}]) as [A|[A|[]]].
  { apply H; [vm_compute; reflexivity|vm_compute; reflexivity]. }
  - discriminate A.
  - discriminate A.
Qed.

(** C4, amended: for every budget of at least 100, a line of at least
    budget characters contributes its first budget - 50 characters
    followed by the indicator "... [line truncated, originally with N
    chars]" and a line feed; a shorter line contributes itself and a line
    feed.  The truncated line is accumulated like any other line (it may
    share its span with other lines).  No span is longer than the budget,
    or than budget - 50 plus the length of the indicator of a truncated
    line of the text, the indicator counted without its line feed. *)
Theorem truncation_and_span_length (size : Z) (text : jsstring) :
  100 <= size ->
  (forall line, size <= jslength line ->
     lineToAdd size line
       = firstn (Z.to_nat (size - 50)) line
           ++ js "... [line truncated, originally with "
           ++ string_of_nat (length line) ++ js " chars]" ++ [LF]
     /\ jslength (firstn (Z.to_nat (size - 50)) line) = size - 50)
  /\ (forall line, jslength line < size -> lineToAdd size line = line ++ [LF])
  /\ (forall s, In s (fst (split_spans size text)) ->
        jslength s <= size
        \/ exists line, In line (split_newline text) /\ size <= jslength line
             /\ jslength s
                <= size - 50
                   + jslength (js "... [line truncated, originally with "
                                 ++ string_of_nat (length line)
                                 ++ js " chars]")).
Proof.
  intro S. repeat split.
  - apply lineToAdd_truncated; lia.
  - apply lineToAdd_truncated; lia.
  - apply lineToAdd_short.
  - intros s I. apply split_spans_bound; [lia|assumption].
Qed.

Lemma truncation_and_span_length_witness :
  100 <= 100 /\
  (forall s, In s (fst (split_spans 100 text_with_long_line)) ->
     jslength s <= 100
     \/ exists line, In line (split_newline text_with_long_line)
          /\ 100 <= jslength line
          /\ jslength s
             <= 100 - 50
                + jslength (js "... [line truncated, originally with "
                              ++ string_of_nat (length line)
                              ++ js " chars]")).
Proof.
  split; [lia|].
  apply (truncation_and_span_length 100 text_with_long_line). lia.
Defined.

(* ================================================================== *)
(** ** Span navigation: results *)
(* ================================================================== *)

Lemma navigateToSpan_lands (t : Tab) (i : Z) :
  lands_on t i (navigateToSpan i t).
Proof.
  unfold lands_on, navigateToSpan. cbv zeta.
  destruct (Z.of_nat (length (_snapshotSpans t)) =? 0) eqn:E.
  - apply Z.eqb_eq in E. split; [reflexivity|]. intro; contradiction.
  - apply Z.eqb_neq in E. split; [intro; contradiction|]. intros _.
    simpl. repeat split; try lia.
    apply nth_error_nth'. lia.
Qed.

Lemma set_currentSpanIndex_same (t : Tab) :
  set_currentSpanIndex (_currentSpanIndex t) t = t.
Proof. now destruct t. Qed.

(** C7: every span navigation clamps the index it asks for into
    [0 .. spanCount - 1] and returns the span there with its index and the
    span count; it fails exactly when there is no span; [navigateToSpan(-5)]
    lands on span 0; next at the last span and prev at the first span
    return that span with success and leave the tab as it was. *)
Theorem span_navigation_clamps (t : Tab) (index : Z) :
  let n := Z.of_nat (length (_snapshotSpans t)) in
  lands_on t index (navigateToSpan index t)
  /\ lands_on t 0 (navigateToFirstSpan t)
  /\ lands_on t (n - 1) (navigateToLastSpan t)
  /\ lands_on t (_currentSpanIndex t + 1) (navigateToNextSpan t)
  /\ lands_on t (_currentSpanIndex t - 1) (navigateToPrevSpan t)
  /\ (success (fst (navigateToSpan index t)) = false <-> n = 0)
  /\ (success (fst (navigateToFirstSpan t)) = false <-> n = 0)
  /\ (success (fst (navigateToLastSpan t)) = false <-> n = 0)
  /\ (success (fst (navigateToNextSpan t)) = false <-> n = 0)
  /\ (success (fst (navigateToPrevSpan t)) = false <-> n = 0)
  /\ (n <> 0 -> spanIndex (fst (navigateToSpan (-5) t)) = 0)
  /\ (n <> 0 -> _currentSpanIndex t = n - 1 ->
      success (fst (navigateToNextSpan t)) = true
      /\ spanIndex (fst (navigateToNextSpan t)) = n - 1
      /\ snd (navigateToNextSpan t) = t)
  /\ (n <> 0 -> _currentSpanIndex t = 0 ->
      success (fst (navigateToPrevSpan t)) = true
      /\ spanIndex (fst (navigateToPrevSpan t)) = 0
      /\ snd (navigateToPrevSpan t) = t).
Proof.
  intro n.
  assert (forall i, success (fst (navigateToSpan i t)) = false <-> n = 0)
    as Fail.
  { intro i. unfold navigateToSpan. fold n.
    destruct (n =? 0) eqn:E; simpl.
    - apply Z.eqb_eq in E. tauto.
    - apply Z.eqb_neq in E. split; [discriminate|contradiction]. }
  unfold navigateToFirstSpan, navigateToLastSpan, navigateToNextSpan,
    navigateToPrevSpan.
  repeat match goal with
         | |- _ /\ _ => split
         | |- lands_on _ _ _ => apply navigateToSpan_lands
         | |- _ <-> _ => apply Fail
         end.
  - intro NE. destruct (navigateToSpan_lands t (-5)) as [_ L].
    destruct (L NE) as (_ & _ & -> & _). fold n. lia.
  - intros NE C.
    destruct (navigateToSpan_lands t (_currentSpanIndex t + 1)) as [_ L].
    destruct (L NE) as (_ & S1 & S2 & _ & _ & S3). fold n in S2, S3.
    replace (Z.max 0 (Z.min (_currentSpanIndex t + 1) (n - 1)))
      with (_currentSpanIndex t) in * by lia.
    rewrite S3, set_currentSpanIndex_same. repeat split; auto. lia.
  - intros NE C.
    destruct (navigateToSpan_lands t (_currentSpanIndex t - 1)) as [_ L].
    destruct (L NE) as (_ & S1 & S2 & _ & _ & S3). fold n in S2, S3.
    replace (Z.max 0 (Z.min (_currentSpanIndex t - 1) (n - 1)))
      with (_currentSpanIndex t) in * by lia.
    rewrite S3, set_currentSpanIndex_same. repeat split; auto. lia.
Qed.

(* ================================================================== *)
(** ** The modal state queue: results *)
(* ================================================================== *)

Lemma filter_other_objects (m : ModalState) (q : list ModalState) :
  (forall x, In x q -> ms_ref x <> ms_ref m) ->
  filter (fun state => negb (same_object state m)) q = q.
Proof.
  induction q as [|x q IH]; intro H; simpl; [reflexivity|].
  unfold same_object at 1.
  destruct (Nat.eqb_spec (ms_ref x) (ms_ref m)) as [E|_]; simpl.
  - exfalso. apply (H x); auto. now left.
  - rewrite IH; auto. intros y Hy. apply H. now right.
Qed.

(** C9: [setModalState] puts the new entry at the end of the queue;
    [clearModalState] removes the given entry and leaves the others in
    their order; [_raceAgainstModalStates] called with a queue that is not
    empty returns its first, the oldest, entry, also after later entries
    were added. *)
Theorem modal_queue_order (t : Tab) (m : ModalState) :
  modalStates (setModalState m t) = modalStates t ++ [m]
  /\ (forall q1 q2,
        modalStates t = q1 ++ m :: q2 ->
        (forall x, In x (q1 ++ q2) -> ms_ref x <> ms_ref m) ->
        modalStates (clearModalState m t) = q1 ++ q2)
  /\ ((forall x, In x (modalStates t) -> ms_ref x <> ms_ref m) ->
      modalStates (clearModalState m t) = modalStates t)
  /\ (forall m0 q,
        modalStates t = m0 :: q ->
        _raceAgainstModalStates_early t = Some m0
        /\ _raceAgainstModalStates_early (setModalState m t) = Some m0)
  /\ (modalStates t = [] -> _raceAgainstModalStates_early t = None).
Proof.
  unfold modalStates, _raceAgainstModalStates_early, modalStates.
  repeat split; simpl.
  - intros q1 q2 E H. rewrite E, filter_app. simpl.
    unfold same_object at 2. rewrite Nat.eqb_refl. simpl.
    rewrite !filter_other_objects; auto;
      intros x Hx; apply H, in_or_app; auto.
  - apply filter_other_objects.
  - now rewrite H.
  - now rewrite H.
  - intros ->. reflexivity.
Qed.

(* ================================================================== *)
(** ** The line locator: results *)
(* ================================================================== *)

Lemma Zrange_In (lo x : Z) (n : nat) :
  In x (Zrange lo n) <-> lo <= x < lo + Z.of_nat n.
Proof.
  unfold Zrange. rewrite in_map_iff. split.
  - intros (k & <- & H). apply in_seq in H. lia.
  - intro H. exists (Z.to_nat (x - lo)). split; [lia|]. apply in_seq. lia.
Qed.

Lemma Zrange_shift (lo : Z) (n : nat) :
  Zrange (lo + 1) n = map (fun i => i + 1) (Zrange lo n).
Proof.
  unfold Zrange. rewrite map_map. apply map_ext. intro k. lia.
Qed.

Lemma contextContent_rendered (lines : list jsstring) (startLn endLn g : Z) :
  contextContent lines startLn endLn (g - 1)
  = map (rendered_line lines g)
        (Zrange (startLn + 1) (Z.to_nat (endLn - startLn + 1))).
Proof.
  unfold contextContent. rewrite Zrange_shift, map_map. apply map_ext.
  intro i. unfold context_entry, rendered_line.
  replace (i + 1 - 1) with i by lia.
  replace (i + 1 =? g) with (i =? g - 1); [reflexivity|].
  destruct (Z.eqb_spec i (g - 1)), (Z.eqb_spec (i + 1) g); auto; lia.
Qed.

Lemma messages_distinct (g : Z) (n : nat) :
  no_snapshot_message <> out_of_range_message g n.
Proof.
  intro H. apply (f_equal (hd 0%N)) in H. discriminate H.
Qed.

(** The three outcomes of [navigateToLine]. *)
Lemma navigateToLine_cases (g c : Z) (t : Tab) :
  let n := Z.of_nat (length (_globalLines t)) in
  (n = 0 /\
   navigateToLine g c t
   = ({| l_success := false; content := [];
         lineInfo := no_snapshot_message |}, t))
  \/ (n <> 0 /\ (g < 1 \/ n < g) /\
      navigateToLine g c t
      = ({| l_success := false; content := [];
            lineInfo := out_of_range_message g (length (_globalLines t)) |},
         t))
  \/ (n <> 0 /\ 1 <= g <= n /\
      navigateToLine g c t
      = (let startLn := Z.max 0 (g - 1 - c) in
         let endLn := Z.min (n - 1) (g - 1 + c) in
         {| l_success := true;
            content := join [LF]
              (contextContent (_globalLines t) startLn endLn (g - 1));
            lineInfo :=
              js "Showing lines " ++ string_of_Z (startLn + 1) ++ js "-"
                ++ string_of_Z (endLn + 1) ++ js " (" ++ plus_minus
                ++ string_of_Z c ++ js " context around line "
                ++ string_of_Z g ++ js ")" ++ [LF]
                ++ spanInfo (involvedSpans 0 (_spanToGlobalLineMap t)
                               startLn endLn) |}, t)).
Proof.
  intro n. unfold navigateToLine. fold n.
  destruct (Z.eqb_spec n 0) as [E|E]; [left; auto|right].
  destruct (_ || _) eqn:O.
  - left. repeat split; auto.
    apply orb_true_iff in O as [O|O];
      [apply Z.ltb_lt in O|apply Z.geb_le in O]; lia.
  - right. apply orb_false_iff in O as [O1 O2].
    apply Z.ltb_ge in O1. rewrite Z.geb_leb in O2. apply Z.leb_gt in O2.
    repeat split; auto; lia.
Qed.

(** C6: [navigateToLine] fails exactly when there is no snapshot or the
    line is outside [1 .. lineCount], with a message of its own for each
    of the two cases (so lines 0 and lineCount + 1 fail); it never changes
    the tab; on success the block renders the lines
    [max(1, g - c) .. min(lineCount, g + c)], each with its number, and the
    target line, which is among them when [c >= 0], carries the marker. *)
Theorem navigateToLine_window (g c : Z) (t : Tab) :
  let lines := _globalLines t in
  let n := Z.of_nat (length lines) in
  let r := fst (navigateToLine g c t) in
  let lo := Z.max 1 (g - c) in
  let hi := Z.min n (g + c) in
  snd (navigateToLine g c t) = t
  /\ (l_success r = false <-> (n = 0 \/ g < 1 \/ n < g))
  /\ (n = 0 ->
      content r = []
      /\ lineInfo r = js "No snapshot available. Take a snapshot first.")
  /\ (n <> 0 -> g < 1 \/ n < g ->
      content r = []
      /\ lineInfo r = js "Line " ++ string_of_Z g
           ++ js " is out of range. Snapshot has "
           ++ string_of_nat (length lines) ++ js " lines.")
  /\ no_snapshot_message <> out_of_range_message g (length lines)
  /\ l_success (fst (navigateToLine 0 c t)) = false
  /\ l_success (fst (navigateToLine (n + 1) c t)) = false
  /\ (l_success r = true ->
      content r = join [LF] (map (rendered_line lines g)
                               (Zrange lo (Z.to_nat (hi - lo + 1))))
      /\ lineInfo r
         = js "Showing lines " ++ string_of_Z lo ++ js "-" ++ string_of_Z hi
             ++ js " (" ++ plus_minus ++ string_of_Z c
             ++ js " context around line " ++ string_of_Z g ++ js ")" ++ [LF]
             ++ spanInfo (involvedSpans 0 (_spanToGlobalLineMap t)
                            (lo - 1) (hi - 1))
      /\ (0 <= c -> In g (Zrange lo (Z.to_nat (hi - lo + 1))))).
Proof.
  intros lines n r lo hi.
  assert (forall g', g' < 1 \/ n < g' ->
            l_success (fst (navigateToLine g' c t)) = false) as Out.
  { intros g' H.
    destruct (navigateToLine_cases g' c t)
      as [(_ & ->)|[(_ & _ & ->)|(_ & I & _)]]; auto.
    fold lines in I. fold n in I. lia. }
  pose proof (navigateToLine_cases g c t) as Cases.
  cbv zeta in Cases. fold lines in Cases. fold n in Cases. subst r.
  repeat match goal with |- _ /\ _ => split end;
    try solve [apply Out; lia | apply messages_distinct];
    destruct Cases as [(Z0 & ->)|[(NZ & O & ->)|(NZ & I & ->)]];
    cbn [fst snd l_success content lineInfo];
    try solve [auto | tauto | lia | discriminate
               | intros; split; (reflexivity || lia)
               | split; [discriminate|lia] | split; auto; lia].
  intros _.
  replace (Z.max 0 (g - 1 - c)) with (lo - 1) by lia.
  replace (Z.min (n - 1) (g - 1 + c)) with (hi - 1) by lia.
  rewrite contextContent_rendered.
  replace (lo - 1 + 1) with lo by lia.
  replace (hi - 1 + 1) with hi by lia.
  replace (hi - 1 - (lo - 1) + 1) with (hi - lo + 1) by lia.
  split; [reflexivity|split; [reflexivity|]].
  intro C. apply Zrange_In. lia.
Qed.

(* ================================================================== *)
(** ** Cursor reconciliation: results *)
(* ================================================================== *)

Lemma jsstring_eqb_true (a b : jsstring) : jsstring_eqb a b = true <-> a = b.
Proof.
  unfold jsstring_eqb. destruct (list_eq_dec N.eq_dec a b); split;
    auto; discriminate.
Qed.

Lemma jsstring_eqb_false (a b : jsstring) :
  jsstring_eqb a b = false <-> a <> b.
Proof.
  unfold jsstring_eqb. destruct (list_eq_dec N.eq_dec a b); split;
    auto; try discriminate. contradiction.
Qed.

Lemma split_spans_nonempty (size : Z) (text : jsstring) :
  (1 <= length (fst (split_spans size text)))%nat.
Proof.
  unfold split_spans. destruct (size =? -1); simpl; [lia|].
  destruct (spans _); simpl; lia.
Qed.

Lemma onlyCurrentSpanChanged_true (new old : list jsstring) (cur : Z) :
  onlyCurrentSpanChanged new old cur = true
  <-> (forall i, (i < length new)%nat -> Z.of_nat i <> cur ->
         nth i new [] = nth i old []).
Proof.
  unfold onlyCurrentSpanChanged. rewrite forallb_forall. split.
  - intros H i Lt NE. specialize (H i). rewrite in_seq in H.
    assert (negb (negb (Z.of_nat i =? cur)
                  && negb (jsstring_eqb (nth i new []) (nth i old [])))
            = true) as B by (apply H; lia).
    apply Z.eqb_neq in NE. rewrite NE in B. simpl in B.
    apply negb_true_iff, negb_false_iff in B. now apply jsstring_eqb_true.
  - intros H i I. apply in_seq in I.
    destruct (Z.eqb_spec (Z.of_nat i) cur) as [E|NE]; [reflexivity|].
    simpl. apply negb_true_iff, negb_false_iff, jsstring_eqb_true.
    apply H; [lia|assumption].
Qed.

(** The tab after a snapshot with a different text. *)
Lemma update_snapshot_changed (text : jsstring) (t : Tab) :
  _fullSnapshot t <> text ->
  update_snapshot text t
  = (let sp := fst (split_spans (_snapshotSpanSize t) text) in
     {| _modalStates := _modalStates t;
        _fullSnapshot := text;
        _snapshotSpans := sp;
        _currentSpanIndex :=
          Z.min (reconciled_cursor sp (_snapshotSpans t) (_currentSpanIndex t))
                (Z.of_nat (length sp) - 1);
        _snapshotSpanSize := _snapshotSpanSize t;
        _globalLines := split_newline text;
        _spanToGlobalLineMap := snd (split_spans (_snapshotSpanSize t) text) |}).
Proof.
  intro NE. unfold update_snapshot.
  apply jsstring_eqb_false in NE. rewrite NE. reflexivity.
Qed.

(** C2: after a snapshot whose text differs from the previous one, the
    cursor is 0 when there was no span list before; it is the old cursor
    when the span counts are equal, the old cursor is below the count and
    every span other than the one at the old cursor equals the span it
    replaces; it is 0 in every other case; and it is within
    [0 .. spanCount - 1]. *)
Theorem cursor_reconciliation (text : jsstring) (t : Tab) :
  _fullSnapshot t <> text ->
  0 <= _currentSpanIndex t ->
  let t' := update_snapshot text t in
  let old := _snapshotSpans t in
  let new := _snapshotSpans t' in
  let cur := _currentSpanIndex t in
  new = fst (split_spans (_snapshotSpanSize t) text)
  /\ (old = [] -> _currentSpanIndex t' = 0)
  /\ (old <> [] -> length new = length old ->
      cur < Z.of_nat (length new) ->
      (forall i, (i < length new)%nat -> Z.of_nat i <> cur ->
         nth i new [] = nth i old []) ->
      _currentSpanIndex t' = cur)
  /\ (old <> [] ->
      (length new <> length old
       \/ Z.of_nat (length new) <= cur
       \/ exists i, (i < length new)%nat /\ Z.of_nat i <> cur
            /\ nth i new [] <> nth i old []) ->
      _currentSpanIndex t' = 0)
  /\ 0 <= _currentSpanIndex t' <= Z.of_nat (length new) - 1.
Proof.
  intros NE Pos t' old new cur. subst t' new.
  rewrite (update_snapshot_changed _ _ NE). cbv zeta.
  cbn [_snapshotSpans _currentSpanIndex]. fold old cur.
  set (new := fst (split_spans (_snapshotSpanSize t) text)).
  pose proof (split_spans_nonempty (_snapshotSpanSize t) text) as N1.
  fold new in N1.
  assert (forall x, 0 <= x <= Z.of_nat (length new) - 1 ->
            Z.min x (Z.of_nat (length new) - 1) = x) as Min by (intros; lia).
  unfold reconciled_cursor.
  split; [reflexivity|]. split; [|split; [|split]].
  - intros ->. simpl. lia.
  - intros O L C Same.
    destruct (Z.eqb_spec (Z.of_nat (length old)) 0) as [E|_].
    { destruct old; [contradiction|simpl in E; lia]. }
    rewrite L, Z.eqb_refl. rewrite <- L.
    apply Z.ltb_lt in C. rewrite C. simpl.
    apply onlyCurrentSpanChanged_true in Same. rewrite Same.
    apply Z.ltb_lt in C. unfold cur in *. lia.
  - intros O Diff.
    destruct (Z.of_nat (length old) =? 0); [lia|].
    destruct (_ && _) eqn:B; [|lia].
    apply andb_true_iff in B as [B1 B2].
    apply Z.eqb_eq in B1. apply Z.ltb_lt in B2.
    destruct (onlyCurrentSpanChanged new old cur) eqn:OC; [|lia].
    exfalso. rewrite onlyCurrentSpanChanged_true in OC.
    destruct Diff as [D|[D|(i & Lt & Ni & D)]]; [lia|lia|].
    apply D. now apply OC.
  - destruct (Z.of_nat (length old) =? 0); [lia|].
    destruct (_ && _) eqn:B; [|lia].
    destruct (onlyCurrentSpanChanged new old cur); [|lia].
    apply andb_true_iff in B as [_ B2]. apply Z.ltb_lt in B2.
    unfold cur in *. lia.
Qed.

Lemma cursor_reconciliation_witness :
  _currentSpanIndex (update_snapshot text_adc three_span_tab) = 1
  /\ 0 <= _currentSpanIndex (update_snapshot text_adc three_span_tab)
       <= Z.of_nat (length (_snapshotSpans
                              (update_snapshot text_adc three_span_tab))) - 1.
Proof.
  assert (_fullSnapshot three_span_tab <> text_adc) as NE
    by (vm_compute; discriminate).
  assert (0 <= _currentSpanIndex three_span_tab) as Pos
    by (vm_compute; discriminate).
  assert (_snapshotSpans (update_snapshot text_adc three_span_tab)
          = [js "aaaa"; js "dddd"; js "cccc"]) as N
    by (vm_compute; reflexivity).
  assert (_snapshotSpans three_span_tab = [js "aaaa"; js "bbbb"; js "cccc"])
    as O by (vm_compute; reflexivity).
  assert (_currentSpanIndex three_span_tab = 1) as C
    by (vm_compute; reflexivity).
  destruct (cursor_reconciliation _ _ NE Pos) as (_ & _ & Keep & _ & Bound).
  split; [|exact Bound].
  transitivity (_currentSpanIndex three_span_tab); [|exact C].
  apply Keep; clear Keep Bound NE Pos.
  - rewrite O. discriminate.
  - rewrite N, O. reflexivity.
  - rewrite N, C. reflexivity.
  - rewrite N, O, C. intros [|[|[|i]]] Lt D; simpl; try reflexivity.
    exfalso. apply D. reflexivity.
Defined.

(* ================================================================== *)
(** ** The search: results *)
(* ================================================================== *)

(** Without the [g] and [y] flags [test] neither reads nor writes
    [lastIndex]. *)
Lemma RegExp_test_stateless (R : RegExp) (str : jsstring) :
  rx_global R = false -> rx_sticky R = false ->
  RegExp_test R str = (pattern_matches (rx_matcher R) str, R).
Proof.
  intros G Y. unfold RegExp_test, pattern_matches. rewrite G, Y. simpl.
  rewrite Nat.sub_0_r. now destruct (scan _ _ _ _).
Qed.

Lemma search_lines_stateless (R : RegExp) (spanIndex : nat)
  (range : option LineRange) :
  rx_global R = false -> rx_sticky R = false ->
  forall (lines : list jsstring) (lineIndex : nat) (h : bool)
         (idx : list Z) (ms : list SearchMatch),
  search_lines spanIndex range lineIndex lines h
    {| sa_regex := R; sa_spanIndices := idx; sa_matches := ms |}
  = (match matching_lines (rx_matcher R) spanIndex range lineIndex lines with
     | [] => h
     | _ => true
     end,
     {| sa_regex := R; sa_spanIndices := idx;
        sa_matches := ms ++ matching_lines (rx_matcher R) spanIndex range
                              lineIndex lines |}).
Proof.
  intros G Y ls. induction ls as [|line rest IH]; intros lineIndex h idx ms.
  - simpl. now rewrite app_nil_r.
  - simpl. rewrite (RegExp_test_stateless R line G Y).
    destruct (pattern_matches (rx_matcher R) line); simpl; rewrite IH.
    + rewrite <- app_assoc. simpl. now destruct (matching_lines _ _ _ _ _).
    + reflexivity.
Qed.

Lemma search_spans_stateless (R : RegExp) (lineMap : list LineRange) :
  rx_global R = false -> rx_sticky R = false ->
  forall (spans : list jsstring) (spanIndex : nat)
         (idx : list Z) (ms : list SearchMatch),
  search_spans lineMap spanIndex spans
    {| sa_regex := R; sa_spanIndices := idx; sa_matches := ms |}
  = {| sa_regex := R;
       sa_spanIndices :=
         idx ++ fst (search_spec (rx_matcher R) lineMap spanIndex spans);
       sa_matches :=
         ms ++ snd (search_spec (rx_matcher R) lineMap spanIndex spans) |}.
Proof.
  intros G Y sps. induction sps as [|sp rest IH]; intros spanIndex idx ms.
  - simpl. now rewrite !app_nil_r.
  - simpl. rewrite (search_lines_stateless R _ _ G Y).
    destruct (search_spec (rx_matcher R) lineMap (S spanIndex) rest)
      as [idx' ms'] eqn:E.
    destruct (matching_lines _ _ _ _ _) as [|x xs] eqn:M; simpl;
      rewrite IH, E; simpl; rewrite <- ?app_assoc; reflexivity.
Qed.

(** With flags that have neither [g] nor [y], the search returns what the
    specification asks for. *)
Lemma search_with_stateless (R : RegExp) (t : Tab) :
  rx_global R = false -> rx_sticky R = false ->
  search_with R t
  = {| spanIndices :=
         fst (search_spec (rx_matcher R) (_spanToGlobalLineMap t) 0
                (_snapshotSpans t));
       matches :=
         snd (search_spec (rx_matcher R) (_spanToGlobalLineMap t) 0
                (_snapshotSpans t)) |}.
Proof.
  intros G Y. unfold search_with.
  now rewrite (search_spans_stateless R _ G Y).
Qed.

(** C3, the code at a failing input.  The snapshot has the two lines [ab]
    and [ab] in one span; the pattern [ab] with the default flags [gi]
    matches both.  The first [test] leaves [lastIndex] at 2, so the
    second [test] starts at the end of the second line and fails: the
    search returns the first line only, where the specification asks for
    both. *)
Theorem searchInSnapshot_default_flags_skip_line :
  _snapshotSpans two_ab_tab = [js "ab" ++ [LF] ++ js "ab"]
  /\ searchInSnapshot literal_compile (js "ab") None two_ab_tab
     = Some {| spanIndices := [0];
               matches := [{| m_spanIndex := 0; m_line := js "ab";
                              m_inSpanLineNumber := 1;
                              m_globalLineNumber := 1 |}] |}
  /\ search_spec (literal_matcher true (js "ab"))
       (_spanToGlobalLineMap two_ab_tab) 0 (_snapshotSpans two_ab_tab)
     = ([0],
        [{| m_spanIndex := 0; m_line := js "ab";
            m_inSpanLineNumber := 1; m_globalLineNumber := 1 |};
         {| m_spanIndex := 0; m_line := js "ab";
            m_inSpanLineNumber := 2; m_globalLineNumber := 2 |}])
  /\ searchInSnapshot literal_compile (js "ab") (Some (js "i")) two_ab_tab
     = Some {| spanIndices := [0];
               matches := [{| m_spanIndex := 0; m_line := js "ab";
                              m_inSpanLineNumber := 1;
                              m_globalLineNumber := 1 |};
                           {| m_spanIndex := 0; m_line := js "ab";
                              m_inSpanLineNumber := 2;
                              m_globalLineNumber := 2 |}] |}.
Proof. repeat split; vm_compute; reflexivity. Qed.

(* ================================================================== *)
(** ** Search results and the line locator *)
(* ================================================================== *)

Lemma reachable_consistent (t : Tab) : reachable t -> consistent t.
Proof.
  induction 1 as [s|t R IH|size t R IH|text t R IH|i t R IH|m t R IH|m t R IH].
  - left. repeat split.
  - left. repeat split.
  - unfold setSnapshotSpanSize. cbv zeta. cbn [_fullSnapshot].
    destruct (truthy (_fullSnapshot t)).
    + right. unfold _splitSnapshotIntoSpans. simpl. eauto.
    + exact IH.
  - unfold captureSnapshot. destruct (_modalStates t); [|exact IH].
    unfold update_snapshot.
    destruct (jsstring_eqb (_fullSnapshot t) text); [exact IH|].
    right. unfold _splitSnapshotIntoSpans. simpl. eauto.
  - unfold navigateToSpan. destruct (_ =? 0); exact IH.
  - exact IH.
  - exact IH.
Qed.

Lemma lineToAdd_ends_LF (size : Z) (line : jsstring) :
  exists body, lineToAdd size line = body ++ [LF].
Proof.
  unfold lineToAdd, truncation_marker. destruct (_ >? size).
  - eexists. rewrite !app_assoc. reflexivity.
  - eexists. reflexivity.
Qed.

Lemma concat_lineToAdd_ends_LF (size : Z) (ls : list jsstring) :
  ls <> [] -> exists body, concat (map (lineToAdd size) ls) = body ++ [LF].
Proof.
  induction ls as [|l ls IH]; [contradiction|]. intros _. simpl.
  destruct ls as [|l' ls'].
  - simpl. rewrite app_nil_r. apply lineToAdd_ends_LF.
  - destruct IH as (body & E); [discriminate|]. rewrite E.
    eexists. rewrite app_assoc. reflexivity.
Qed.

(** A span has at most as many lines as its range. *)
Lemma span_text_line_count (size : Z) (lines : list jsstring) (r : LineRange) :
  Forall (fun l => count_LF l = 0%nat) lines ->
  1 <= startLine r <= endLine r -> endLine r <= Z.of_nat (length lines) ->
  Z.of_nat (length (split_newline (span_text size lines r)))
    <= endLine r - startLine r + 1.
Proof.
  intros NoLF S E. rewrite split_newline_length. unfold span_text.
  set (ls := lines_between (Z.to_nat (startLine r) - 1)
               (Z.to_nat (endLine r)) lines).
  assert (length ls = Z.to_nat (endLine r) - (Z.to_nat (startLine r) - 1))%nat
    as L by (apply lines_between_length; lia).
  assert (ls <> []) as NE by (intro N; rewrite N in L; simpl in L; lia).
  destruct (concat_lineToAdd_ends_LF size ls NE) as (body & B).
  pose proof (count_LF_concat_lineToAdd size ls
                (lines_between_Forall _ _ _ _ NoLF)) as C.
  rewrite B in *. rewrite count_LF_app in C.
  rewrite trimEnd_app_blank by reflexivity.
  pose proof (count_LF_trimEnd body).
  change (count_LF [LF]) with 1%nat in C. lia.
Qed.

(** In a consistent tab the global line number of a line of a span is a
    line of the snapshot. *)
Lemma global_line_in_snapshot (t : Tab) (spanIndex lineIndex : nat)
  (sp : jsstring) :
  consistent t ->
  nth_error (_snapshotSpans t) spanIndex = Some sp ->
  (lineIndex < length (split_newline sp))%nat ->
  1 <= global_line_of (_spanToGlobalLineMap t) spanIndex lineIndex
    <= Z.of_nat (length (_globalLines t)).
Proof.
  intros [(S0 & _)|(size & S1 & S2 & S3)] N Lt.
  { rewrite S0 in N. now destruct spanIndex. }
  unfold global_line_of. rewrite S1 in N. rewrite S2, S3. clear S1 S2 S3.
  set (text := _fullSnapshot t) in *.
  pose proof (split_newline_length text) as Len.
  destruct (Z.eq_dec size (-1)) as [->|NE].
  - unfold split_spans in *. rewrite Z.eqb_refl in *. cbn [fst snd] in *.
    destruct spanIndex as [|[|k]]; try discriminate N.
    inversion N; subst sp. cbn [nth_error startLine]. lia.
  - destruct (split_spans_spec size text NE) as (e & C & Le & _ & Some_m & No_m).
    destruct (snd (split_spans size text)) as [|r0 m] eqn:M.
    + rewrite (No_m eq_refl) in N.
      destruct spanIndex as [|[|k]]; simpl in *; try discriminate.
      inversion N; subst sp. simpl in Lt. lia.
    + rewrite Some_m in N by discriminate.
      rewrite nth_error_map in N.
      destruct (nth_error (r0 :: m) spanIndex) as [r|] eqn:R;
        [|discriminate].
      simpl in N. inversion N; subst sp.
      pose proof (contiguous_nth_error _ _ _ _ _ C R) as B.
      pose proof (span_text_line_count size (split_newline text) r
                    (split_newline_no_LF text)) as Cnt.
      lia.
Qed.

(** Every match of the inner loop is one of the lines it went through. *)
Lemma search_lines_matches (spanIndex : nat) (range : option LineRange) :
  forall (ls : list jsstring) (lineIndex : nat) (h : bool) (a : SearchAcc)
         (x : SearchMatch),
  In x (sa_matches (snd (search_lines spanIndex range lineIndex ls h a))) ->
  In x (sa_matches a)
  \/ exists j, (j < length ls)%nat
       /\ m_globalLineNumber x
          = match range with
            | Some r => startLine r + Z.of_nat (lineIndex + j)
            | None => Z.of_nat (lineIndex + j) + 1
            end
       /\ m_line x = trim (nth j ls []).
Proof.
  induction ls as [|line rest IH]; intros lineIndex h a x I; simpl in *;
    [now left|].
  destruct (RegExp_test (sa_regex a) line) as [found R].
  destruct found; apply IH in I; simpl in I.
  - destruct I as [I|(j & Lt & E & T)].
    + apply in_app_or in I as [I|[<-|[]]]; [now left|].
      right. exists 0%nat. split; [lia|]. simpl. now rewrite Nat.add_0_r.
    + right. exists (S j). split; [lia|]. split; [|exact T].
      now replace (lineIndex + S j)%nat with (S lineIndex + j)%nat by lia.
  - destruct I as [I|(j & Lt & E & T)]; [now left|].
    right. exists (S j). split; [lia|]. split; [|exact T].
    now replace (lineIndex + S j)%nat with (S lineIndex + j)%nat by lia.
Qed.

(** Every match of the search is a line of a span, with the global line
    number of that line. *)
Lemma search_spans_matches (lineMap : list LineRange) :
  forall (sps : list jsstring) (spanIndex : nat) (a : SearchAcc)
         (x : SearchMatch),
  In x (sa_matches (search_spans lineMap spanIndex sps a)) ->
  In x (sa_matches a)
  \/ exists k sp j,
       nth_error sps k = Some sp
       /\ (j < length (split_newline sp))%nat
       /\ m_globalLineNumber x = global_line_of lineMap (spanIndex + k) j
       /\ m_line x = trim (nth j (split_newline sp) []).
Proof.
  induction sps as [|sp rest IH]; intros spanIndex a x I; simpl in *;
    [now left|].
  destruct (search_lines spanIndex (nth_error lineMap spanIndex) 0
              (split_newline sp) false a) as [h a1] eqn:SL.
  apply IH in I. destruct I as [I|(k & sp' & j & N & Lt & E & T)].
  - assert (In x (sa_matches a1)) as I1 by (destruct h; exact I).
    replace a1 with (snd (search_lines spanIndex
      (nth_error lineMap spanIndex) 0 (split_newline sp) false a)) in I1
      by now rewrite SL.
    apply search_lines_matches in I1 as [I1|(j & Lt & E & T)]; [now left|].
    right. exists 0%nat, sp, j. repeat split; auto.
    unfold global_line_of. rewrite Nat.add_0_r. exact E.
  - right. exists (S k), sp', j. repeat split; auto.
    now replace (spanIndex + S k)%nat with (S spanIndex + k)%nat by lia.
Qed.

(** The global line number of every match found in a consistent tab is a
    line of the snapshot. *)
Lemma search_with_lines (R : RegExp) (t : Tab) (x : SearchMatch) :
  consistent t -> In x (matches (search_with R t)) ->
  1 <= m_globalLineNumber x <= Z.of_nat (length (_globalLines t)).
Proof.
  intros C I. unfold search_with in I. simpl in I.
  apply search_spans_matches in I as [[]|(k & sp & j & N & Lt & -> & _)].
  now apply (global_line_in_snapshot t k j sp).
Qed.

(** [navigateToLine] on a line of the snapshot. *)
Lemma navigateToLine_success (g c : Z) (t : Tab) :
  let lines := _globalLines t in
  let n := Z.of_nat (length lines) in
  let lo := Z.max 1 (g - c) in
  let hi := Z.min n (g + c) in
  1 <= g <= n ->
  l_success (fst (navigateToLine g c t)) = true
  /\ snd (navigateToLine g c t) = t
  /\ content (fst (navigateToLine g c t))
     = join [LF] (map (rendered_line lines g)
                    (Zrange lo (Z.to_nat (hi - lo + 1))))
  /\ (0 <= c -> In g (Zrange lo (Z.to_nat (hi - lo + 1)))).
Proof.
  intros lines n lo hi I.
  destruct (navigateToLine_cases g c t)
    as [(Z0 & _)|[(_ & O & _)|(_ & _ & ->)]].
  - fold lines in Z0. fold n in Z0. lia.
  - fold lines in O. fold n in O. lia.
  - cbv zeta. cbn [fst snd l_success content]. fold lines. fold n.
    replace (Z.max 0 (g - 1 - c)) with (lo - 1) by lia.
    replace (Z.min (n - 1) (g - 1 + c)) with (hi - 1) by lia.
    rewrite contextContent_rendered.
    replace (lo - 1 + 1) with lo by lia.
    replace (hi - 1 - (lo - 1) + 1) with (hi - lo + 1) by lia.
    repeat split. intro C. apply Zrange_In. lia.
Qed.

(* ================================================================== *)
(** ** Lines of a pending span that is not recorded *)
(* ================================================================== *)

Lemma navigateToLine_lineInfo (g c : Z) (t : Tab) :
  let n := Z.of_nat (length (_globalLines t)) in
  let lo := Z.max 1 (g - c) in
  let hi := Z.min n (g + c) in
  1 <= g <= n ->
  lineInfo (fst (navigateToLine g c t))
  = lineInfo_header lo hi c g
      ++ spanInfo (involvedSpans 0 (_spanToGlobalLineMap t) (lo - 1) (hi - 1)).
Proof.
  intros n lo hi I.
  destruct (navigateToLine_cases g c t)
    as [(Z0 & _)|[(_ & O & _)|(_ & _ & ->)]].
  - fold n in Z0. lia.
  - fold n in O. lia.
  - cbv zeta. cbn [fst lineInfo]. fold n.
    replace (Z.max 0 (g - 1 - c)) with (lo - 1) by lia.
    replace (Z.min (n - 1) (g - 1 + c)) with (hi - 1) by lia.
    replace (lo - 1 + 1) with lo by lia.
    replace (hi - 1 + 1) with hi by lia.
    unfold lineInfo_header. repeat rewrite <- app_assoc. reflexivity.
Qed.

Lemma spanInfo_unavailable (involved : list Z) :
  spanInfo involved = js "Span information unavailable" <-> involved = [].
Proof.
  split; [|now intros ->].
  destruct involved; [reflexivity|]. intro H.
  apply (f_equal (hd 0%N)) in H. discriminate H.
Qed.

(** No span is involved exactly when the window [s .. t] (0-based) lies
    after the last recorded line, or before the first one. *)
Lemma involvedSpans_nil (m : list LineRange) :
  forall (k : nat) (a e s t : Z),
  contiguous a m e -> s <= t ->
  (involvedSpans k m s t = [] <-> (m = [] \/ e <= s \/ t < a)).
Proof.
  induction m as [|r m IH]; intros k a e s t C Le; simpl.
  - tauto.
  - destruct C as (C1 & C2 & C3). pose proof (contiguous_le _ _ _ C3) as C4.
    destruct (_ && _) eqn:B.
    + apply andb_true_iff in B as [B1 B2].
      apply Z.leb_le in B1. apply Z.geb_le in B2.
      split; [discriminate|]. intros [H|[H|H]]; [discriminate|lia|lia].
    + rewrite (IH (S k) (endLine r) e s t C3 Le).
      apply andb_false_iff in B as [B|B].
      * apply Z.leb_gt in B. split; [right; right; lia|]. intros _. right.
        right. lia.
      * rewrite Z.geb_leb in B. apply Z.leb_gt in B.
        split.
        -- intros [H|[H|H]]; [|right; left; lia|lia].
           subst m. simpl in C3. right. left. lia.
        -- intros [H|[H|H]]; [discriminate|right; left; lia|right; right; lia].
Qed.

Lemma contiguous_In (m : list LineRange) (a b : Z) (r : LineRange) :
  contiguous a m b -> In r m -> a < startLine r /\ endLine r <= b.
Proof.
  intros C I. apply In_nth_error in I as (k & N).
  pose proof (contiguous_nth_error _ _ _ _ _ C N). lia.
Qed.

(** C10, counterexample: span size 100, a line of 99 characters and a
    line feed.  Line 2, the empty line, is in the dropped pending span;
    [navigateToLine(2)] with the default context of 3 lines shows lines
    1-2 and reports span 1, whose range the window overlaps. *)
Lemma dropped_line_reports_unavailable_fails :
  blank (currentSpan (loop_end 100 (repeat 97%N 99 ++ [LF]))) = true
  /\ spanStartLineIndex (loop_end 100 (repeat 97%N 99 ++ [LF])) = 1%nat
  /\ lineInfo (fst (navigateToLine 2 3
                      (update_snapshot (repeat 97%N 99 ++ [LF]) (new_Tab 100))))
     = lineInfo_header 1 2 3 2 ++ js "Lines from spans: 1"
  /\ ~ dropped_line_reports_unavailable 100 (repeat 97%N 99 ++ [LF])
         (update_snapshot (repeat 97%N 99 ++ [LF]) (new_Tab 100)) 2 3.
Proof.
  assert (blank (currentSpan (loop_end 100 (repeat 97%N 99 ++ [LF]))) = true)
    as B by (vm_compute; reflexivity).
  assert (lineInfo (fst (navigateToLine 2 3
                      (update_snapshot (repeat 97%N 99 ++ [LF]) (new_Tab 100))))
     = lineInfo_header 1 2 3 2 ++ js "Lines from spans: 1") as L
    by (vm_compute; reflexivity).
  repeat split; auto.
  intro H. destruct H as [_ E]; try exact B.
  - discriminate.
  - vm_compute. reflexivity.
  - vm_compute. reflexivity.
  - vm_compute. split; [reflexivity|discriminate].
  - rewrite L in E. revert E. vm_compute. discriminate.
Qed.

(** C10, amended: when the pending span is blank after the loop, nothing
    is recorded for it: the ranges end at the line [e] before it, which is
    smaller than the line count, no range holds a line after [e], and
    those lines are blank.  [navigateToLine] on such a line [g] (with
    [contextLines >= 0]) succeeds, and its [lineInfo] ends in "Span
    information unavailable" exactly when the context window starts after
    line [e] (always for [contextLines = 0], and when no range was
    recorded at all); otherwise it lists the spans the window overlaps. *)
Theorem blank_pending_span_dropped (size : Z) (text : jsstring) (t : Tab)
  (g c : Z) :
  size <> -1 ->
  blank (currentSpan (loop_end size text)) = true ->
  _globalLines t = split_newline text ->
  _spanToGlobalLineMap t = snd (split_spans size text) ->
  let lines := split_newline text in
  let n := Z.of_nat (length lines) in
  let m := snd (split_spans size text) in
  let e := Z.of_nat (spanStartLineIndex (loop_end size text)) in
  let lo := Z.max 1 (g - c) in
  let hi := Z.min n (g + c) in
  let involved := involvedSpans 0 m (lo - 1) (hi - 1) in
  m = lineMap (loop_end size text)
  /\ fst (split_spans size text)
     = match spans (loop_end size text) with
       | [] => [[]]
       | _ => spans (loop_end size text)
       end
  /\ contiguous 0 m e
  /\ e < n
  /\ (forall r, In r m -> endLine r <= e)
  /\ Forall (fun l => blank l = true) (skipn (Z.to_nat e) lines)
  /\ (e < g <= n -> 0 <= c ->
      l_success (fst (navigateToLine g c t)) = true
      /\ lineInfo (fst (navigateToLine g c t))
         = lineInfo_header lo hi c g ++ spanInfo involved
      /\ (spanInfo involved = js "Span information unavailable" <-> e < lo)
      /\ (c = 0 -> spanInfo involved = js "Span information unavailable")
      /\ (m = [] -> spanInfo involved = js "Span information unavailable")).
Proof.
  intros NE B GL LM lines n m e lo hi involved.
  destruct (split_finish_dropped size text B) as (F & Lt & Bl).
  pose proof (split_loop_inv_all size (split_newline text)) as Inv.
  fold (loop_end size text) in Inv. destruct Inv as (C & _).
  assert (m = lineMap (loop_end size text)) as M.
  { unfold m. rewrite (split_spans_unfold _ _ NE). cbv zeta. now rewrite F. }
  assert (contiguous 0 m e) as Cm by (rewrite M; exact C).
  split; [exact M|]. split.
  { rewrite (split_spans_unfold _ _ NE). cbv zeta. now rewrite F. }
  split; [exact Cm|]. split; [unfold e, n, lines; lia|].
  split; [intros r I; apply (contiguous_In m 0 e r Cm I)|].
  split; [unfold e; now rewrite Nat2Z.id|].
  intros G Pos.
  assert (1 <= g <= Z.of_nat (length (_globalLines t))) as G'.
  { rewrite GL. fold lines. fold n. unfold e in G. lia. }
  destruct (navigateToLine_success g c t G') as (S1 & _).
  pose proof (navigateToLine_lineInfo g c t G') as LI.
  cbv zeta in LI. rewrite GL, LM in LI.
  fold lines in LI. fold n in LI. fold m in LI. fold lo in LI. fold hi in LI.
  fold involved in LI.
  assert (involved = [] <-> e < lo) as Inv.
  { unfold involved.
    rewrite (involvedSpans_nil m 0 0 e (lo - 1) (hi - 1) Cm) by lia.
    split.
    - intros [H|[H|H]]; [|lia|lia].
      rewrite H in Cm. simpl in Cm. lia.
    - intro H. right. left. lia. }
  split; [exact S1|]. split; [exact LI|].
  rewrite spanInfo_unavailable. split; [exact Inv|]. split.
  - intros ->. apply Inv. lia.
  - intros H. apply Inv. rewrite H in Cm. simpl in Cm. lia.
Qed.

Lemma blank_pending_span_dropped_witness :
  snd (split_spans 100 (repeat 97%N 99 ++ [LF]))
    = lineMap (loop_end 100 (repeat 97%N 99 ++ [LF]))
  /\ lineInfo (fst (navigateToLine 2 0
                      (update_snapshot (repeat 97%N 99 ++ [LF]) (new_Tab 100))))
     = lineInfo_header 2 2 0 2 ++ js "Span information unavailable".
Proof.
  pose proof (blank_pending_span_dropped 100 (repeat 97%N 99 ++ [LF])
    (update_snapshot (repeat 97%N 99 ++ [LF]) (new_Tab 100)) 2 0
    ltac:(discriminate)
    ltac:(vm_compute; reflexivity)
    ltac:(vm_compute; reflexivity)
    ltac:(vm_compute; reflexivity)) as (M & _ & _ & _ & _ & _ & Nav).
  split; [exact M|].
  destruct Nav as (_ & LI & _ & U & _).
  - vm_compute. split; [reflexivity|discriminate].
  - discriminate.
  - rewrite LI, (U eq_refl). vm_compute. reflexivity.
Defined.

(* ================================================================== *)
(** ** The cursor stays within the spans *)
(* ================================================================== *)

Lemma reconciled_cursor_bounds (new old : list jsstring) (cur : Z) :
  0 <= cur -> 0 <= reconciled_cursor new old cur.
Proof.
  intro H. unfold reconciled_cursor.
  repeat match goal with |- context [if ?b then _ else _] => destruct b end;
    lia.
Qed.

Lemma reachable_cursor_in_bounds (t : Tab) :
  reachable t -> cursor_in_bounds t.
Proof.
  unfold cursor_in_bounds.
  induction 1 as [s|t R IH|size t R IH|text t R IH|i t R IH|m t R IH|m t R IH];
    try exact IH.
  - simpl. split; [lia|]. intro H. now contradiction H.
  - simpl. split; [lia|]. intro H. now contradiction H.
  - unfold setSnapshotSpanSize. cbv zeta. cbn [_fullSnapshot].
    destruct (truthy (_fullSnapshot t)); [|exact IH].
    unfold _splitSnapshotIntoSpans. simpl.
    pose proof (split_spans_nonempty
      (if size =? -1 then -1 else Z.max 100 size) (_fullSnapshot t)).
    split; [lia|]. intros _. lia.
  - unfold captureSnapshot. destruct (_modalStates t); [|exact IH].
    unfold update_snapshot.
    destruct (jsstring_eqb (_fullSnapshot t) text); [exact IH|].
    unfold _splitSnapshotIntoSpans. simpl.
    pose proof (split_spans_nonempty (_snapshotSpanSize t) text).
    pose proof (reconciled_cursor_bounds
      (fst (split_spans (_snapshotSpanSize t) text)) (_snapshotSpans t)
      (_currentSpanIndex t) (proj1 IH)).
    split; [lia|]. intros _. lia.
  - unfold navigateToSpan.
    destruct (Z.eqb_spec (Z.of_nat (length (_snapshotSpans t))) 0);
      [exact IH|].
    simpl. split; [lia|]. intros _. lia.
Qed.

(* ================================================================== *)
(** ** The text of a match *)
(* ================================================================== *)

Lemma lineToAdd_shown (size : Z) (line : jsstring) :
  size <> -1 -> lineToAdd size line = shown_line size line ++ [LF].
Proof.
  intro NE. unfold shown_line. apply Z.eqb_neq in NE. rewrite NE.
  destruct (lineToAdd_ends_LF size line) as (body & ->).
  now rewrite removelast_last.
Qed.

Lemma shown_line_no_LF (size : Z) (line : jsstring) :
  size <> -1 -> count_LF line = 0%nat ->
  count_LF (shown_line size line) = 0%nat.
Proof.
  intros NE H. pose proof (lineToAdd_count_LF size line H) as C.
  rewrite (lineToAdd_shown _ _ NE), count_LF_app in C.
  change (count_LF [LF]) with 1%nat in C. lia.
Qed.

Lemma split_newline_first_line (b rest : jsstring) :
  count_LF b = 0%nat ->
  split_newline (b ++ LF :: rest) = b :: split_newline rest.
Proof.
  unfold count_LF. induction b as [|c b IH]; simpl; [reflexivity|].
  destruct (c =? LF)%N; simpl; [discriminate|].
  intro H. now rewrite (IH H).
Qed.

Lemma split_newline_concat (size : Z) (ls : list jsstring) :
  size <> -1 -> Forall (fun l => count_LF l = 0%nat) ls ->
  split_newline (concat (map (lineToAdd size) ls))
  = map (shown_line size) ls ++ [[]].
Proof.
  intros NE. induction 1 as [|l ls H _ IH]; simpl; [reflexivity|].
  rewrite (lineToAdd_shown _ _ NE), <- app_assoc. simpl.
  rewrite split_newline_first_line by now apply shown_line_no_LF.
  now rewrite IH.
Qed.

Lemma split_newline_blank (w : jsstring) :
  blank w = true -> Forall (fun l => blank l = true) (split_newline w).
Proof.
  induction w as [|c w IH]; simpl.
  - intros _. constructor; [reflexivity|constructor].
  - intro H. apply andb_true_iff in H as [Hc Hw]. specialize (IH Hw).
    destruct (c =? LF)%N.
    + constructor; [reflexivity|exact IH].
    + destruct (split_newline w) as [|l ls].
      * constructor; [simpl; now rewrite Hc|constructor].
      * inversion IH; subst. constructor; [|assumption].
        simpl. rewrite Hc. assumption.
Qed.

(** A line of a prefix of a text is the line of the text, without what
    the rest of the text adds to it. *)
Lemma split_newline_prefix (p w : jsstring) (j : nat) :
  blank w = true -> (j < length (split_newline p))%nat ->
  exists w', blank w' = true
    /\ nth j (split_newline (p ++ w)) [] = nth j (split_newline p) [] ++ w'.
Proof.
  intro B. revert j. induction p as [|c p IH]; intros j Lt.
  - simpl in Lt. assert (j = 0%nat) as -> by lia. simpl.
    exists (nth 0 (split_newline w) []). split; [|reflexivity].
    pose proof (split_newline_blank w B) as F.
    destruct (split_newline w); [reflexivity|]. now inversion F.
  - simpl in *. destruct (c =? LF)%N.
    + destruct j as [|j]; simpl in *.
      * exists []. split; reflexivity.
      * apply IH. lia.
    + destruct (split_newline p) as [|l ls] eqn:P;
        [now apply split_newline_nonempty in P|].
      destruct (split_newline (p ++ w)) as [|l' ls'] eqn:PW;
        [now apply split_newline_nonempty in PW|].
      destruct j as [|j]; simpl in *.
      * destruct (IH 0%nat) as (w' & Bw & E); [lia|]. simpl in E.
        exists w'. split; [assumption|]. now rewrite E.
      * destruct (IH (S j)) as (w' & Bw & E); [lia|]. simpl in E.
        exists w'. split; assumption.
Qed.

Lemma trimStart_app_blank (l w : jsstring) :
  blank l = false -> trimStart (l ++ w) = trimStart l ++ w.
Proof.
  induction l as [|c l IH]; simpl; [discriminate|].
  destruct (isWhiteSpace c); simpl; auto.
Qed.

Lemma trim_app_blank (l w : jsstring) :
  blank w = true -> trim (l ++ w) = trim l.
Proof.
  intro B. unfold trim. destruct (blank l) eqn:L.
  - rewrite (trimStart_blank l L).
    rewrite trimStart_blank; [reflexivity|].
    now rewrite blank_app, L, B.
  - rewrite (trimStart_app_blank _ _ L). now apply trimEnd_app_blank.
Qed.

Lemma nth_lines_between (a b j : nat) (lines : list jsstring) :
  (j < b - a)%nat ->
  nth j (lines_between a b lines) [] = nth (a + j) lines [].
Proof.
  intro Lt. unfold lines_between. rewrite nth_firstn, nth_skipn.
  apply Nat.ltb_lt in Lt. now rewrite Lt.
Qed.

(** Line [j] of a span is, up to the white space at its ends, the line
    of the snapshot it stands for, as the span shows it. *)
Lemma span_text_line (size : Z) (lines : list jsstring) (r : LineRange)
  (j : nat) :
  size <> -1 ->
  Forall (fun l => count_LF l = 0%nat) lines ->
  1 <= startLine r <= endLine r -> endLine r <= Z.of_nat (length lines) ->
  (j < length (split_newline (span_text size lines r)))%nat ->
  trim (nth j (split_newline (span_text size lines r)) [])
  = trim (shown_line size
            (nth (Z.to_nat (startLine r + Z.of_nat j - 1)) lines [])).
Proof.
  intros NE NoLF S E Lt.
  pose proof (span_text_line_count size lines r NoLF S E) as Cnt.
  unfold span_text in *.
  set (a := (Z.to_nat (startLine r) - 1)%nat) in *.
  set (b := Z.to_nat (endLine r)) in *.
  set (raw := concat (map (lineToAdd size) (lines_between a b lines))) in *.
  destruct (trimEnd_decompose raw) as (w & D & Bw).
  destruct (split_newline_prefix (trimEnd raw) w j Bw Lt) as (w' & Bw' & P).
  rewrite <- D in P. unfold raw in P at 1.
  rewrite (split_newline_concat size _ NE
             (lines_between_Forall _ _ _ _ NoLF)) in P.
  assert (j < b - a)%nat as Lj by (unfold a, b; lia).
  rewrite app_nth1 in P
    by (rewrite length_map, lines_between_length; unfold b; lia).
  rewrite (nth_indep _ [] (shown_line size [])) in P
    by (rewrite length_map, lines_between_length; unfold b; lia).
  rewrite map_nth, (nth_lines_between a b j lines Lj) in P.
  replace (Z.to_nat (startLine r + Z.of_nat j - 1)) with (a + j)%nat
    by (unfold a; lia).
  rewrite P. symmetry. now apply trim_app_blank.
Qed.

(** When no range is recorded every line is blank and not truncated. *)
Lemma no_range_all_blank (size : Z) (text : jsstring) :
  size <> -1 -> snd (split_spans size text) = [] ->
  Forall (fun l => blank (shown_line size l) = true) (split_newline text).
Proof.
  intros NE M. rewrite (split_spans_unfold _ _ NE) in M. cbv zeta in M.
  cbn [snd] in M.
  pose proof (split_loop_inv_all size (split_newline text)) as Inv.
  fold (loop_end size text) in Inv. destruct Inv as (C & _ & _ & Cur & _).
  destruct (blank (currentSpan (loop_end size text))) eqn:B.
  - destruct (split_finish_dropped size text B) as (F & _).
    rewrite F in M. rewrite M in C. simpl in C.
    assert (spanStartLineIndex (loop_end size text) = 0%nat) as Z0 by lia.
    rewrite Z0, lines_between_all in Cur. simpl in Cur. rewrite Cur in B.
    clear - B NE. induction (split_newline text) as [|l ls IH];
      [constructor|].
    simpl in B. rewrite blank_app in B. apply andb_true_iff in B as [B1 B2].
    constructor; [|auto].
    rewrite (lineToAdd_shown _ _ NE), blank_app in B1.
    now apply andb_true_iff in B1 as [B1 _].
  - destruct (split_finish_recorded size text B) as (_ & F2 & _).
    cbv zeta in F2. rewrite F2 in M. now apply app_eq_nil in M as [_ M].
Qed.

(** The text of a match is the trimmed text, as its span shows it, of the
    line of the snapshot that has the match's global line number: the
    line that [navigateToLine] marks is the line that was found. *)
Lemma match_is_global_line (size : Z) (R : RegExp) (t : Tab)
  (x : SearchMatch) :
  _snapshotSpans t = fst (split_spans size (_fullSnapshot t)) ->
  _globalLines t = split_newline (_fullSnapshot t) ->
  _spanToGlobalLineMap t = snd (split_spans size (_fullSnapshot t)) ->
  In x (matches (search_with R t)) ->
  m_line x
  = trim (shown_line size
            (nth (Z.to_nat (m_globalLineNumber x - 1)) (_globalLines t) [])).
Proof.
  intros S1 S2 S3 I. unfold search_with in I. simpl in I.
  apply search_spans_matches in I
    as [[]|(k & sp & j & N & Lt & -> & ->)].
  unfold global_line_of. rewrite S1 in N. rewrite S2, S3. clear S1 S2 S3.
  set (text := _fullSnapshot t) in *. simpl.
  destruct (Z.eq_dec size (-1)) as [->|NE].
  - unfold split_spans in *. rewrite Z.eqb_refl in *. cbn [fst snd] in *.
    destruct k as [|[|k]]; try discriminate N.
    inversion N; subst sp. cbn [nth_error startLine]. unfold shown_line.
    rewrite Z.eqb_refl.
    now replace (Z.to_nat (1 + Z.of_nat j - 1)) with j by lia.
  - destruct (split_spans_spec size text NE)
      as (e & C & Le & _ & Some_m & No_m).
    destruct (snd (split_spans size text)) as [|r0 m] eqn:M.
    + rewrite (No_m eq_refl) in N.
      destruct k as [|[|k]]; try discriminate N.
      inversion N; subst sp. simpl in Lt.
      assert (j = 0%nat) as -> by lia. simpl.
      pose proof (no_range_all_blank size text NE M) as F.
      destruct (split_newline text) as [|l ls] eqn:T;
        [now apply split_newline_nonempty in T|].
      inversion F; subst. simpl. symmetry.
      now apply trim_nil_iff_blank.
    + rewrite Some_m in N by discriminate.
      rewrite nth_error_map in N.
      destruct (nth_error (r0 :: m) k) as [r|] eqn:Rk; [|discriminate].
      simpl in N. inversion N; subst sp.
      pose proof (contiguous_nth_error _ _ _ _ _ C Rk) as B.
      apply span_text_line; auto using split_newline_no_LF; lia.
Qed.

(** C8: in every tab the methods can produce, the global line number of
    every match of [searchInSnapshot] is a line of the snapshot:
    [navigateToLine] on it succeeds, leaves the tab as it was, and renders
    a block in which that line, and no other, carries the target marker
    (it is in the block when [contextLines >= 0]); and the text of the
    match is the trimmed text of that line as its span shows it (the line
    itself, or the truncated line), for the span size of the last
    split. *)
Theorem search_lines_navigable
  (compilePattern : jsstring -> Flags -> option Matcher)
  (pattern : jsstring) (flags : option jsstring) (t : Tab)
  (res : SearchResult) (x : SearchMatch) (c : Z) :
  reachable t ->
  searchInSnapshot compilePattern pattern flags t = Some res ->
  In x (matches res) ->
  let g := m_globalLineNumber x in
  let lines := _globalLines t in
  let n := Z.of_nat (length lines) in
  let lo := Z.max 1 (g - c) in
  let hi := Z.min n (g + c) in
  1 <= g <= n
  /\ l_success (fst (navigateToLine g c t)) = true
  /\ snd (navigateToLine g c t) = t
  /\ content (fst (navigateToLine g c t))
     = join [LF] (map (rendered_line lines g)
                    (Zrange lo (Z.to_nat (hi - lo + 1))))
  /\ (0 <= c -> In g (Zrange lo (Z.to_nat (hi - lo + 1))))
  /\ rendered_line lines g g
     = js ">>> " ++ string_of_Z g ++ js ": "
         ++ nth (Z.to_nat (g - 1)) lines (js "undefined")
  /\ (forall ln, ln <> g ->
        rendered_line lines g ln
        = js "    " ++ string_of_Z ln ++ js ": "
            ++ nth (Z.to_nat (ln - 1)) lines (js "undefined"))
  /\ (exists size,
        m_line x = trim (shown_line size (nth (Z.to_nat (g - 1)) lines []))).
Proof.
  intros Reach Search I g lines n lo hi.
  unfold searchInSnapshot in Search.
  destruct (new_RegExp _ _ _) as [R|]; [|discriminate].
  inversion Search; subst res. clear Search.
  pose proof (reachable_consistent t Reach) as Con.
  assert (1 <= g <= n) as G by now apply (search_with_lines R t x).
  destruct (navigateToLine_success g c t G) as (S1 & S2 & S3 & S4).
  split; [exact G|].
  repeat match goal with |- _ /\ _ => split end; auto.
  - unfold rendered_line. now rewrite Z.eqb_refl.
  - intros ln NE. unfold rendered_line.
    apply Z.eqb_neq in NE. now rewrite NE.
  - destruct Con as [(S0 & _)|(size & E1 & E2 & E3)].
    + unfold search_with in I. rewrite S0 in I. contradiction.
    + exists size. now apply (match_is_global_line size R t x).
Qed.

Lemma search_lines_navigable_witness :
  l_success (fst (navigateToLine 1 3 two_ab_tab)) = true
  /\ content (fst (navigateToLine 1 3 two_ab_tab))
     = js ">>> 1: ab" ++ [LF] ++ js "    2: ab".
Proof.
  pose proof (search_lines_navigable literal_compile (js "ab") None
    two_ab_tab
    {| spanIndices := [0];
       matches := [{| m_spanIndex := 0; m_line := js "ab";
                      m_inSpanLineNumber := 1;
                      m_globalLineNumber := 1 |}] |}
    {| m_spanIndex := 0; m_line := js "ab"; m_inSpanLineNumber := 1;
       m_globalLineNumber := 1 |}
    3
    (reach_capture (js "ab" ++ [LF] ++ js "ab") _ (reach_new 2000))
    ltac:(vm_compute; reflexivity)
    (or_introl eq_refl)) as (_ & S1 & _ & S3 & _).
  split; [exact S1|].
  cbn [m_globalLineNumber] in S3. rewrite S3. vm_compute. reflexivity.
Defined.

(* ================================================================== *)
(** ** The Spanner: counts, texts that fit, greedy packing *)
(* ================================================================== *)

Lemma contiguous_length (m : list LineRange) (a b : Z) :
  contiguous a m b -> Z.of_nat (length m) <= b - a.
Proof.
  revert a. induction m as [|r m IH]; simpl; intros a C; [lia|].
  destruct C as (C1 & C2 & C3). specialize (IH _ C3). lia.
Qed.

(** The counts of a split: at least one span, no more spans than lines,
    no more ranges than spans, every range within the lines. *)
Lemma split_counts (size : Z) (text : jsstring) :
  let n := length (split_newline text) in
  let sp := fst (split_spans size text) in
  let m := snd (split_spans size text) in
  (1 <= length sp <= n)%nat
  /\ (length m <= length sp)%nat
  /\ (m <> [] -> length m = length sp)
  /\ (forall r, In r m -> 1 <= startLine r <= endLine r
                          /\ endLine r <= Z.of_nat n).
Proof.
  intros n sp m. pose proof (split_newline_length text) as Len. fold n in Len.
  destruct (Z.eq_dec size (-1)) as [->|NE].
  - subst sp m. unfold split_spans. rewrite Z.eqb_refl. cbn [fst snd length].
    fold n. repeat split; try lia; destruct H as [<-|[]]; simpl; lia.
  - destruct (split_spans_spec size text NE) as (e & C & Le & _ & Sm & Nm).
    fold m in C, Sm, Nm. fold sp in Sm, Nm. fold n in Le.
    pose proof (contiguous_length _ _ _ C) as CL.
    assert (forall r, In r m -> 1 <= startLine r <= endLine r
                                /\ endLine r <= Z.of_nat n) as Rng.
    { intros r I. apply In_nth_error in I as (k & N).
      pose proof (contiguous_nth_error _ _ _ _ _ C N). lia. }
    destruct m as [|r0 m'] eqn:M.
    + rewrite (Nm eq_refl). simpl. split; [lia|]. split; [lia|].
      split; [intro H; now contradiction H|exact Rng].
    + rewrite Sm by discriminate. rewrite length_map. simpl length in *.
      split; [lia|]. split; [lia|]. split; [reflexivity|exact Rng].
Qed.

(** X1: whatever the span size and the text, the Spanner returns at least
    one span and never more spans than the text has lines; it records at
    most one range per span, and exactly one per span as soon as it
    records any; every recorded range lies within [1 .. lineCount] and
    holds at least one line. *)
Theorem span_and_line_counts (size : Z) (text : jsstring) :
  let n := length (split_newline text) in
  let sp := fst (split_spans size text) in
  let m := snd (split_spans size text) in
  (1 <= length sp <= n)%nat
  /\ (length m <= length sp)%nat
  /\ (m <> [] -> length m = length sp)
  /\ (forall r, In r m -> 1 <= startLine r <= endLine r
                          /\ endLine r <= Z.of_nat n).
Proof. exact (split_counts size text). Qed.

Lemma concat_lines_LF (s : jsstring) :
  concat (map (fun l => l ++ [LF]) (split_newline s)) = s ++ [LF].
Proof.
  induction s as [|c s IH]; simpl; [reflexivity|].
  destruct (c =? LF)%N eqn:E.
  - apply N.eqb_eq in E. subst c. simpl. now rewrite IH.
  - destruct (split_newline s) as [|l ls] eqn:S0;
      [now apply split_newline_nonempty in S0|].
    simpl in *. now rewrite IH.
Qed.

Lemma line_in_concat_length (ls : list jsstring) (l : jsstring) :
  In l ls ->
  jslength (l ++ [LF]) <= jslength (concat (map (fun l => l ++ [LF]) ls)).
Proof.
  unfold jslength. induction ls as [|x ls IH]; intro I; [contradiction|].
  destruct I as [E|I]; simpl.
  - subst x. rewrite !length_app. lia.
  - specialize (IH I). rewrite !length_app in *. lia.
Qed.

(** As long as everything fits, the loop only accumulates. *)
Lemma split_loop_fits (size : Z) :
  forall (rest : list jsstring) (i : nat) (a : SplitAcc),
  (forall l, In l rest -> lineToAdd size l = l ++ [LF]) ->
  currentLength a = jslength (currentSpan a) ->
  jslength (currentSpan a)
    + jslength (concat (map (fun l => l ++ [LF]) rest)) <= size ->
  split_loop size i rest a
  = {| spans := spans a; lineMap := lineMap a;
       currentSpan :=
         currentSpan a ++ concat (map (fun l => l ++ [LF]) rest);
       currentLength :=
         jslength (currentSpan a
                   ++ concat (map (fun l => l ++ [LF]) rest));
       spanStartLineIndex := spanStartLineIndex a |}.
Proof.
  induction rest as [|line rest IH]; intros i a Fit Len Le; simpl.
  - rewrite app_nil_r, <- Len. now destruct a.
  - assert (lineToAdd size line = line ++ [LF]) as L by (apply Fit; now left).
    simpl in Le. unfold jslength in Le. rewrite !length_app in Le.
    simpl in Le.
    assert (split_step size i line a
            = {| spans := spans a; lineMap := lineMap a;
                 currentSpan := currentSpan a ++ line ++ [LF];
                 currentLength := currentLength a + jslength (line ++ [LF]);
                 spanStartLineIndex := spanStartLineIndex a |}) as St.
    { unfold split_step. rewrite L.
      replace (currentLength a + jslength (line ++ [LF]) >? size)
        with false; [reflexivity|].
      symmetry. rewrite Z.gtb_ltb. apply Z.ltb_ge.
      rewrite Len. unfold jslength. rewrite length_app. simpl. lia. }
    rewrite St, IH; simpl.
    + now rewrite <- !app_assoc.
    + intros l I. apply Fit. now right.
    + rewrite Len. unfold jslength. rewrite !length_app. simpl. lia.
    + unfold jslength. rewrite !length_app. simpl. lia.
Qed.

(** X2: a text shorter than the span size (so that it fits with its final
    line feed) is never divided: when it is not blank the only span is the
    text trimmed at the end, with the range 1..lineCount; when it is blank
    the only span is the empty string and no range is recorded. *)
Theorem text_within_budget_one_span (size : Z) (text : jsstring) :
  size <> -1 ->
  jslength text < size ->
  (blank text = false ->
   split_spans size text
   = ([trimEnd text],
      [{| startLine := 1;
          endLine := Z.of_nat (length (split_newline text)) |}]))
  /\ (blank text = true -> split_spans size text = ([[]], [])).
Proof.
  intros NE Fit.
  assert (loop_end size text
          = {| spans := []; lineMap := []; currentSpan := text ++ [LF];
               currentLength := jslength (text ++ [LF]);
               spanStartLineIndex := 0 |}) as LE.
  { unfold loop_end. rewrite split_loop_fits; simpl.
    - now rewrite concat_lines_LF.
    - intros l I. apply lineToAdd_short.
      pose proof (line_in_concat_length _ _ I) as Le.
      rewrite concat_lines_LF in Le. unfold jslength in *.
      rewrite !length_app in Le. simpl in Le. lia.
    - reflexivity.
    - rewrite concat_lines_LF. unfold jslength in *. rewrite length_app.
      simpl. lia. }
  assert (blank (text ++ [LF]) = blank text) as BL
    by (rewrite blank_app; simpl; apply andb_true_r).
  rewrite (split_spans_unfold _ _ NE). cbv zeta. split; intro B.
  - assert (blank (currentSpan (loop_end size text)) = false) as B'
      by (rewrite LE; simpl; congruence).
    destruct (split_finish_recorded size text B') as (F1 & F2 & _).
    cbv zeta in F1, F2. rewrite F1, F2, LE. simpl.
    now rewrite trimEnd_app_blank.
  - assert (blank (currentSpan (loop_end size text)) = true) as B'
      by (rewrite LE; simpl; congruence).
    destruct (split_finish_dropped size text B') as (F & _).
    rewrite F, LE. reflexivity.
Qed.

Lemma text_within_budget_one_span_witness :
  split_spans 2000 text_abc
  = ([text_abc], [{| startLine := 1; endLine := 3 |}]).
Proof.
  destruct (text_within_budget_one_span 2000 text_abc) as [H _].
  - discriminate.
  - vm_compute. reflexivity.
  - rewrite H by (vm_compute; reflexivity). vm_compute. reflexivity.
Defined.

Lemma span_raw_range (size : Z) (lines : list jsstring) (s e : nat) :
  span_raw size lines
    {| startLine := Z.of_nat s + 1; endLine := Z.of_nat e |}
  = concat (map (lineToAdd size) (lines_between s e lines)).
Proof.
  unfold span_raw. simpl.
  replace (Z.to_nat (Z.of_nat s + 1) - 1)%nat with s by lia.
  now rewrite Nat2Z.id.
Qed.

(** A range recorded in the loop is closed because the next line did not
    fit. *)
Lemma split_step_packed (size : Z) (lines : list jsstring) (i : nat)
  (line : jsstring) (a : SplitAcc) :
  nth_error lines i = Some line ->
  split_inv size lines i a ->
  Forall (next_line_overflows size lines) (lineMap a) ->
  Forall (next_line_overflows size lines)
         (lineMap (split_step size i line a)).
Proof.
  intros N (_ & _ & _ & Cur & Len & _) P. unfold split_step.
  destruct (_ && _) eqn:Cond; simpl; [|exact P].
  apply Forall_app. split; [exact P|]. constructor; [|constructor].
  apply andb_true_iff in Cond as [C _].
  rewrite Z.gtb_ltb in C. apply Z.ltb_lt in C.
  unfold next_line_overflows. rewrite span_raw_range. simpl endLine.
  rewrite Nat2Z.id, (nth_error_nth _ _ _ N), <- Cur, <- Len. exact C.
Qed.

Lemma split_loop_packed (size : Z) (lines : list jsstring) :
  forall (rest done : list jsstring) (a : SplitAcc),
  lines = done ++ rest ->
  split_inv size lines (length done) a ->
  Forall (next_line_overflows size lines) (lineMap a) ->
  Forall (next_line_overflows size lines)
         (lineMap (split_loop size (length done) rest a)).
Proof.
  induction rest as [|line rest IH]; intros done a E Inv P; simpl;
    [exact P|].
  assert (nth_error lines (length done) = Some line) as N
    by (subst lines; rewrite nth_error_app2, Nat.sub_diag; auto).
  replace (S (length done)) with (length (done ++ [line]))
    by (rewrite length_app; simpl; lia).
  apply IH.
  - now rewrite <- app_assoc.
  - rewrite length_app. simpl. rewrite Nat.add_1_r.
    now apply split_step_inv.
  - now apply split_step_packed.
Qed.

(** X3: the Spanner packs greedily.  For a span size other than -1, every
    recorded range that does not end at the last line was closed because
    the next line did not fit: the text accumulated for the range, with
    what the next line contributes, is longer than the span size. *)
Theorem spans_packed_greedily (size : Z) (text : jsstring) (r : LineRange) :
  size <> -1 ->
  In r (snd (split_spans size text)) ->
  endLine r < Z.of_nat (length (split_newline text)) ->
  size < jslength (span_raw size (split_newline text) r)
         + jslength (lineToAdd size
                       (nth (Z.to_nat (endLine r)) (split_newline text) [])).
Proof.
  intros NE I Lt.
  pose proof (split_loop_packed size (split_newline text)
                (split_newline text) [] split_init eq_refl
                (split_inv_init _ _) (Forall_nil _)) as P.
  simpl length in P. fold (loop_end size text) in P.
  rewrite Forall_forall in P. apply P.
  rewrite (split_spans_unfold _ _ NE) in I. cbv zeta in I. cbn [snd] in I.
  unfold split_finish in I. destruct (_ <? _); [|exact I].
  simpl in I. apply in_app_or in I as [I|[<-|[]]]; [exact I|].
  simpl in Lt. lia.
Qed.

Lemma spans_packed_greedily_witness :
  100 < jslength (span_raw 100 (split_newline text_with_long_line)
                    {| startLine := 1; endLine := 2 |})
        + jslength (lineToAdd 100
                      (nth 2 (split_newline text_with_long_line) [])).
Proof.
  apply (spans_packed_greedily 100 text_with_long_line
           {| startLine := 1; endLine := 2 |}).
  - discriminate.
  - vm_compute. left. reflexivity.
  - vm_compute. reflexivity.
Defined.

(* ================================================================== *)
(** ** The tab state: what the methods keep *)
(* ================================================================== *)

Lemma reachable_size_nonzero (t : Tab) :
  reachable t -> _snapshotSpanSize t <> 0.
Proof.
  induction 1 as [s|t R IH|size t R IH|text t R IH|i t R IH|m t R IH|m t R IH];
    try exact IH.
  - simpl. destruct (Z.eqb_spec s 0); lia.
  - unfold setSnapshotSpanSize. cbv zeta. cbn [_fullSnapshot].
    destruct (truthy (_fullSnapshot t)); unfold _splitSnapshotIntoSpans;
      simpl; destruct (Z.eqb_spec size (-1)); lia.
  - unfold captureSnapshot. destruct (_modalStates t); [|exact IH].
    unfold update_snapshot.
    destruct (jsstring_eqb (_fullSnapshot t) text); [exact IH|].
    unfold _splitSnapshotIntoSpans. simpl. exact IH.
  - unfold navigateToSpan. destruct (_ =? 0); exact IH.
Qed.

(** X4: what holds in every tab the methods can produce.  The cursor is
    not negative and, when there are spans, below the span count; the span
    size is never 0; there are spans exactly when there are lines; there
    are never more ranges than spans nor more spans than lines; and every
    recorded range lies within [1 .. lineCount]. *)
Theorem reachable_tab_invariants (t : Tab) :
  reachable t ->
  0 <= getCurrentSpanIndex t
  /\ (getTotalSpans t <> 0 -> getCurrentSpanIndex t < getTotalSpans t)
  /\ getSnapshotSpanSize t <> 0
  /\ (_snapshotSpans t = [] <-> _globalLines t = [])
  /\ (length (_spanToGlobalLineMap t) <= length (_snapshotSpans t)
      <= length (_globalLines t))%nat
  /\ (forall r, In r (_spanToGlobalLineMap t) ->
        1 <= startLine r <= endLine r
        /\ endLine r <= Z.of_nat (length (_globalLines t))).
Proof.
  intro R. destruct (reachable_cursor_in_bounds t R) as [C1 C2].
  unfold getCurrentSpanIndex, getTotalSpans, getSnapshotSpanSize.
  split; [exact C1|]. split.
  { intro NZ. apply C2. intro E. rewrite E in NZ. now apply NZ. }
  split; [now apply reachable_size_nonzero|].
  destruct (reachable_consistent t R) as [(S0 & L0 & M0)|(size & S1 & S2 & S3)].
  - rewrite S0, L0, M0. simpl. split; [tauto|]. split; [lia|].
    intros r [].
  - rewrite S1, S2, S3.
    destruct (split_counts size (_fullSnapshot t)) as (A & B & _ & D).
    split; [|split; [lia|exact D]].
    split; intro E; rewrite E in A; simpl in A; lia.
Qed.

Lemma reachable_tab_invariants_witness :
  0 <= getCurrentSpanIndex three_span_tab
  /\ (getTotalSpans three_span_tab <> 0 ->
      getCurrentSpanIndex three_span_tab < getTotalSpans three_span_tab).
Proof.
  destruct (reachable_tab_invariants three_span_tab) as (A & B & _).
  - exact (reach_navigate 1 _ (reach_capture text_abc _ (reach_new 6))).
  - split; [exact A|exact B].
Defined.

(** X5: [setSnapshotSpanSize].  The size stored is -1 or at least 100 (a
    smaller size counts as 100); setting the same size twice is setting it
    once; the text and the modal states are kept.  With a snapshot that is
    not empty the spans, the lines and the line map are those of the split
    at the new size and the cursor is cut down to the last span; in
    particular size -1 gives the one span that is the whole text, with the
    range 1..lineCount.  With an empty snapshot only the size changes. *)
Theorem setSnapshotSpanSize_resplits (size : Z) (t : Tab) :
  let t' := setSnapshotSpanSize size t in
  let size' := if size =? -1 then -1 else Z.max 100 size in
  getSnapshotSpanSize t' = size'
  /\ (size' = -1 \/ 100 <= size')
  /\ setSnapshotSpanSize size t' = t'
  /\ (size <> -1 -> size <= 100 -> t' = setSnapshotSpanSize 100 t)
  /\ _fullSnapshot t' = _fullSnapshot t
  /\ _modalStates t' = _modalStates t
  /\ (_fullSnapshot t <> [] ->
      _snapshotSpans t' = fst (split_spans size' (_fullSnapshot t))
      /\ _globalLines t' = split_newline (_fullSnapshot t)
      /\ _spanToGlobalLineMap t' = snd (split_spans size' (_fullSnapshot t))
      /\ _currentSpanIndex t'
         = Z.min (_currentSpanIndex t) (getTotalSpans t' - 1))
  /\ (_fullSnapshot t <> [] -> size = -1 ->
      _snapshotSpans t' = [_fullSnapshot t]
      /\ _spanToGlobalLineMap t'
         = [{| startLine := 1;
               endLine := Z.of_nat (length (_globalLines t')) |}])
  /\ (_fullSnapshot t = [] ->
      _snapshotSpans t' = _snapshotSpans t
      /\ _globalLines t' = _globalLines t
      /\ _spanToGlobalLineMap t' = _spanToGlobalLineMap t
      /\ _currentSpanIndex t' = _currentSpanIndex t).
Proof.
  intros t' size'.
  assert (truthy_iff : forall s, truthy s = true <-> s <> [])
    by (intros [|c s]; simpl; split; congruence).
  assert (getSnapshotSpanSize t' = size') as Sz.
  { unfold t', setSnapshotSpanSize, getSnapshotSpanSize. cbv zeta.
    cbn [_fullSnapshot]. destruct (truthy (_fullSnapshot t)); reflexivity. }
  assert (_fullSnapshot t' = _fullSnapshot t) as Fu.
  { unfold t', setSnapshotSpanSize. cbv zeta. cbn [_fullSnapshot].
    destruct (truthy (_fullSnapshot t)); reflexivity. }
  split; [exact Sz|]. split.
  { unfold size'. destruct (Z.eqb_spec size (-1)); lia. }
  split.
  { unfold t' at 2. unfold setSnapshotSpanSize at 1. cbv zeta.
    cbn [_fullSnapshot]. rewrite Fu.
    unfold t', setSnapshotSpanSize. cbv zeta. cbn [_fullSnapshot].
    destruct (truthy (_fullSnapshot t)); unfold _splitSnapshotIntoSpans;
      simpl; [|reflexivity].
    f_equal. lia. }
  split.
  { intros N1 L100. unfold t', setSnapshotSpanSize. cbv zeta.
    apply Z.eqb_neq in N1. rewrite N1. simpl (100 =? -1).
    now replace (Z.max 100 size) with (Z.max 100 100) by lia. }
  split; [exact Fu|]. split.
  { unfold t', setSnapshotSpanSize. cbv zeta. cbn [_fullSnapshot].
    destruct (truthy (_fullSnapshot t)); reflexivity. }
  assert (_fullSnapshot t <> [] ->
      _snapshotSpans t' = fst (split_spans size' (_fullSnapshot t))
      /\ _globalLines t' = split_newline (_fullSnapshot t)
      /\ _spanToGlobalLineMap t' = snd (split_spans size' (_fullSnapshot t))
      /\ _currentSpanIndex t'
         = Z.min (_currentSpanIndex t) (getTotalSpans t' - 1)) as Re.
  { intro NE. apply truthy_iff in NE.
    unfold getTotalSpans, t', setSnapshotSpanSize. cbv zeta.
    cbn [_fullSnapshot]. rewrite NE. unfold _splitSnapshotIntoSpans. simpl.
    repeat split. }
  split; [exact Re|]. split.
  - intros NE E. destruct (Re NE) as (R1 & R2 & R3 & _).
    rewrite R1, R3, R2. unfold size'. subst size. simpl (-1 =? -1).
    unfold split_spans. simpl. split; reflexivity.
  - intro E. unfold t', setSnapshotSpanSize. cbv zeta. cbn [_fullSnapshot].
    rewrite E. simpl. repeat split.
Qed.

(** X6: capturing is stable.  Capturing the same text a second time
    changes nothing; capturing the text the tab already holds changes
    nothing, also after a span navigation: the cursor stays where the
    navigation put it. *)
Theorem recapture_is_stable (text : jsstring) (i : Z) (t : Tab) :
  captureSnapshot text (captureSnapshot text t) = captureSnapshot text t
  /\ captureSnapshot (_fullSnapshot t) t = t
  /\ captureSnapshot (_fullSnapshot t) (snd (navigateToSpan i t))
     = snd (navigateToSpan i t).
Proof.
  assert (forall u, captureSnapshot (_fullSnapshot u) u = u) as Same.
  { intro u. unfold captureSnapshot, update_snapshot.
    destruct (_modalStates u); [|reflexivity].
    now rewrite (proj2 (jsstring_eqb_true _ _) eq_refl). }
  split; [|split; [apply Same|]].
  - destruct (_modalStates t) eqn:M.
    + assert (captureSnapshot text t = update_snapshot text t) as C1
        by (unfold captureSnapshot; now rewrite M).
      rewrite C1.
      destruct (list_eq_dec N.eq_dec (_fullSnapshot t) text) as [E|NE].
      * subst text.
        assert (update_snapshot (_fullSnapshot t) t = t) as U
          by (unfold update_snapshot;
              now rewrite (proj2 (jsstring_eqb_true _ _) eq_refl)).
        rewrite U. apply Same.
      * rewrite (update_snapshot_changed _ _ NE). cbv zeta.
        unfold captureSnapshot, update_snapshot. simpl. rewrite M.
        now rewrite (proj2 (jsstring_eqb_true _ _) eq_refl).
    + unfold captureSnapshot. rewrite M. now rewrite M.
  - assert (_fullSnapshot (snd (navigateToSpan i t)) = _fullSnapshot t) as E
      by (unfold navigateToSpan; destruct (_ =? 0); reflexivity).
    rewrite <- E. apply Same.
Qed.

Lemma split_spans_empty_text (size : Z) :
  1 <= size -> split_spans size [] = ([[]], []).
Proof.
  intro S. unfold split_spans. simpl split_newline.
  destruct (Z.eqb_spec size (-1)); [lia|].
  unfold split_loop, split_step, split_init, lineToAdd, jslength. simpl.
  destruct (Z.gtb_spec 1 size); [lia|]. simpl.
  destruct (Z.gtb_spec 1 size); [lia|]. reflexivity.
Qed.

(** X7: the empty snapshot.  On a tab without modal state and with a span
    size of at least 1: when the text the tab holds is empty, capturing the
    empty text changes nothing; so a tab that has no span (a new tab, or
    one that was reset) still has none and span navigation fails.  When
    the tab holds a text, capturing the empty text leaves one span, the
    empty string, one empty line, no range, and the cursor at 0; the tab
    then holds the empty text and still has that span: span navigation
    succeeds at every index and returns the empty string, and capturing
    the empty text once more changes nothing. *)
Theorem empty_snapshot_edge (t : Tab) :
  _modalStates t = [] ->
  1 <= _snapshotSpanSize t ->
  (_fullSnapshot t = [] ->
   captureSnapshot [] t = t)
  /\ (_fullSnapshot t = [] -> _snapshotSpans t = [] ->
      getTotalSpans (captureSnapshot [] t) = 0
      /\ success (fst (navigateToSpan 0 (captureSnapshot [] t))) = false)
  /\ (_fullSnapshot t <> [] ->
      _snapshotSpans (captureSnapshot [] t) = [[]]
      /\ _globalLines (captureSnapshot [] t) = [[]]
      /\ _spanToGlobalLineMap (captureSnapshot [] t) = []
      /\ (0 <= _currentSpanIndex t ->
          _currentSpanIndex (captureSnapshot [] t) = 0)
      /\ _fullSnapshot (captureSnapshot [] t) = []
      /\ (forall i,
            success (fst (navigateToSpan i (captureSnapshot [] t))) = true
            /\ span (fst (navigateToSpan i (captureSnapshot [] t))) = []
            /\ spanIndex (fst (navigateToSpan i (captureSnapshot [] t))) = 0)
      /\ captureSnapshot [] (captureSnapshot [] t) = captureSnapshot [] t).
Proof.
  intros M S.
  assert (captureSnapshot [] t = update_snapshot [] t) as C
    by (unfold captureSnapshot; now rewrite M).
  rewrite C.
  assert (forall u, _fullSnapshot u = [] -> update_snapshot [] u = u) as Same.
  { intros u E. unfold update_snapshot.
    now rewrite (proj2 (jsstring_eqb_true _ _) E). }
  split; [apply Same|]. split.
  - intros E N. rewrite (Same t E). unfold getTotalSpans, navigateToSpan.
    rewrite N. simpl. split; reflexivity.
  - intro NE.
    assert (_snapshotSpans (update_snapshot [] t) = [[]]
            /\ _globalLines (update_snapshot [] t) = [[]]
            /\ _spanToGlobalLineMap (update_snapshot [] t) = []
            /\ _fullSnapshot (update_snapshot [] t) = []
            /\ _modalStates (update_snapshot [] t) = []) as (Sp & Gl & Lm & Fu & Mo).
    { rewrite (update_snapshot_changed _ _ NE). cbv zeta.
      rewrite (split_spans_empty_text _ S). simpl. now rewrite M. }
    split; [exact Sp|]. split; [exact Gl|]. split; [exact Lm|]. split.
    { intro P. rewrite (update_snapshot_changed _ _ NE). cbv zeta.
      rewrite (split_spans_empty_text _ S). simpl.
      pose proof (reconciled_cursor_bounds [[]] (_snapshotSpans t)
                    (_currentSpanIndex t) P). lia. }
    split; [exact Fu|]. split.
    + intro i. unfold navigateToSpan. rewrite Sp. simpl.
      replace (Z.max 0 (Z.min i 0)) with 0 by lia. simpl. auto.
    + unfold captureSnapshot at 1. rewrite Mo. now apply Same.
Qed.

Lemma empty_snapshot_edge_witness :
  getTotalSpans (captureSnapshot [] (new_Tab 2000)) = 0
  /\ _snapshotSpans (captureSnapshot [] two_ab_tab) = [[]]
  /\ success (fst (navigateToSpan 0 (captureSnapshot [] two_ab_tab))) = true.
Proof.
  assert (1 <= 2000) as S by lia.
  destruct (empty_snapshot_edge (new_Tab 2000) eq_refl S) as (_ & A & _).
  destruct (empty_snapshot_edge two_ab_tab eq_refl S) as (_ & _ & B).
  split; [now apply A|].
  destruct B as (B1 & _ & _ & _ & _ & B2 & _); [vm_compute; discriminate|].
  split; [exact B1|apply B2].
Defined.

(* ================================================================== *)
(** ** Span navigation: how the methods compose *)
(* ================================================================== *)

Lemma navigateToSpan_in_range (i : Z) (t : Tab) :
  0 <= i < Z.of_nat (length (_snapshotSpans t)) ->
  navigateToSpan i t
  = ({| success := true;
        span := nth (Z.to_nat i) (_snapshotSpans t) [];
        spanIndex := i;
        totalSpans := Z.of_nat (length (_snapshotSpans t)) |},
     set_currentSpanIndex i t).
Proof.
  intro R. unfold navigateToSpan.
  destruct (Z.eqb_spec (Z.of_nat (length (_snapshotSpans t))) 0); [lia|].
  now replace (Z.max 0 (Z.min i (Z.of_nat (length (_snapshotSpans t)) - 1)))
    with i by lia.
Qed.

Lemma set_currentSpanIndex_twice (i j : Z) (t : Tab) :
  set_currentSpanIndex i (set_currentSpanIndex j t) = set_currentSpanIndex i t.
Proof. reflexivity. Qed.

(** X8: span navigation on a tab whose cursor is within its spans.
    Navigating to the current index returns the current span and changes
    nothing; below the last span, next followed by prev comes back to the
    same tab, and next returns the span after the current one; above the
    first span, prev followed by next comes back to the same tab. *)
Theorem next_prev_round_trip (t : Tab) :
  0 <= getCurrentSpanIndex t < getTotalSpans t ->
  let c := getCurrentSpanIndex t in
  navigateToSpan c t
  = ({| success := true;
        span := nth (Z.to_nat c) (_snapshotSpans t) [];
        spanIndex := c; totalSpans := getTotalSpans t |}, t)
  /\ (c + 1 < getTotalSpans t ->
      span (fst (navigateToNextSpan t))
      = nth (Z.to_nat (c + 1)) (_snapshotSpans t) []
      /\ snd (navigateToPrevSpan (snd (navigateToNextSpan t))) = t)
  /\ (1 <= c ->
      span (fst (navigateToPrevSpan t))
      = nth (Z.to_nat (c - 1)) (_snapshotSpans t) []
      /\ snd (navigateToNextSpan (snd (navigateToPrevSpan t))) = t).
Proof.
  intros B c. subst c. unfold getCurrentSpanIndex, getTotalSpans in *.
  split; [|split].
  - rewrite navigateToSpan_in_range by exact B.
    now rewrite set_currentSpanIndex_same.
  - intro Lt. unfold navigateToNextSpan, navigateToPrevSpan.
    rewrite (navigateToSpan_in_range (_currentSpanIndex t + 1) t) by lia.
    cbn [fst snd span]. split; [reflexivity|].
    rewrite navigateToSpan_in_range; cbn [_currentSpanIndex set_currentSpanIndex
      _snapshotSpans]; [|lia].
    cbn [snd]. rewrite set_currentSpanIndex_twice.
    replace (_currentSpanIndex t + 1 - 1) with (_currentSpanIndex t) by lia.
    apply set_currentSpanIndex_same.
  - intro Ge. unfold navigateToNextSpan, navigateToPrevSpan.
    rewrite (navigateToSpan_in_range (_currentSpanIndex t - 1) t) by lia.
    cbn [fst snd span]. split; [reflexivity|].
    rewrite navigateToSpan_in_range; cbn [_currentSpanIndex set_currentSpanIndex
      _snapshotSpans]; [|lia].
    cbn [snd]. rewrite set_currentSpanIndex_twice.
    replace (_currentSpanIndex t - 1 + 1) with (_currentSpanIndex t) by lia.
    apply set_currentSpanIndex_same.
Qed.

Lemma next_prev_round_trip_witness :
  snd (navigateToPrevSpan (snd (navigateToNextSpan three_span_tab)))
  = three_span_tab.
Proof.
  destruct (next_prev_round_trip three_span_tab) as (_ & A & _).
  - vm_compute. split; [discriminate|reflexivity].
  - apply A. vm_compute. reflexivity.
Defined.

(* ================================================================== *)
(** ** The search: what holds for every flag *)
(* ================================================================== *)

Lemma scan_some (m : Matcher) (str : jsstring) :
  forall (fuel i e : nat),
  scan m str fuel i = Some e ->
  exists p, (i <= p <= i + fuel)%nat /\ m str p = Some e.
Proof.
  induction fuel as [|fuel IH]; intros i e H; simpl in H.
  - destruct (m str i) eqn:M; [|discriminate].
    exists i. split; [lia|congruence].
  - destruct (m str i) eqn:M.
    + exists i. split; [lia|congruence].
    + apply IH in H as (p & B & H). exists p. split; [lia|exact H].
Qed.

Lemma scan_finds (m : Matcher) (str : jsstring) (p e : nat) :
  m str p = Some e ->
  forall (fuel i : nat), (i <= p <= i + fuel)%nat ->
  scan m str fuel i <> None.
Proof.
  intros M. induction fuel as [|fuel IH]; intros i B; simpl.
  - assert (i = p) as -> by lia. now rewrite M.
  - destruct (m str i) eqn:Mi; [discriminate|].
    apply IH. destruct (Nat.eq_dec i p) as [->|]; [congruence|lia].
Qed.

(** A successful [test] means that the pattern matches the string. *)
Lemma RegExp_test_true (R : RegExp) (str : jsstring) :
  fst (RegExp_test R str) = true ->
  pattern_matches (rx_matcher R) str = true.
Proof.
  unfold RegExp_test, pattern_matches.
  set (start := if rx_global R || rx_sticky R then lastIndex R else 0%nat).
  destruct (Nat.ltb_spec (length str) start) as [|Le]; [discriminate|].
  intro H.
  assert (exists p e, (p <= length str)%nat /\ rx_matcher R str p = Some e)
    as (p & e & B & M).
  { destruct (rx_sticky R).
    - destruct (rx_matcher R str start) as [e|] eqn:M; [|discriminate].
      exists start, e. auto.
    - destruct (scan (rx_matcher R) str (length str - start) start)
        as [e|] eqn:Sc; [|discriminate].
      apply scan_some in Sc as (p & B & M). exists p, e. split; [lia|exact M]. }
  pose proof (scan_finds _ _ _ _ M (length str) 0%nat) as F.
  destruct (scan (rx_matcher R) str (length str) 0); [reflexivity|].
  exfalso. apply F; [lia|reflexivity].
Qed.

Lemma RegExp_test_matcher (R : RegExp) (str : jsstring) :
  rx_matcher (snd (RegExp_test R str)) = rx_matcher R.
Proof.
  unfold RegExp_test.
  destruct (_ <? _)%nat; [destruct (_ || _); reflexivity|].
  destruct (if rx_sticky R then _ else _); destruct (_ || _); reflexivity.
Qed.

Lemma search_lines_sound (spanIndex : nat) (range : option LineRange) :
  forall (ls : list jsstring) (lineIndex : nat) (h : bool) (a : SearchAcc),
  rx_matcher (sa_regex (snd (search_lines spanIndex range lineIndex ls h a)))
    = rx_matcher (sa_regex a)
  /\ forall x,
     In x (sa_matches (snd (search_lines spanIndex range lineIndex ls h a))) ->
     In x (sa_matches a)
     \/ exists j line,
          nth_error ls j = Some line
          /\ m_spanIndex x = Z.of_nat spanIndex
          /\ m_inSpanLineNumber x = Z.of_nat (lineIndex + j) + 1
          /\ m_line x = trim line
          /\ pattern_matches (rx_matcher (sa_regex a)) line = true.
Proof.
  induction ls as [|line rest IH]; intros lineIndex h a; simpl;
    [split; [reflexivity|now left]|].
  pose proof (RegExp_test_true (sa_regex a) line) as T.
  pose proof (RegExp_test_matcher (sa_regex a) line) as Mt.
  destruct (RegExp_test (sa_regex a) line) as [found R]. simpl in T, Mt.
  destruct found.
  - match goal with |- context [search_lines _ _ _ _ true ?a1] =>
      destruct (IH (S lineIndex) true a1) as [E S1] end.
    simpl in E. split; [congruence|]. intros x I.
    apply S1 in I as [I|(j & l & N & P1 & P2 & P3 & P4)]; simpl in *.
    + apply in_app_or in I as [I|[<-|[]]]; [now left|].
      right. exists 0%nat, line. simpl. rewrite Nat.add_0_r.
      repeat split; auto.
    + right. exists (S j), l. simpl.
      replace (lineIndex + S j)%nat with (S (lineIndex + j)) by lia.
      rewrite Mt in P4. repeat split; auto.
  - match goal with |- context [search_lines _ _ _ _ h ?a1] =>
      destruct (IH (S lineIndex) h a1) as [E S1] end.
    simpl in E. split; [congruence|]. intros x I.
    apply S1 in I as [I|(j & l & N & P1 & P2 & P3 & P4)]; simpl in *.
    + now left.
    + right. exists (S j), l. simpl.
      replace (lineIndex + S j)%nat with (S (lineIndex + j)) by lia.
      rewrite Mt in P4. repeat split; auto.
Qed.

Lemma search_spans_sound (lineMap : list LineRange) :
  forall (sps : list jsstring) (spanIndex : nat) (a : SearchAcc),
  rx_matcher (sa_regex (search_spans lineMap spanIndex sps a))
    = rx_matcher (sa_regex a)
  /\ forall x,
     In x (sa_matches (search_spans lineMap spanIndex sps a)) ->
     In x (sa_matches a)
     \/ exists k sp j line,
          nth_error sps k = Some sp
          /\ nth_error (split_newline sp) j = Some line
          /\ m_spanIndex x = Z.of_nat (spanIndex + k)
          /\ m_inSpanLineNumber x = Z.of_nat j + 1
          /\ m_line x = trim line
          /\ pattern_matches (rx_matcher (sa_regex a)) line = true.
Proof.
  induction sps as [|sp rest IH]; intros spanIndex a; simpl;
    [split; [reflexivity|now left]|].
  destruct (search_lines_sound spanIndex (nth_error lineMap spanIndex)
              (split_newline sp) 0 false a) as [E1 S1].
  destruct (search_lines spanIndex (nth_error lineMap spanIndex) 0
              (split_newline sp) false a) as [h a1]. simpl in E1, S1.
  match goal with |- context [search_spans _ _ _ ?a2] =>
    destruct (IH (S spanIndex) a2) as [E2 S2];
    assert (rx_matcher (sa_regex a2) = rx_matcher (sa_regex a)) as E3
      by (destruct h; exact E1);
    assert (sa_matches a2 = sa_matches a1) as E4 by (destruct h; reflexivity)
  end.
  split; [congruence|]. intros x I.
  apply S2 in I as [I|(k & sp' & j & l & N1 & N2 & P1 & P2 & P3 & P4)].
  - rewrite E4 in I.
    apply S1 in I as [I|(j & l & N & P1 & P2 & P3 & P4)]; [now left|].
    right. exists 0%nat, sp, j, l. rewrite Nat.add_0_r. simpl. auto 10.
  - right. exists (S k), sp', j, l.
    replace (spanIndex + S k)%nat with (S spanIndex + k)%nat by lia.
    rewrite E3 in P4. simpl. auto 10.
Qed.

(** X9: the search reports no line that the pattern does not match.  The
    pattern is compiled with the flags that were passed, or with [g] and
    [i] when none or the empty string was passed.  Every match returned
    stands for a line of a span: its span index and its 1-based line
    number in the span are those of the line, its text is the line
    trimmed, and the pattern compiled with these flags matches that
    line. *)
Theorem search_reports_matching_lines
  (compilePattern : jsstring -> Flags -> option Matcher)
  (pattern : jsstring) (flags : option jsstring) (t : Tab)
  (res : SearchResult) :
  searchInSnapshot compilePattern pattern flags t = Some res ->
  exists f m,
    match flags with
    | Some (c :: fl) => parse_flags (c :: fl) = Some f
    | _ => f = {| hasIndices := false; global := true; ignoreCase := true;
                  multiline := false; dotAll := false; unicode := false;
                  unicodeSets := false; sticky := false |}
    end
    /\ compilePattern pattern f = Some m
    /\ forall x, In x (matches res) ->
       exists k sp j line,
         nth_error (_snapshotSpans t) k = Some sp
         /\ nth_error (split_newline sp) j = Some line
         /\ m_spanIndex x = Z.of_nat k
         /\ m_inSpanLineNumber x = Z.of_nat j + 1
         /\ m_line x = trim line
         /\ pattern_matches m line = true.
Proof.
  unfold searchInSnapshot, new_RegExp. intro H.
  destruct (parse_flags _) as [f|] eqn:P; [|discriminate].
  destruct (compilePattern pattern f) as [m|] eqn:C; [|discriminate].
  inversion H; subst res. exists f, m. split.
  { destruct flags as [[|c fl]|]; try exact P;
      vm_compute in P; now inversion P. }
  split; [exact C|].
  intros x I. unfold search_with in I. simpl in I.
  match type of I with In _ (sa_matches (search_spans ?lm ?i ?s ?a)) =>
    destruct (search_spans_sound lm s i a) as [_ S1] end.
  apply S1 in I as [[]|(k & sp & j & l & N1 & N2 & P1 & P2 & P3 & P4)].
  exists k, sp, j, l. simpl in *. auto 10.
Qed.

Lemma search_reports_matching_lines_witness :
  searchInSnapshot literal_compile (js "ab") (Some (js "g")) mixed_case_tab
  = Some {| spanIndices := [0; 1];
            matches := [{| m_spanIndex := 0; m_line := js "ab";
                           m_inSpanLineNumber := 2;
                           m_globalLineNumber := 2 |};
                        {| m_spanIndex := 1; m_line := js "ab";
                           m_inSpanLineNumber := 2;
                           m_globalLineNumber := 4 |}] |}
  /\ exists f m,
    parse_flags (js "g") = Some f
    /\ literal_compile (js "ab") f = Some m
    /\ forall x,
       In x [{| m_spanIndex := 0; m_line := js "ab";
                m_inSpanLineNumber := 2; m_globalLineNumber := 2 |};
             {| m_spanIndex := 1; m_line := js "ab";
                m_inSpanLineNumber := 2; m_globalLineNumber := 4 |}] ->
       exists k sp j line,
         nth_error (_snapshotSpans mixed_case_tab) k = Some sp
         /\ nth_error (split_newline sp) j = Some line
         /\ m_spanIndex x = Z.of_nat k
         /\ m_inSpanLineNumber x = Z.of_nat j + 1
         /\ m_line x = trim line
         /\ pattern_matches m line = true.
Proof.
  assert (searchInSnapshot literal_compile (js "ab") (Some (js "g"))
            mixed_case_tab
          = Some {| spanIndices := [0; 1];
                    matches := [{| m_spanIndex := 0; m_line := js "ab";
                                   m_inSpanLineNumber := 2;
                                   m_globalLineNumber := 2 |};
                                {| m_spanIndex := 1; m_line := js "ab";
                                   m_inSpanLineNumber := 2;
                                   m_globalLineNumber := 4 |}] |}) as E
    by (vm_compute; reflexivity).
  split; [exact E|].
  exact (search_reports_matching_lines literal_compile (js "ab")
           (Some (js "g")) mixed_case_tab _ E).
Defined.

Lemma StronglySorted_app {A} (R : A -> A -> Prop) (a b : list A) :
  StronglySorted R a -> StronglySorted R b ->
  (forall x y, In x a -> In y b -> R x y) ->
  StronglySorted R (a ++ b).
Proof.
  induction a as [|x a IH]; intros Sa Sb H; simpl; [exact Sb|].
  inversion Sa as [|? ? Sa' Fa]; subst. constructor.
  - apply IH; auto. intros; apply H; simpl; auto.
  - apply Forall_app. split; [exact Fa|].
    apply Forall_forall. intros y Iy. apply H; simpl; auto.
Qed.

(** What the inner loop adds: matches of this span, in line order, after
    line [lineIndex]; [hasMatch] tells whether there is one. *)
Lemma search_lines_adds (spanIndex : nat) (range : option LineRange) :
  forall (ls : list jsstring) (lineIndex : nat) (h : bool) (a : SearchAcc),
  exists new,
    sa_matches (snd (search_lines spanIndex range lineIndex ls h a))
      = sa_matches a ++ new
    /\ sa_spanIndices (snd (search_lines spanIndex range lineIndex ls h a))
       = sa_spanIndices a
    /\ fst (search_lines spanIndex range lineIndex ls h a)
       = (h || match new with [] => false | _ => true end)
    /\ StronglySorted match_before new
    /\ Forall (fun x => m_spanIndex x = Z.of_nat spanIndex
                        /\ Z.of_nat lineIndex < m_inSpanLineNumber x) new.
Proof.
  induction ls as [|line rest IH]; intros lineIndex h a; simpl.
  - exists []. rewrite app_nil_r, orb_false_r. repeat split; constructor.
  - destruct (RegExp_test (sa_regex a) line) as [found R]. destruct found.
    + match goal with |- context [search_lines _ _ _ _ true ?a1] =>
        destruct (IH (S lineIndex) true a1) as (new & E1 & E2 & E3 & S1 & F1)
      end.
      simpl in E1, E2.
      match type of E1 with _ = (_ ++ [?x0]) ++ _ => exists (x0 :: new) end.
      rewrite E1, E2, E3, <- app_assoc. simpl. rewrite orb_true_r.
      repeat split.
      * constructor; [exact S1|].
        eapply Forall_impl; [|exact F1]. intros y [Y1 Y2].
        right. simpl. split; [auto|lia].
      * constructor; [simpl; split; [reflexivity|lia]|].
        eapply Forall_impl; [|exact F1]. intros y [Y1 Y2]. split; [auto|lia].
    + match goal with |- context [search_lines _ _ _ _ h ?a1] =>
        destruct (IH (S lineIndex) h a1) as (new & E1 & E2 & E3 & S1 & F1)
      end.
      simpl in E1, E2. exists new. rewrite E1, E2, E3.
      repeat split; auto.
      eapply Forall_impl; [|exact F1]. intros y [Y1 Y2]. split; [auto|lia].
Qed.

(** What the outer loop adds: matches in span order then line order, and
    the indices, in order, of the spans that have one. *)
Lemma search_spans_adds (lineMap : list LineRange) :
  forall (sps : list jsstring) (spanIndex : nat) (a : SearchAcc),
  exists new newidx,
    sa_matches (search_spans lineMap spanIndex sps a) = sa_matches a ++ new
    /\ sa_spanIndices (search_spans lineMap spanIndex sps a)
       = sa_spanIndices a ++ newidx
    /\ StronglySorted match_before new
    /\ StronglySorted Z.lt newidx
    /\ Forall (fun x => Z.of_nat spanIndex <= m_spanIndex x) new
    /\ Forall (fun k => Z.of_nat spanIndex <= k) newidx
    /\ (forall k, In k newidx <-> exists x, In x new /\ m_spanIndex x = k).
Proof.
  induction sps as [|sp rest IH]; intros spanIndex a; simpl.
  - exists [], []. rewrite !app_nil_r.
    repeat split; try constructor; try contradiction.
    intros (x & [] & _).
  - destruct (search_lines_adds spanIndex (nth_error lineMap spanIndex)
                (split_newline sp) 0 false a)
      as (new1 & E1 & E2 & E3 & S1 & F1).
    destruct (search_lines spanIndex (nth_error lineMap spanIndex) 0
                (split_newline sp) false a) as [h a1].
    simpl in E1, E2, E3.
    match goal with |- context [search_spans _ _ _ ?a2] =>
      destruct (IH (S spanIndex) a2) as (new2 & idx2 & G1 & G2 & T1 & T2
                                         & H1 & H2 & H3) end.
    exists (new1 ++ new2),
           ((if h then [Z.of_nat spanIndex] else []) ++ idx2).
    assert (forall x y, In x new1 -> In y new2 -> match_before x y) as Cross.
    { intros x y Ix Iy. rewrite Forall_forall in F1, H1.
      destruct (F1 x Ix) as [X1 _]. specialize (H1 y Iy). left. lia. }
    rewrite G1, G2.
    split; [destruct h; simpl; rewrite E1, app_assoc; reflexivity|].
    split; [destruct h; simpl; rewrite E2, <- ?app_assoc; reflexivity|].
    split; [now apply StronglySorted_app|].
    split.
    { destruct h; simpl; [|exact T2]. constructor; [exact T2|].
      eapply Forall_impl; [|exact H2]. intros k Hk; cbv beta in Hk; lia. }
    split.
    { apply Forall_app. split.
      - eapply Forall_impl; [|exact F1]. intros y [Y1 _]. lia.
      - eapply Forall_impl; [|exact H1]. intros k Hk; cbv beta in Hk; lia. }
    split.
    { apply Forall_app. split.
      - destruct h; constructor; [cbv beta; lia|constructor].
      - eapply Forall_impl; [|exact H2]. intros k Hk; cbv beta in Hk; lia. }
    intro k. rewrite in_app_iff, H3. split.
    + intros [I|(x & Ix & Ex)].
      * destruct h; [|contradiction]. destruct I as [<-|[]].
        destruct new1 as [|x0 new1']; [discriminate|].
        inversion F1 as [|? ? [X0 _] _]; subst.
        exists x0. split; [simpl; auto|exact X0].
      * exists x. split; [apply in_or_app; auto|exact Ex].
    + intros (x & Ix & Ex). apply in_app_or in Ix as [Ix|Ix].
      * left. rewrite Forall_forall in F1. destruct (F1 x Ix) as [X1 _].
        destruct new1; [contradiction|]. simpl in E3. subst h.
        left. congruence.
      * right. exists x. auto.
Qed.

(** X10: the order of the search result.  Whatever the flags, the matches
    come in span order and, within a span, in line order, so that no line
    is reported twice; the span indices are strictly increasing; and a
    span index is listed exactly when some match is in that span. *)
Theorem search_results_ordered
  (compilePattern : jsstring -> Flags -> option Matcher)
  (pattern : jsstring) (flags : option jsstring) (t : Tab)
  (res : SearchResult) :
  searchInSnapshot compilePattern pattern flags t = Some res ->
  StronglySorted match_before (matches res)
  /\ StronglySorted Z.lt (spanIndices res)
  /\ (forall k, In k (spanIndices res)
        <-> exists x, In x (matches res) /\ m_spanIndex x = k).
Proof.
  unfold searchInSnapshot. intro H.
  destruct (new_RegExp _ _ _) as [R|]; [|discriminate].
  inversion H; subst res. unfold search_with. simpl.
  match goal with |- context [search_spans ?lm ?i ?s ?a] =>
    destruct (search_spans_adds lm s i a)
      as (new & idx & E1 & E2 & S1 & S2 & _ & _ & Iff) end.
  simpl in E1, E2. rewrite E1, E2. auto.
Qed.

Lemma search_results_ordered_witness :
  searchInSnapshot literal_compile (js "ab") (Some (js "i")) mixed_case_tab
  = Some {| spanIndices := [0; 1];
            matches := [{| m_spanIndex := 0; m_line := js "AB";
                           m_inSpanLineNumber := 1;
                           m_globalLineNumber := 1 |};
                        {| m_spanIndex := 0; m_line := js "ab";
                           m_inSpanLineNumber := 2;
                           m_globalLineNumber := 2 |};
                        {| m_spanIndex := 1; m_line := js "Ab";
                           m_inSpanLineNumber := 1;
                           m_globalLineNumber := 3 |};
                        {| m_spanIndex := 1; m_line := js "ab";
                           m_inSpanLineNumber := 2;
                           m_globalLineNumber := 4 |}] |}
  /\ StronglySorted match_before
       [{| m_spanIndex := 0; m_line := js "AB"; m_inSpanLineNumber := 1;
           m_globalLineNumber := 1 |};
        {| m_spanIndex := 0; m_line := js "ab"; m_inSpanLineNumber := 2;
           m_globalLineNumber := 2 |};
        {| m_spanIndex := 1; m_line := js "Ab"; m_inSpanLineNumber := 1;
           m_globalLineNumber := 3 |};
        {| m_spanIndex := 1; m_line := js "ab"; m_inSpanLineNumber := 2;
           m_globalLineNumber := 4 |}]
  /\ StronglySorted Z.lt [0; 1]
  /\ (forall k, In k [0; 1]
        <-> exists x,
              In x [{| m_spanIndex := 0; m_line := js "AB";
                       m_inSpanLineNumber := 1; m_globalLineNumber := 1 |};
                    {| m_spanIndex := 0; m_line := js "ab";
                       m_inSpanLineNumber := 2; m_globalLineNumber := 2 |};
                    {| m_spanIndex := 1; m_line := js "Ab";
                       m_inSpanLineNumber := 1; m_globalLineNumber := 3 |};
                    {| m_spanIndex := 1; m_line := js "ab";
                       m_inSpanLineNumber := 2; m_globalLineNumber := 4 |}]
              /\ m_spanIndex x = k).
Proof.
  assert (searchInSnapshot literal_compile (js "ab") (Some (js "i"))
            mixed_case_tab
          = Some {| spanIndices := [0; 1];
                    matches := [{| m_spanIndex := 0; m_line := js "AB";
                                   m_inSpanLineNumber := 1;
                                   m_globalLineNumber := 1 |};
                                {| m_spanIndex := 0; m_line := js "ab";
                                   m_inSpanLineNumber := 2;
                                   m_globalLineNumber := 2 |};
                                {| m_spanIndex := 1; m_line := js "Ab";
                                   m_inSpanLineNumber := 1;
                                   m_globalLineNumber := 3 |};
                                {| m_spanIndex := 1; m_line := js "ab";
                                   m_inSpanLineNumber := 2;
                                   m_globalLineNumber := 4 |}] |}) as E
    by (vm_compute; reflexivity).
  split; [exact E|].
  exact (search_results_ordered literal_compile (js "ab") (Some (js "i"))
           mixed_case_tab _ E).
Defined.

(* ================================================================== *)
(** ** The line locator: the block and the spans it names *)
(* ================================================================== *)

Lemma count_LF_string_of_Z (z : Z) : count_LF (string_of_Z z) = 0%nat.
Proof.
  unfold string_of_Z, NilZero.string_of_int.
  destruct (Z.to_int z) as [d|d]; unfold NilZero.string_of_uint.
  - destruct d eqn:E; try reflexivity; rewrite <- E; apply count_LF_digits.
  - rewrite js_cons. change (N_of_ascii "-") with 45%N.
    unfold count_LF. simpl. fold (count_LF (js
      match d with Decimal.Nil => "0"%string
                 | _ => NilEmpty.string_of_uint d end)).
    destruct d eqn:E; try reflexivity; rewrite <- E; apply count_LF_digits.
Qed.

Lemma rendered_line_no_LF (lines : list jsstring) (g ln : Z) :
  Forall (fun l => count_LF l = 0%nat) lines ->
  count_LF (rendered_line lines g ln) = 0%nat.
Proof.
  intro F. unfold rendered_line.
  rewrite !count_LF_app, count_LF_string_of_Z.
  assert (count_LF (nth (Z.to_nat (ln - 1)) lines (js "undefined")) = 0%nat)
    as N.
  { destruct (nth_in_or_default (Z.to_nat (ln - 1)) lines (js "undefined"))
      as [I| ->]; [|reflexivity].
    rewrite Forall_forall in F. now apply F. }
  rewrite N. now destruct (ln =? g).
Qed.

(** Lines without line feed, joined with line feeds and split again. *)
Lemma split_newline_join (ls : list jsstring) :
  ls <> [] -> Forall (fun l => count_LF l = 0%nat) ls ->
  split_newline (join [LF] ls) = ls.
Proof.
  induction ls as [|l ls IH]; [contradiction|]. intros _ F.
  inversion F as [|? ? Fl Fls]; subst.
  destruct ls as [|l' ls'].
  - simpl. rewrite <- (app_nil_r l) at 1.
    clear - Fl. unfold count_LF in Fl.
    induction l as [|c l IH]; simpl in *; [reflexivity|].
    destruct (c =? LF)%N; [discriminate|]. now rewrite (IH Fl).
  - change (join [LF] (l :: l' :: ls')) with (l ++ LF :: join [LF] (l' :: ls')).
    rewrite split_newline_first_line by exact Fl.
    rewrite IH; [reflexivity|discriminate|exact Fls].
Qed.

Lemma Zrange_length (lo : Z) (n : nat) : length (Zrange lo n) = n.
Proof. unfold Zrange. now rewrite length_map, length_seq. Qed.

Lemma reachable_lines_no_LF (t : Tab) :
  reachable t -> Forall (fun l => count_LF l = 0%nat) (_globalLines t).
Proof.
  intro R.
  destruct (reachable_consistent t R) as [(_ & -> & _)|(size & _ & -> & _)];
    [constructor|apply split_newline_no_LF].
Qed.

(** X11: the block of [navigateToLine].  In a tab the methods can
    produce, for a line of the snapshot and a context of at least 0, the
    content, split at its line feeds, is the list of the rendered lines
    [max(1, g - c) .. min(lineCount, g + c)]: the block has between 1 and
    [2c + 1] lines, and exactly [2c + 1] when the target is at least [c]
    lines away from both ends of the snapshot. *)
Theorem rendered_block_lines (g c : Z) (t : Tab) :
  reachable t ->
  1 <= g <= Z.of_nat (length (_globalLines t)) ->
  0 <= c ->
  let lines := _globalLines t in
  let n := Z.of_nat (length lines) in
  let lo := Z.max 1 (g - c) in
  let hi := Z.min n (g + c) in
  let block := split_newline (content (fst (navigateToLine g c t))) in
  block = map (rendered_line lines g) (Zrange lo (Z.to_nat (hi - lo + 1)))
  /\ Z.of_nat (length block) = hi - lo + 1
  /\ 1 <= hi - lo + 1 <= 2 * c + 1
  /\ (c < g -> g + c <= n -> hi - lo + 1 = 2 * c + 1).
Proof.
  intros R G C lines n lo hi block.
  destruct (navigateToLine_success g c t G) as (_ & _ & Co & _).
  fold lines in Co. fold n in Co. fold lo in Co. fold hi in Co.
  assert (block = map (rendered_line lines g)
                    (Zrange lo (Z.to_nat (hi - lo + 1)))) as B.
  { unfold block. rewrite Co. apply split_newline_join.
    - intro E. apply (f_equal (@length _)) in E.
      rewrite length_map, Zrange_length in E. simpl in E.
      unfold lo, hi, n, lines in E. lia.
    - apply Forall_forall. intros x I. apply in_map_iff in I as (ln & <- & _).
      apply rendered_line_no_LF. now apply reachable_lines_no_LF. }
  split; [exact B|]. split.
  - rewrite B, length_map, Zrange_length. unfold lo, hi, n, lines. lia.
  - unfold lo, hi, n, lines. lia.
Qed.

Lemma rendered_block_lines_witness :
  split_newline (content (fst (navigateToLine 2 0 three_span_tab)))
  = [js ">>> 2: bbbb"].
Proof.
  destruct (rendered_block_lines 2 0 three_span_tab) as (B & _).
  - exact (reach_navigate 1 _ (reach_capture text_abc _ (reach_new 6))).
  - vm_compute. split; discriminate.
  - lia.
  - rewrite B. vm_compute. reflexivity.
Defined.

Lemma involvedSpans_spec (m : list LineRange) :
  forall (k0 : nat) (s t x : Z),
  In x (involvedSpans k0 m s t)
  <-> exists k r, nth_error m k = Some r /\ x = Z.of_nat (k0 + k)
        /\ startLine r - 1 <= t /\ s <= endLine r - 1.
Proof.
  induction m as [|r m IH]; intros k0 s t x; simpl.
  - split; [contradiction|]. intros (k & r & N & _). now destruct k.
  - assert (In x (involvedSpans (S k0) m s t)
            <-> exists k r', nth_error m k = Some r'
                  /\ x = Z.of_nat (k0 + S k)
                  /\ startLine r' - 1 <= t /\ s <= endLine r' - 1) as IH'.
    { rewrite IH. split; intros (k & r' & N & E & B); exists k, r';
        (split; [exact N|split; [lia|exact B]]). }
    destruct (_ && _) eqn:B.
    + apply andb_true_iff in B as [B1 B2].
      apply Z.leb_le in B1. apply Z.geb_le in B2. simpl. rewrite IH'.
      split.
      * intros [<-|(k & r' & N & E & Bd)].
        -- exists 0%nat, r. simpl. rewrite Nat.add_0_r. auto.
        -- exists (S k), r'. simpl. auto.
      * intros ([|k] & r' & N & E & Bd); simpl in N.
        -- left. rewrite Nat.add_0_r in E. congruence.
        -- right. exists k, r'. auto.
    + rewrite IH'. split.
      * intros (k & r' & N & E & Bd). exists (S k), r'. simpl. auto.
      * intros ([|k] & r' & N & E & Bd); simpl in N.
        -- inversion N; subst r'. apply andb_false_iff in B as [B|B].
           ++ apply Z.leb_gt in B. lia.
           ++ rewrite Z.geb_leb in B. apply Z.leb_gt in B. lia.
        -- exists k, r'. auto.
Qed.

Lemma involvedSpans_sorted (m : list LineRange) :
  forall (k0 : nat) (s t : Z),
  StronglySorted Z.lt (involvedSpans k0 m s t)
  /\ Forall (fun x => Z.of_nat k0 <= x) (involvedSpans k0 m s t).
Proof.
  induction m as [|r m IH]; intros k0 s t; simpl;
    [split; constructor|].
  destruct (IH (S k0) s t) as [S1 F1].
  assert (Forall (fun x => Z.of_nat k0 < x) (involvedSpans (S k0) m s t))
    as F2 by (eapply Forall_impl; [|exact F1]; intros x Hx; cbv beta in Hx;
              lia).
  destruct (_ && _).
  - split; constructor; auto; [lia|].
    eapply Forall_impl; [|exact F2]. intros x Hx; cbv beta in Hx; lia.
  - split; [exact S1|].
    eapply Forall_impl; [|exact F2]. intros x Hx; cbv beta in Hx; lia.
Qed.

(** X12: the spans that [navigateToLine] names.  For a line [g] of the
    snapshot, [lineInfo] ends in the span information of the list of the
    span indices whose recorded range meets the window
    [max(1, g - c) .. min(lineCount, g + c)]: exactly those, each once, in
    increasing order; with a context of at least 0 a span whose range
    contains line [g] is among them. *)
Theorem involved_spans_meet_window (g c : Z) (t : Tab) :
  1 <= g <= Z.of_nat (length (_globalLines t)) ->
  let n := Z.of_nat (length (_globalLines t)) in
  let m := _spanToGlobalLineMap t in
  let lo := Z.max 1 (g - c) in
  let hi := Z.min n (g + c) in
  let involved := involvedSpans 0 m (lo - 1) (hi - 1) in
  lineInfo (fst (navigateToLine g c t))
    = lineInfo_header lo hi c g ++ spanInfo involved
  /\ StronglySorted Z.lt involved
  /\ (forall x, In x involved
        <-> exists k r, nth_error m k = Some r /\ x = Z.of_nat k
              /\ startLine r <= hi /\ lo <= endLine r)
  /\ (0 <= c -> forall k r,
        nth_error m k = Some r -> startLine r <= g <= endLine r ->
        In (Z.of_nat k) involved).
Proof.
  intros G n m lo hi involved.
  assert (forall x, In x involved
            <-> exists k r, nth_error m k = Some r /\ x = Z.of_nat k
                  /\ startLine r <= hi /\ lo <= endLine r) as Spec.
  { intro x. unfold involved. rewrite involvedSpans_spec.
    split; intros (k & r & N & E & B); exists k, r;
      (split; [exact N|split; [simpl in *; lia|lia]]). }
  split; [exact (navigateToLine_lineInfo g c t G)|].
  split; [apply involvedSpans_sorted|]. split; [exact Spec|].
  intros C k r N In_r. apply Spec. exists k, r.
  split; [exact N|]. split; [reflexivity|]. unfold lo, hi, n. lia.
Qed.

Lemma involved_spans_meet_window_witness :
  In 1 (involvedSpans 0 (_spanToGlobalLineMap three_span_tab)
          (Z.max 1 (2 - 0) - 1) (Z.min 3 (2 + 0) - 1)).
Proof.
  destruct (involved_spans_meet_window 2 0 three_span_tab) as (_ & _ & _ & A).
  - vm_compute. split; discriminate.
  - apply (A ltac:(lia) 1%nat {| startLine := 2; endLine := 2 |}).
    + vm_compute. reflexivity.
    + simpl. lia.
Defined.

(* ================================================================== *)
(** ** The modal state queue: set, clear and dialogs *)
(* ================================================================== *)

Lemma set_modalStates_same (t : Tab) : set_modalStates (_modalStates t) t = t.
Proof. now destruct t. Qed.

Lemma filter_not_same_idem (m : ModalState) (q : list ModalState) :
  filter (fun state => negb (same_object state m))
    (filter (fun state => negb (same_object state m)) q)
  = filter (fun state => negb (same_object state m)) q.
Proof.
  induction q as [|x q IH]; simpl; [reflexivity|].
  destruct (negb (same_object x m)) eqn:E; simpl; [|exact IH].
  now rewrite E, IH.
Qed.

Lemma filter_comm {A} (f g : A -> bool) (l : list A) :
  filter f (filter g l) = filter g (filter f l).
Proof.
  induction l as [|x l IH]; simpl; [reflexivity|].
  destruct (f x) eqn:F, (g x) eqn:G; simpl; rewrite ?F, ?G, IH; reflexivity.
Qed.

(** X13: setting and clearing modal states.  Clearing the modal state
    that was just set, when the queue did not hold this object already,
    gives back the tab as it was; clearing removes every entry that is
    the given object and only those; clearing twice is clearing once; two
    clearings can be done in either order; and neither operation touches
    the snapshot, the spans or the cursor. *)
Theorem set_clear_modal_state (m m' : ModalState) (t : Tab) :
  ((forall x, In x (modalStates t) -> ms_ref x <> ms_ref m) ->
   clearModalState m (setModalState m t) = t)
  /\ (forall x, In x (modalStates (clearModalState m t))
        <-> In x (modalStates t) /\ ms_ref x <> ms_ref m)
  /\ clearModalState m (clearModalState m t) = clearModalState m t
  /\ clearModalState m (clearModalState m' t)
     = clearModalState m' (clearModalState m t)
  /\ _snapshotSpans (clearModalState m (setModalState m' t))
     = _snapshotSpans t
  /\ _fullSnapshot (clearModalState m (setModalState m' t)) = _fullSnapshot t
  /\ _currentSpanIndex (clearModalState m (setModalState m' t))
     = _currentSpanIndex t.
Proof.
  unfold clearModalState, setModalState, modalStates.
  split; [|split; [|split; [|split]]]; simpl.
  - intro H. unfold set_modalStates. simpl. rewrite filter_app. simpl.
    unfold same_object at 2. rewrite Nat.eqb_refl. simpl.
    rewrite app_nil_r, filter_other_objects by exact H. now destruct t.
  - intro x. rewrite filter_In. unfold same_object.
    destruct (Nat.eqb_spec (ms_ref x) (ms_ref m)); simpl; split;
      intros [A B]; split; auto; try discriminate; try contradiction.
  - unfold set_modalStates. simpl. now rewrite filter_not_same_idem.
  - unfold set_modalStates. simpl. f_equal. apply filter_comm.
  - repeat split.
Qed.

Lemma existsb_is_dialog (q : list ModalState) :
  existsb is_dialog q = true
  <-> exists s, In s q /\ ms_type s = dialog.
Proof.
  rewrite existsb_exists. unfold is_dialog.
  split; intros (s & I & H); exists s; (split; [exact I|]);
    destruct (ms_type s); congruence.
Qed.

(** X14: [_javaScriptBlocked] is true exactly when the queue holds a
    dialog.  It is true after [_dialogShown], which puts the dialog behind
    the entries the queue had; a file chooser does not change it;
    clearing a file chooser does not change it; and once the queue holds
    no other dialog, clearing the dialog makes it false again. *)
Theorem javaScriptBlocked_by_dialogs (ref : nat) (ty msg : jsstring)
  (m : ModalState) (t : Tab) :
  (_javaScriptBlocked t = true
   <-> exists s, In s (modalStates t) /\ ms_type s = dialog)
  /\ _javaScriptBlocked (_dialogShown ref ty msg t) = true
  /\ (exists d, modalStates (_dialogShown ref ty msg t)
                = modalStates t ++ [d]
                /\ ms_ref d = ref /\ ms_type d = dialog)
  /\ _javaScriptBlocked (on_filechooser ref t) = _javaScriptBlocked t
  /\ (ms_type m = fileChooser ->
      (forall x, In x (modalStates t) -> ms_ref x = ms_ref m -> x = m) ->
      _javaScriptBlocked (clearModalState m t) = _javaScriptBlocked t)
  /\ (ms_type m = dialog ->
      (forall x, In x (modalStates t) -> ms_type x = dialog ->
         ms_ref x = ms_ref m) ->
      _javaScriptBlocked (clearModalState m t) = false).
Proof.
  unfold _javaScriptBlocked, _dialogShown, on_filechooser, clearModalState,
    setModalState, modalStates. simpl.
  split; [apply existsb_is_dialog|]. split.
  { rewrite existsb_app. simpl. now rewrite orb_true_r. }
  split; [eexists; repeat split|]. split.
  { rewrite existsb_app. simpl. now rewrite !orb_false_r. }
  split.
  - intros Ty Uniq. induction (_modalStates t) as [|x q IH]; simpl;
      [reflexivity|].
    assert (forall y, In y q -> ms_ref y = ms_ref m -> y = m) as U'
      by (intros; apply Uniq; simpl; auto).
    unfold same_object at 1.
    destruct (Nat.eqb_spec (ms_ref x) (ms_ref m)) as [E|NE]; simpl.
    + rewrite (IH U'). assert (x = m) as -> by (apply Uniq; simpl; auto).
      unfold is_dialog at 2. now rewrite Ty.
    + now rewrite (IH U').
  - intros Ty Only.
    destruct (existsb is_dialog
                (filter (fun state => negb (same_object state m))
                   (_modalStates t))) eqn:E; [|reflexivity].
    apply existsb_is_dialog in E as (s & I & D).
    apply filter_In in I as [I N].
    unfold same_object in N. rewrite (Only s I D), Nat.eqb_refl in N.
    discriminate.
Qed.

(* ================================================================== *)
(** ** Console messages, requests and the cleared tab *)
(* ================================================================== *)

Lemma slice0_long (m : Z) (s : jsstring) :
  0 <= m -> m <= jslength s ->
  slice0 m s = firstn (Z.to_nat m) s /\ jslength (slice0 m s) = m.
Proof.
  intros P L. unfold slice0, jslength in *.
  destruct (Z.ltb_spec m 0); [lia|].
  replace (Z.min m (Z.of_nat (length s))) with m by lia.
  split; [reflexivity|]. rewrite length_firstn. lia.
Qed.

Lemma trim_text_short (text : jsstring) (maxLength : Z) :
  jslength text <= maxLength -> trim_text text maxLength = text.
Proof. intro L. unfold trim_text. apply Z.leb_le in L. now rewrite L. Qed.

Lemma trim_text_long (text : jsstring) (maxLength : Z) :
  0 <= maxLength -> maxLength < jslength text ->
  trim_text text maxLength = firstn (Z.to_nat maxLength) text ++ js "..."
  /\ jslength (trim_text text maxLength) = maxLength + 3.
Proof.
  intros P L. unfold trim_text.
  destruct (Z.leb_spec (jslength text) maxLength); [lia|].
  destruct (slice0_long maxLength text P) as [E1 E2]; [lia|].
  split; [now rewrite E1|].
  unfold jslength in *. rewrite length_app, Nat2Z.inj_add, E2.
  reflexivity.
Qed.

(** X15: the cut of a long text.  For a limit of at least 0, a text
    within the limit is returned as it is; a longer text is cut to its
    first [maxLength] code units followed by three dots, [maxLength + 3]
    code units in all, so that a text one or two code units over the
    limit comes back longer than it was; cutting a second time changes
    nothing. *)
Theorem trim_text_cuts (text : jsstring) (maxLength : Z) :
  0 <= maxLength ->
  (jslength text <= maxLength -> trim_text text maxLength = text)
  /\ (maxLength < jslength text ->
      trim_text text maxLength
      = firstn (Z.to_nat maxLength) text ++ js "..."
      /\ jslength (trim_text text maxLength) = maxLength + 3)
  /\ jslength (trim_text text maxLength)
     <= Z.max (jslength text) (maxLength + 3)
  /\ trim_text (trim_text text maxLength) maxLength
     = trim_text text maxLength
  /\ (jslength text < jslength (trim_text text maxLength)
      <-> maxLength < jslength text < maxLength + 3).
Proof.
  intro P.
  split; [apply trim_text_short|]. split; [now apply trim_text_long|].
  destruct (Z_le_gt_dec (jslength text) maxLength) as [L|G].
  - rewrite !(trim_text_short _ _ L).
    split; [lia|]. split; [reflexivity|lia].
  - destruct (trim_text_long text maxLength P) as [E1 E2]; [lia|].
    split; [lia|]. split; [|lia].
    destruct (trim_text_long (trim_text text maxLength) maxLength P)
      as [F1 _]; [lia|].
    rewrite F1. rewrite E1 at 1.
    assert (length (firstn (Z.to_nat maxLength) text) = Z.to_nat maxLength)
      as Lf by (rewrite length_firstn; unfold jslength in G; lia).
    rewrite firstn_app, Lf, Nat.sub_diag, firstn_all2 by lia.
    simpl firstn. rewrite app_nil_r. now rewrite E1.
Qed.

Lemma trim_text_cuts_witness :
  trim_text (js "abcde") 4 = js "abcd..."
  /\ jslength (js "abcde") < jslength (trim_text (js "abcde") 4).
Proof.
  destruct (trim_text_cuts (js "abcde") 4) as (_ & A & _ & _ & B); [lia|].
  split.
  - destruct A as [A _]; [vm_compute; reflexivity|]. rewrite A. reflexivity.
  - apply B. vm_compute. split; reflexivity.
Defined.

Lemma handle_messages (msgs : list ConsoleMessage) :
  forall a : Artifacts,
  let a' := fold_left (fun acc m => _handleConsoleMessage m acc) msgs a in
  _consoleMessages a' = _consoleMessages a ++ msgs
  /\ _recentConsoleMessages a' = _recentConsoleMessages a ++ msgs
  /\ _requests a' = _requests a.
Proof.
  induction msgs as [|m msgs IH]; intro a; simpl.
  - now rewrite !app_nil_r.
  - destruct (IH (_handleConsoleMessage m a)) as (A & B & C).
    rewrite A, B, C. simpl. now rewrite <- !app_assoc.
Qed.

(** X16: the console messages.  After the messages [msgs] were handled
    on artifacts that were just cleared, [consoleMessages] returns them
    in the order of arrival and [_takeRecentConsoleMarkdown] returns
    nothing when there is none, and otherwise a title, one line per
    message in the order of arrival, and an empty line; a message line is
    a dash, a space and the cut text of the message, at most 105 code
    units. *)
Theorem recent_console_markdown (msgs : list ConsoleMessage) :
  let a := fold_left (fun acc m => _handleConsoleMessage m acc) msgs
             new_Artifacts in
  consoleMessages a = msgs
  /\ (msgs = [] -> _takeRecentConsoleMarkdown a = [])
  /\ (msgs <> [] ->
      _takeRecentConsoleMarkdown a
      = js "### New console messages"
          :: map (fun m => js "- " ++ trim_text (cm_toString m) 100) msgs
          ++ [[]])
  /\ (forall m, In m msgs ->
        jslength (js "- " ++ trim_text (cm_toString m) 100) <= 105).
Proof.
  intro a. destruct (handle_messages msgs new_Artifacts) as (A & B & _).
  fold a in A, B. simpl in A, B.
  unfold consoleMessages, _takeRecentConsoleMarkdown. rewrite A, B.
  split; [reflexivity|]. split; [now intros ->|]. split.
  - intro NE. destruct msgs; [contradiction|reflexivity].
  - intros m _. unfold jslength. rewrite length_app.
    assert (0 <= 100) as P by lia.
    destruct (Z_le_gt_dec (jslength (cm_toString m)) 100) as [L|G].
    + rewrite (trim_text_short _ _ L). unfold jslength in L. simpl. lia.
    + destruct (trim_text_long (cm_toString m) 100 P) as [_ E]; [lia|].
      unfold jslength in E. simpl. lia.
Qed.

(** X17: the tab after [_clearCollectedArtifacts] (a navigation, or the
    page closing).  The console messages, the requests and the snapshot
    are gone, the span size and the modal states are kept; every reader
    reports the empty state: span navigation fails, [navigateToLine]
    answers that there is no snapshot, a search that compiles finds
    nothing; and the next snapshot starts at the first span. *)
Theorem cleared_tab_reports_nothing
  (compilePattern : jsstring -> Flags -> option Matcher)
  (pattern : jsstring) (flags : option jsstring) (text : jsstring)
  (i g c : Z) (s : Artifacts * Tab) :
  let a' := fst (_clearCollectedArtifacts s) in
  let t' := snd (_clearCollectedArtifacts s) in
  consoleMessages a' = []
  /\ requests a' = []
  /\ _takeRecentConsoleMarkdown a' = []
  /\ getSnapshotSpanSize t' = getSnapshotSpanSize (snd s)
  /\ modalStates t' = modalStates (snd s)
  /\ getTotalSpans t' = 0
  /\ getCurrentSpanIndex t' = 0
  /\ navigateToSpan i t'
     = ({| success := false; span := []; spanIndex := 0; totalSpans := 0 |},
        t')
  /\ fst (navigateToLine g c t')
     = {| l_success := false; content := [];
          lineInfo := js "No snapshot available. Take a snapshot first." |}
  /\ (forall res,
        searchInSnapshot compilePattern pattern flags t' = Some res ->
        res = {| spanIndices := []; matches := [] |})
  /\ getCurrentSpanIndex (captureSnapshot text t') = 0.
Proof.
  intros a' t'. subst a' t'. unfold _clearCollectedArtifacts. cbn [fst snd].
  repeat match goal with |- _ /\ _ => split end; try reflexivity.
  - intros res H. unfold searchInSnapshot in H.
    destruct (new_RegExp _ _ _); [|discriminate]. now inversion H.
  - unfold getCurrentSpanIndex, captureSnapshot.
    destruct (_modalStates (_resetSnapshot (snd s))); [|reflexivity].
    unfold update_snapshot. cbn [_fullSnapshot _resetSnapshot].
    destruct (jsstring_eqb [] text); [reflexivity|].
    unfold _splitSnapshotIntoSpans.
    cbn [_currentSpanIndex _snapshotSpans _snapshotSpanSize fst snd].
    unfold reconciled_cursor.
    change (_snapshotSpans (_resetSnapshot (snd s))) with (@nil jsstring).
    change (_snapshotSpanSize (_resetSnapshot (snd s)))
      with (_snapshotSpanSize (snd s)).
    cbn [length Z.of_nat Z.eqb].
    pose proof (split_spans_nonempty (_snapshotSpanSize (snd s)) text). lia.
Qed.

Lemma Map_get_set_same (key : nat) (value : option nat)
  (m : list (nat * option nat)) :
  Map_get key (Map_set key value m) = Some value.
Proof.
  induction m as [|[k v] m IH]; simpl.
  - now rewrite Nat.eqb_refl.
  - destruct (Nat.eqb_spec k key) as [E|NE]; simpl.
    + subst k. now rewrite Nat.eqb_refl.
    + apply Nat.eqb_neq in NE. now rewrite NE.
Qed.

Lemma Map_get_set_other (key key' : nat) (value : option nat)
  (m : list (nat * option nat)) :
  key <> key' -> Map_get key' (Map_set key value m) = Map_get key' m.
Proof.
  intro NE. induction m as [|[k v] m IH]; simpl.
  - apply Nat.eqb_neq in NE. now rewrite NE.
  - destruct (Nat.eqb_spec k key) as [E|NE']; simpl.
    + subst k. apply Nat.eqb_neq in NE. now rewrite NE.
    + now rewrite IH.
Qed.

Lemma Map_set_keys (key : nat) (value : option nat)
  (m : list (nat * option nat)) :
  map fst (Map_set key value m)
  = if existsb (Nat.eqb key) (map fst m) then map fst m
    else map fst m ++ [key].
Proof.
  induction m as [|[k v] m IH]; simpl; [reflexivity|].
  rewrite (Nat.eqb_sym key k).
  destruct (Nat.eqb_spec k key); simpl; [reflexivity|].
  rewrite IH. now destruct (existsb _ _).
Qed.

(** X18: the requests.  After a response arrived for a request, the
    request maps to this response; after the request is seen (again), it
    maps to [null], whatever was recorded for it; an event for one request
    leaves what is recorded for every other request; a request that is
    already there keeps its place, a new one goes to the end; and the
    console messages are not touched. *)
Theorem requests_record_responses (request response other : nat)
  (a : Artifacts) :
  Map_get request (requests (on_response request response a))
    = Some (Some response)
  /\ Map_get request (requests (on_request request a)) = Some None
  /\ Map_get request
       (requests (on_request request (on_response request response a)))
     = Some None
  /\ (request <> other ->
      Map_get other (requests (on_response request response a))
        = Map_get other (requests a)
      /\ Map_get other (requests (on_request request a))
         = Map_get other (requests a))
  /\ map fst (requests (on_request request a))
     = (if existsb (Nat.eqb request) (map fst (requests a))
        then map fst (requests a)
        else map fst (requests a) ++ [request])
  /\ consoleMessages (on_request request a) = consoleMessages a
  /\ consoleMessages (on_response request response a) = consoleMessages a.
Proof.
  unfold requests, on_response, on_request, consoleMessages. simpl.
  repeat match goal with |- _ /\ _ => split end;
    try reflexivity; try apply Map_get_set_same.
  - intro NE. split; now apply Map_get_set_other.
  - apply Map_set_keys.
Qed.

(* ================================================================== *)
(** ** Locators for the references of the snapshot *)
(* ================================================================== *)

Lemma startsWith_spec (p s : jsstring) :
  startsWith p s = true <-> exists post, s = p ++ post.
Proof.
  revert s. induction p as [|a p IH]; intros [|b s]; simpl.
  - split; [exists []; reflexivity|reflexivity].
  - split; [intros _; now exists (b :: s)|reflexivity].
  - split; [discriminate|intros (post & E); discriminate].
  - rewrite andb_true_iff, N.eqb_eq, IH. split.
    + intros (-> & post & ->). now exists post.
    + intros (post & E). inversion E; subst. split; [reflexivity|].
      now exists post.
Qed.

Lemma includes_spec (s needle : jsstring) :
  includes s needle = true <-> exists pre post, s = pre ++ needle ++ post.
Proof.
  induction s as [|c s IH]; simpl.
  - rewrite orb_false_r, startsWith_spec. split.
    + intros (post & E). now exists [], post.
    + intros (pre & post & E). symmetry in E.
      apply app_eq_nil in E as [-> E]. simpl in E. now exists post.
  - rewrite orb_true_iff, startsWith_spec, IH. split.
    + intros [(post & E)|(pre & post & E)].
      * now exists [], post.
      * exists (c :: pre), post. simpl. now rewrite E.
    + intros ([|d pre] & post & E); simpl in E.
      * left. now exists post.
      * right. inversion E; subst. now exists pre, post.
Qed.

(** X19: [refLocators].  It returns locators exactly when the snapshot
    text contains the marker [[ref=...]] of every parameter: then there is
    one locator per parameter, in order, with the selector [aria-ref=...]
    and the element description of the parameter.  Otherwise the error
    names the first parameter whose reference is missing.  [refLocator] is
    the case of one parameter. *)
Theorem refLocators_checks_refs (snapshot : jsstring)
  (params : list RefParam) :
  let present p :=
    exists pre post,
      snapshot = pre ++ (js "[ref=" ++ ref p ++ js "]") ++ post in
  ((forall p, In p params -> present p) ->
   refLocators snapshot params
   = inr (map (fun p => {| selector := js "aria-ref=" ++ ref p;
                           description := element p |}) params))
  /\ (forall before p after,
        params = before ++ p :: after ->
        (forall q, In q before -> present q) -> ~ present p ->
        refLocators snapshot params
        = inl (js "Ref " ++ ref p
                 ++ js " not found in the current page snapshot. Try capturing new snapshot."))
  /\ (forall ls, refLocators snapshot params = inr ls ->
        (forall p, In p params -> present p)
        /\ length ls = length params)
  /\ (forall p,
        (present p ->
         refLocator snapshot p
         = inr {| selector := js "aria-ref=" ++ ref p;
                  description := element p |})
        /\ (~ present p -> exists e, refLocator snapshot p = inl e)).
Proof.
  intro present.
  assert (forall p, present p ->
            refLocator_of snapshot p
            = inr {| selector := js "aria-ref=" ++ ref p;
                     description := element p |}) as Ok.
  { intros p H. apply includes_spec in H. unfold refLocator_of.
    now rewrite H. }
  assert (forall p, ~ present p ->
            refLocator_of snapshot p
            = inl (js "Ref " ++ ref p
                     ++ js " not found in the current page snapshot. Try capturing new snapshot."))
    as Ko.
  { intros p H. unfold refLocator_of.
    destruct (includes snapshot _) eqn:I; [|reflexivity].
    exfalso. apply H. now apply includes_spec. }
  assert (forall ps, (forall p, In p ps -> present p) ->
            refLocators snapshot ps
            = inr (map (fun p => {| selector := js "aria-ref=" ++ ref p;
                                    description := element p |}) ps)) as All.
  { induction ps as [|p ps IH]; intro H; simpl; [reflexivity|].
    rewrite Ok by (apply H; now left).
    rewrite IH by (intros; apply H; now right). reflexivity. }
  split; [apply All|]. split; [|split].
  - intros before p after -> Hb Hp.
    induction before as [|q before IH]; simpl.
    + now rewrite (Ko p Hp).
    + rewrite Ok by (apply Hb; now left).
      rewrite IH by (intros; apply Hb; now right). reflexivity.
  - induction params as [|p ps IH]; intros ls H.
    + simpl in H. inversion H. split; [intros q []|reflexivity].
    + cbn [refLocators] in H.
      destruct (refLocator_of snapshot p) as [e|l] eqn:RL; [discriminate|].
      destruct (refLocators snapshot ps) as [e|ls']; [discriminate|].
      inversion H; subst ls. destruct (IH ls' eq_refl) as [P L].
      split; [|simpl; now rewrite L].
      intros q [<-|Iq]; [|auto].
      assert (includes snapshot (js "[ref=" ++ ref p ++ js "]") = true) as I.
      { unfold refLocator_of in RL.
        destruct (includes snapshot _); [reflexivity|discriminate]. }
      apply includes_spec in I. exact I.
  - intro p. split.
    + intro H. unfold refLocator. simpl. now rewrite (Ok p H).
    + intro H. unfold refLocator. simpl. rewrite (Ko p H). eauto.
Qed.

(* ================================================================== *)
(** ** The snapshot tools *)
(* ================================================================== *)

Lemma navigateToSpan_some (i : Z) (t : Tab) :
  getTotalSpans t <> 0 ->
  navigateToSpan i t
  = (let k := Z.max 0 (Z.min i (getTotalSpans t - 1)) in
     ({| success := true; span := nth (Z.to_nat k) (_snapshotSpans t) [];
         spanIndex := k; totalSpans := getTotalSpans t |},
      set_currentSpanIndex k t)).
Proof.
  intro NZ. unfold getTotalSpans, navigateToSpan in *.
  apply Z.eqb_neq in NZ. now rewrite NZ.
Qed.

Lemma navigateToSpan_none (i : Z) (t : Tab) :
  getTotalSpans t = 0 ->
  navigateToSpan i t
  = ({| success := false; span := []; spanIndex := 0; totalSpans := 0 |}, t).
Proof.
  intro Z0. unfold getTotalSpans, navigateToSpan in *.
  apply Z.eqb_eq in Z0. now rewrite Z0.
Qed.

(** X20: what the five span tools report.  Without spans each of them
    adds the one result "No snapshot available. Take a snapshot first."
    and leaves the tab as it is.  With [n] spans each adds two results,
    the position [k of n] with [1 <= k <= n] and the fenced text of span
    [k], and makes span [k] the current one: [k] is the index asked for,
    clamped, plus 1; it is 1 for the first-span tool and [n] for the
    last-span tool. *)
Theorem span_tools_report (i : Z) (t : Tab) :
  let n := getTotalSpans t in
  let shown k := fenced (nth (Z.to_nat (k - 1)) (_snapshotSpans t) []) in
  let position k :=
    js "Navigated to span " ++ string_of_Z k ++ js " of " ++ string_of_Z n in
  let k_of i := Z.max 0 (Z.min i (n - 1)) + 1 in
  (n = 0 ->
   snapshotNavigateToSpan_handle i t = (no_snapshot_result, t)
   /\ snapshotNavigateToFirstSpan_handle t = (no_snapshot_result, t)
   /\ snapshotNavigateToLastSpan_handle t = (no_snapshot_result, t)
   /\ snapshotNavigateToNextSpan_handle t = (no_snapshot_result, t)
   /\ snapshotNavigateToPrevSpan_handle t = (no_snapshot_result, t))
  /\ (n <> 0 ->
      1 <= k_of i <= n
      /\ snapshotNavigateToSpan_handle i t
         = ([position (k_of i); shown (k_of i)],
            set_currentSpanIndex (k_of i - 1) t)
      /\ snapshotNavigateToFirstSpan_handle t
         = ([js "Navigated to first span (1 of " ++ string_of_Z n ++ js ")";
             shown 1],
            set_currentSpanIndex 0 t)
      /\ snapshotNavigateToLastSpan_handle t
         = ([js "Navigated to last span (" ++ string_of_Z n ++ js " of "
               ++ string_of_Z n ++ js ")";
             shown n],
            set_currentSpanIndex (n - 1) t)
      /\ snapshotNavigateToNextSpan_handle t
         = ([position (k_of (getCurrentSpanIndex t + 1));
             shown (k_of (getCurrentSpanIndex t + 1))],
            set_currentSpanIndex (k_of (getCurrentSpanIndex t + 1) - 1) t)
      /\ snapshotNavigateToPrevSpan_handle t
         = ([position (k_of (getCurrentSpanIndex t - 1));
             shown (k_of (getCurrentSpanIndex t - 1))],
            set_currentSpanIndex (k_of (getCurrentSpanIndex t - 1) - 1) t)).
Proof.
  intros n shown position k_of.
  unfold snapshotNavigateToSpan_handle, snapshotNavigateToFirstSpan_handle,
    snapshotNavigateToLastSpan_handle, snapshotNavigateToNextSpan_handle,
    snapshotNavigateToPrevSpan_handle, navigateToFirstSpan,
    navigateToLastSpan, navigateToNextSpan, navigateToPrevSpan.
  split.
  - intro Z0. rewrite !(navigateToSpan_none _ t Z0). repeat split.
  - intro NZ. rewrite !(navigateToSpan_some _ t NZ). cbv zeta.
    unfold report_span. cbn [success span spanIndex totalSpans].
    fold n. unfold shown, position, k_of, getCurrentSpanIndex.
    assert (forall x, x + 1 - 1 = x) as Cancel by (intro; lia).
    rewrite !Cancel.
    assert (0 < n) as Pos by (unfold n, getTotalSpans in *; lia).
    change (Z.of_nat (length (_snapshotSpans t))) with n.
    replace (Z.max 0 (Z.min (n - 1) (n - 1))) with (n - 1) by lia.
    replace (Z.max 0 (Z.min 0 (n - 1))) with 0 by lia.
    replace (n - 1 + 1) with n by lia.
    split; [lia|]. repeat split.
Qed.

Lemma flat_map_report_match_length (ms : list SearchMatch) :
  length (flat_map report_match ms) = (2 * length ms)%nat.
Proof. induction ms as [|x ms IH]; simpl; [reflexivity|]. rewrite IH. lia. Qed.

Lemma StronglySorted_lt_NoDup (l : list Z) :
  StronglySorted Z.lt l -> NoDup l.
Proof.
  induction 1 as [|a l S IH F]; constructor; [|exact IH].
  intro I. rewrite Forall_forall in F. specialize (F a I). lia.
Qed.

(** X21: what the search tool reports.  When the regular expression
    constructor throws, the only result is the error message.  Otherwise
    "No matches found" is the only result exactly when the search found
    no match (the span index list is empty exactly when the match list
    is); with [n] matches in [k] spans, [1 <= k <= n], the first result
    gives these two totals, at most 10 matches are shown, two results
    each, one more result tells how many matches are not shown exactly
    when there are more than 10, and a closing hint follows. *)
Theorem snapshotSearch_reports
  (compilePattern : jsstring -> Flags -> option Matcher)
  (errorMessage pattern : jsstring) (flags : option jsstring) (t : Tab) :
  let results :=
    snapshotSearch_handle compilePattern errorMessage pattern flags t in
  (searchInSnapshot compilePattern pattern flags t = None ->
   results = [js "Error searching: " ++ errorMessage])
  /\ (forall res,
        searchInSnapshot compilePattern pattern flags t = Some res ->
        let n := length (matches res) in
        let k := length (spanIndices res) in
        (k = 0%nat <-> n = 0%nat)
        /\ (k <= n)%nat
        /\ (n = 0%nat ->
            results = [js "No matches found for pattern: " ++ pattern])
        /\ (n <> 0%nat ->
            results
            = [js "Found " ++ string_of_nat n ++ js " matches in "
                 ++ string_of_nat k ++ js " spans:";
               js "Spans with matches: "
                 ++ join (js ", ")
                      (map (fun i => string_of_Z (i + 1)) (spanIndices res))]
              ++ flat_map report_match (firstn 10 (matches res))
              ++ (if (10 <? n)%nat
                  then [[LF] ++ js "... and " ++ string_of_nat (n - 10)
                          ++ js " more matches"]
                  else [])
              ++ [[LF] ++ js "Use navigation tools to view specific spans with matches."]
            /\ length results
               = (3 + 2 * Nat.min 10 n + (if (10 <? n)%nat then 1 else 0))%nat)).
Proof.
  intro results. subst results. unfold snapshotSearch_handle.
  split; [now intros ->|]. intros res H. rewrite H.
  set (n := length (matches res)). set (k := length (spanIndices res)).
  assert (StronglySorted Z.lt (spanIndices res)
          /\ forall i, In i (spanIndices res)
               <-> exists x, In x (matches res) /\ m_spanIndex x = i)
    as [Srt Iff].
  { unfold searchInSnapshot in H.
    destruct (new_RegExp _ _ _) as [R|]; [|discriminate].
    inversion H; subst res. unfold search_with. simpl.
    match goal with |- context [search_spans ?lm ?i ?s ?a] =>
      destruct (search_spans_adds lm s i a)
        as (new & idx & E1 & E2 & _ & S2 & _ & _ & I) end.
    simpl in E1, E2. rewrite E1, E2. auto. }
  assert (k = 0%nat <-> n = 0%nat) as KN.
  { unfold k, n. split; intro E.
    - destruct (matches res) as [|x ms] eqn:M; [reflexivity|].
      assert (In (m_spanIndex x) (spanIndices res)) as I
        by (apply Iff; exists x; simpl; auto).
      destruct (spanIndices res); [contradiction|discriminate].
    - destruct (spanIndices res) as [|i idx] eqn:S; [reflexivity|].
      destruct (proj1 (Iff i)) as (x & I & _); [simpl; auto|].
      destruct (matches res); [contradiction|discriminate]. }
  assert (k <= n)%nat as Le.
  { unfold k, n. rewrite <- (length_map m_spanIndex (matches res)).
    apply NoDup_incl_length; [now apply StronglySorted_lt_NoDup|].
    intros i I. apply Iff in I as (x & Ix & <-). now apply in_map. }
  split; [exact KN|]. split; [exact Le|].
  unfold report_search, maxMatches. fold n. fold k. split.
  - intro E. apply KN in E. rewrite E. reflexivity.
  - intro NE. destruct (Nat.eqb_spec k 0) as [E|_]; [apply KN in E; lia|].
    split; [reflexivity|].
    rewrite !length_app, flat_map_report_match_length, length_firstn.
    fold n. simpl length. destruct (10 <? n)%nat; simpl length; lia.
Qed.

(* ================================================================== *)
(** ** What [captureSnapshot] renders: results *)
(* ================================================================== *)

Lemma fold_left_push {A B} (f : A -> B) (l : list A) :
  forall init : list B,
  fold_left (fun result x => result ++ [f x]) l init = init ++ map f l.
Proof.
  induction l as [|x l IH]; intro init; simpl.
  - now rewrite app_nil_r.
  - now rewrite IH, <- app_assoc.
Qed.

Lemma ModalType_eqb_eq (a b : ModalType) :
  ModalType_eqb a b = true <-> a = b.
Proof. destruct a, b; simpl; split; congruence. Qed.

(** [find]: the first element that satisfies the test, or none when no
    element does. *)
Lemma find_first {A} (p : A -> bool) (l : list A) :
  match find p l with
  | Some x =>
      exists i, nth_error l i = Some x /\ p x = true
                /\ forall j y, (j < i)%nat -> nth_error l j = Some y ->
                               p y = false
  | None => forall y, In y l -> p y = false
  end.
Proof.
  induction l as [|a l IH]; simpl; [intros y []|].
  destruct (p a) eqn:Pa.
  - exists 0%nat. repeat split; auto. intros j y Hj. lia.
  - destruct (find p l) as [x|].
    + destruct IH as (i & N & Px & Before). exists (S i).
      repeat split; auto. intros [|j] y Hj Hy; simpl in Hy.
      * congruence.
      * apply (Before j); [lia|assumption].
    + intros y [<-|I]; auto.
Qed.

Lemma find_filter {A} (p q : A -> bool) (l : list A) :
  (forall x, p x = true -> q x = true) ->
  find p (filter q l) = find p l.
Proof.
  intro Imp. induction l as [|a l IH]; simpl; [reflexivity|].
  destruct (q a) eqn:Qa; simpl.
  - now rewrite IH.
  - destruct (p a) eqn:Pa; [|exact IH].
    apply Imp in Pa. congruence.
Qed.

(** The tool that a modal state line names. *)
Lemma clearing_tool_name_spec (tools : list Tool) (ty : ModalType) :
  (exists i tool,
     nth_error tools i = Some tool
     /\ clearsModalState tool = Some ty
     /\ (forall j tool', (j < i)%nat -> nth_error tools j = Some tool' ->
           clearsModalState tool' <> Some ty)
     /\ clearing_tool_name tools ty = schema_name tool)
  \/ ((forall tool, In tool tools -> clearsModalState tool <> Some ty)
      /\ clearing_tool_name tools ty = js "undefined").
Proof.
  unfold clearing_tool_name.
  set (p := fun tool : Tool =>
              match clearsModalState tool with
              | Some c => ModalType_eqb c ty
              | None => false
              end).
  assert (forall tool, p tool = true <-> clearsModalState tool = Some ty)
    as Pt.
  { intro tool. unfold p. destruct (clearsModalState tool) as [c|].
    - rewrite ModalType_eqb_eq. split; congruence.
    - split; discriminate. }
  rewrite find_filter.
  2:{ intros x Px. apply Pt in Px. unfold has_clearsModalState.
      now rewrite Px. }
  pose proof (find_first p tools) as F.
  destruct (find p tools) as [tool|].
  - left. destruct F as (i & N & Px & Before). exists i, tool.
    repeat split; auto; [now apply Pt|].
    intros j tool' Hj Hn E. apply Pt in E.
    rewrite (Before j tool' Hj Hn) in E. discriminate.
  - right. split; [|reflexivity]. intros tool I E. apply Pt in E.
    rewrite (F tool I) in E. discriminate.
Qed.

(** X22: with a modal state in the queue, [captureSnapshot] takes no
    snapshot and leaves the tab as it is; it returns the title
    "### Modal state" and one line per modal state, in queue order.  The
    line of a state is its description in brackets followed by the name,
    in double quotes, of the first tool of the tool list whose
    [clearsModalState] is the type of the state, or by "undefined" when
    the list has no such tool.  For an empty queue [modalStatesMarkdown]
    is the title and the line that says that there is none. *)
Theorem modal_states_rendered (tools : list Tool) (url title : jsstring)
  (a : Artifacts) (downloads : list DownloadEntry)
  (fullSnapshot : jsstring) (t : Tab) :
  (_modalStates t <> [] ->
   captureSnapshot_rendered tools url title a downloads fullSnapshot t
   = (join [LF] (modalStatesMarkdown tools t), t)
   /\ captureSnapshot fullSnapshot t = t
   /\ length (modalStatesMarkdown tools t) = S (length (_modalStates t))
   /\ nth_error (modalStatesMarkdown tools t) 0 = Some (js "### Modal state")
   /\ forall k state, nth_error (_modalStates t) k = Some state ->
      exists name,
        nth_error (modalStatesMarkdown tools t) (S k)
        = Some (js "- [" ++ ms_description state
                  ++ js "]: can be handled by the " ++ [34%N] ++ name
                  ++ [34%N] ++ js " tool")
        /\ ((exists i tool,
               nth_error tools i = Some tool
               /\ clearsModalState tool = Some (ms_type state)
               /\ (forall j tool', (j < i)%nat ->
                     nth_error tools j = Some tool' ->
                     clearsModalState tool' <> Some (ms_type state))
               /\ name = schema_name tool)
            \/ ((forall tool, In tool tools ->
                   clearsModalState tool <> Some (ms_type state))
                /\ name = js "undefined")))
  /\ (_modalStates t = [] ->
      modalStatesMarkdown tools t
      = [js "### Modal state"; js "- There is no modal state present"]).
Proof.
  split.
  - intro NE.
    assert (modalStatesMarkdown tools t
            = js "### Modal state"
                :: map (modal_state_line tools) (_modalStates t)) as E.
    { unfold modalStatesMarkdown.
      destruct (_modalStates t) as [|s q] eqn:M; [contradiction|].
      cbv zeta. simpl Nat.eqb. cbv iota. now rewrite fold_left_push. }
    split; [|split; [|split; [|split]]].
    + unfold captureSnapshot_rendered.
      destruct (_modalStates t); [contradiction|reflexivity].
    + unfold captureSnapshot.
      destruct (_modalStates t); [contradiction|reflexivity].
    + rewrite E. simpl. now rewrite length_map.
    + now rewrite E.
    + intros k state N. rewrite E. cbn [nth_error].
      rewrite nth_error_map, N. cbn [option_map].
      exists (clearing_tool_name tools (ms_type state)).
      split; [reflexivity|].
      destruct (clearing_tool_name_spec tools (ms_type state))
        as [(i & tool & H1 & H2 & H3 & H4)|[H1 H2]].
      * left. exists i, tool. auto.
      * right. auto.
  - intro E. unfold modalStatesMarkdown. rewrite E. reflexivity.
Qed.

(** X23: without a modal state, [captureSnapshot] returns the console
    lines, the download lines and the page state of the tab after the
    update.  In whole-text mode the span shown for a new text that is not
    empty is the whole text.  In a tab the methods can produce, once
    there are spans, the position shown, the cursor plus 1, is between 1
    and the span count and the span shown is the one [navigateToSpan]
    returns for the cursor.  On a tab without snapshot, an empty snapshot
    is reported as span 1 of 0, with the empty string as its text. *)
Theorem page_state_rendered (tools : list Tool) (url title : jsstring)
  (a : Artifacts) (downloads : list DownloadEntry)
  (fullSnapshot : jsstring) (t : Tab) :
  _modalStates t = [] ->
  let out :=
    fst (captureSnapshot_rendered tools url title a downloads fullSnapshot t)
  in
  let t' :=
    snd (captureSnapshot_rendered tools url title a downloads fullSnapshot t)
  in
  t' = captureSnapshot fullSnapshot t
  /\ out = join [LF] (_takeRecentConsoleMarkdown a
                        ++ _listDownloadsMarkdown downloads
                        ++ page_state_lines url title t')
  /\ (_snapshotSpanSize t = -1 -> fullSnapshot <> [] ->
      _fullSnapshot t <> fullSnapshot -> 0 <= _currentSpanIndex t ->
      current_span t' = fullSnapshot
      /\ page_state_lines url title t'
         = [js "### Page state"; js "- Page URL: " ++ url;
            js "- Page Title: " ++ title; js "- Page Snapshot:";
            js "```yaml"; fullSnapshot; js "```"])
  /\ (reachable t -> _snapshotSpans t' <> [] ->
      1 <= _currentSpanIndex t' + 1 <= Z.of_nat (length (_snapshotSpans t'))
      /\ current_span t'
         = span (fst (navigateToSpan (_currentSpanIndex t') t')))
  /\ (_snapshotSpanSize t <> -1 -> fullSnapshot = [] ->
      _fullSnapshot t = [] -> _snapshotSpans t = [] ->
      _currentSpanIndex t = 0 ->
      current_span t' = []
      /\ nth 3 (page_state_lines url title t') []
         = js "- Page Snapshot (Span 1 of 0):").
Proof.
  intros M out t'. subst out t'. unfold captureSnapshot_rendered.
  rewrite M. cbv zeta. cbn [fst snd].
  assert (captureSnapshot fullSnapshot t = update_snapshot fullSnapshot t)
    as C by (unfold captureSnapshot; now rewrite M).
  split; [now rewrite C|]. split; [reflexivity|]. split; [|split].
  - intros S NE Ch P. rewrite (update_snapshot_changed _ _ Ch). cbv zeta.
    rewrite S. unfold split_spans. rewrite Z.eqb_refl. cbn [fst snd].
    pose proof (reconciled_cursor_bounds [fullSnapshot] (_snapshotSpans t)
                  (_currentSpanIndex t) P) as B.
    assert (Z.min (reconciled_cursor [fullSnapshot] (_snapshotSpans t)
                     (_currentSpanIndex t))
                  (Z.of_nat (length [fullSnapshot]) - 1) = 0) as Cur
      by (simpl length; lia).
    unfold page_state_lines, current_span.
    cbn [_currentSpanIndex _snapshotSpans _snapshotSpanSize].
    rewrite Cur. simpl. split; reflexivity.
  - intros R NE. rewrite <- C in *.
    destruct (reachable_cursor_in_bounds _ (reach_capture fullSnapshot t R))
      as [B1 B2]. specialize (B2 NE).
    split; [lia|].
    rewrite navigateToSpan_in_range by lia. cbn [fst span].
    unfold current_span. destruct (Z.ltb_spec (_currentSpanIndex
      (captureSnapshot fullSnapshot t)) 0); [lia|reflexivity].
  - intros S -> F Sp Cu. unfold update_snapshot.
    rewrite (proj2 (jsstring_eqb_true _ _) F).
    unfold page_state_lines, current_span. rewrite Sp, Cu.
    apply Z.eqb_neq in S. rewrite S. simpl. split; reflexivity.
Qed.

Lemma page_state_rendered_witness :
  nth 3 (page_state_lines (js "u") (js "t")
           (snd (captureSnapshot_rendered [] (js "u") (js "t") new_Artifacts
                   [] [] (new_Tab 2000)))) []
  = js "- Page Snapshot (Span 1 of 0):".
Proof.
  destruct (page_state_rendered [] (js "u") (js "t") new_Artifacts [] []
              (new_Tab 2000) eq_refl) as (_ & _ & _ & _ & E).
  apply E; try reflexivity. vm_compute. discriminate.
Defined.
